(** * A shallow embedding of the Telegram bot of src/index.js

    The development follows the source top to bottom: JavaScript strings
    and the regular expressions of the address validators, the blockchain
    scanner with its three kinds of probe, the Formcarry submission relay,
    and the per-chat conversation handlers working on the shared
    [userData] table.

    Conventions.
    - A JavaScript string is the list of its UTF-16 code units.
    - Values that providers return and that the code only forwards or
      combines with floating-point arithmetic are kept symbolic ([jsval]).
    - An async function is a computation in the monad [M]: it reads the
      answers of the outside world (providers, Formcarry, the chat
      transport, the clock, the random source, the environment) from an
      oracle, threads the session store, may terminate abruptly ([Throw])
      and logs every call it makes to an outside service. Console output
      is left out, and a message is logged by its template and the values
      put into it.
    - A handler is cut where it awaits and later touches the session
      store again; the rest becomes a pending task of the store, fired
      by a later step of the event loop, in any order and between any other
      events. Calls to the outside commute with the store operations of
      other handlers, so they run with the segment they belong to. The
      commands other than [/start] only send messages and are covered by
      the ['message'] listener, which every message reaches. *)

From Stdlib Require Import ZArith NArith Ascii String DecimalString Lia.
From stdpp Require Import gmap list strings.

Open Scope Z_scope.

(** ** JavaScript strings *)

Abbreviation jsstring := (list N).

Definition js (s : string) : jsstring := map N_of_ascii (list_ascii_of_string s).

(** [WhiteSpace] and [LineTerminator] code points: what [String.prototype.trim]
    strips and what the class [\s] matches. *)
Definition is_space (c : N) : bool :=
  existsb (N.eqb c)
    [9; 10; 11; 12; 13; 32; 160; 5760; 8232; 8233; 8239; 8287; 12288; 65279]%N
  || (N.leb 8192 c && N.leb c 8202).

Fixpoint trimStart (s : jsstring) : jsstring :=
  match s with
  | [] => []
  | c :: t => if is_space c then trimStart t else s
  end.

Fixpoint trimEnd (s : jsstring) : jsstring :=
  match s with
  | [] => []
  | c :: t =>
      match trimEnd t with
      | [] => if is_space c then [] else [c]
      | t' => c :: t'
      end
  end.

Definition trim (s : jsstring) : jsstring := trimStart (trimEnd s).

(** [s.split(/\s+/)]: the pieces between maximal runs of white space; a run
    at either end leaves an empty piece there, and the empty string splits
    into one empty piece. [cur] is the current piece, reversed. *)
Fixpoint split_go (in_sep : bool) (cur : jsstring) (s : jsstring) : list jsstring :=
  match s with
  | [] => [rev cur]
  | c :: t =>
      if is_space c
      then (if in_sep then split_go true [] t else rev cur :: split_go true [] t)
      else split_go false (c :: cur) t
  end.

Definition split_ws (s : jsstring) : list jsstring := split_go false [] s.

(** The words of a text in the sense of the specification: its maximal runs
    of characters that are not white space. *)
Fixpoint words_go (cur : jsstring) (s : jsstring) : list jsstring :=
  match s with
  | [] => match cur with [] => [] | _ => [rev cur] end
  | c :: t =>
      if is_space c
      then match cur with [] => words_go [] t | _ => rev cur :: words_go [] t end
      else words_go (c :: cur) t
  end.

Definition spec_words (s : jsstring) : list jsstring := words_go [] s.

(** [s.slice(-n)] *)
Definition slice_last (n : nat) (s : jsstring) : jsstring :=
  drop (length s - n)%nat s.

(** [x.toString()] of an integer chat or user identifier *)
Definition Z_toString (z : Z) : jsstring := js (NilZero.string_of_int (Z.to_int z)).

(** [re.test(undefined)] tests the text "undefined" *)
Definition ToString (x : option jsstring) : jsstring :=
  match x with Some s => s | None => js "undefined" end.

(** ** Regular expressions

    The fragment used by the validators, with the backtracking reading of
    the source engine: [rmatch r s] lists what is left of [s] after each
    way of matching [r] at its start, greedy alternatives first. *)

Inductive regex :=
| Chars (lit : jsstring)
| Class (ranges : list (N * N))
| Seq (r1 r2 : regex)
| Alt (r1 r2 : regex)
| Rep (r : regex) (lo hi : nat).

Fixpoint strip_prefix (lit s : jsstring) : option jsstring :=
  match lit, s with
  | [], _ => Some s
  | c :: lit', d :: s' => if N.eqb c d then strip_prefix lit' s' else None
  | _ :: _, [] => None
  end.

Definition in_class (ranges : list (N * N)) (c : N) : bool :=
  existsb (fun r => N.leb (fst r) c && N.leb c (snd r)) ranges.

Fixpoint rep_match (m : jsstring -> list jsstring) (lo hi : nat) (s : jsstring)
  : list jsstring :=
  match hi with
  | O => []
  | S hi' => m s ≫= rep_match m (pred lo) hi'
  end ++ match lo with O => [s] | S _ => [] end.

Fixpoint rmatch (r : regex) (s : jsstring) : list jsstring :=
  match r with
  | Chars lit => match strip_prefix lit s with Some t => [t] | None => [] end
  | Class rs => match s with c :: t => if in_class rs c then [t] else [] | [] => [] end
  | Seq a b => rmatch a s ≫= rmatch b
  | Alt a b => rmatch a s ++ rmatch b s
  | Rep a lo hi => rep_match (rmatch a) lo hi s
  end.

Definition is_nil {A} (l : list A) : bool :=
  match l with [] => true | _ :: _ => false end.

(** [/^r$/.test(s)] *)
Definition regex_test (r : regex) (s : jsstring) : bool := existsb is_nil (rmatch r s).

(** a range [a-b] of a character class; a single character is [a-a] *)
Definition range (a b : string) : N * N := (hd 0%N (js a), hd 0%N (js b)).
Definition one (a : string) : N * N := range a a.

(** ** Address validation (lines 105-125) *)

(** [/^0x[a-fA-F0-9]{40}$/] *)
Definition evm_regex : regex :=
  Seq (Chars (js "0x")) (Rep (Class [range "a" "f"; range "A" "F"; range "0" "9"]) 40 40).

(** [/^(bc1|[13])[a-zA-HJ-NP-Z0-9]{25,39}$/] *)
Definition btc_class : list (N * N) :=
  [range "a" "z"; range "A" "H"; range "J" "N"; range "P" "Z"; range "0" "9"].
Definition btc_regex : regex :=
  Seq (Alt (Chars (js "bc1")) (Class [one "1"; one "3"])) (Rep (Class btc_class) 25 39).

(** [/^r[1-9A-HJ-NP-Za-km-z]{25,34}$/] *)
Definition xrp_class : list (N * N) :=
  [range "1" "9"; range "A" "H"; range "J" "N"; range "P" "Z"; range "a" "k"; range "m" "z"].
Definition xrp_regex : regex :=
  Seq (Chars (js "r")) (Rep (Class xrp_class) 25 34).

Definition validateEVMAddress (address : jsstring) : bool := regex_test evm_regex address.
Definition validateBTCAddress (address : jsstring) : bool := regex_test btc_regex address.
Definition validateXRPAddress (address : jsstring) : bool := regex_test xrp_regex address.

Inductive address_type := evm | btc | xrp.

(** [null] is [None] *)
Definition identifyAddressType (address : jsstring) : option address_type :=
  if validateEVMAddress address then Some evm
  else if validateBTCAddress address then Some btc
  else if validateXRPAddress address then Some xrp
  else None.

(** ** Outcomes of calls *)

(** A thrown value, as far as the code inspects it: [error.message] and
    [error.response.status]. *)
Record js_error := { err_message : jsstring; err_response_status : option Z }.

Definition TypeError : js_error :=
  {| err_message := js "TypeError"; err_response_status := None |}.
Definition Error (msg : jsstring) : js_error :=
  {| err_message := msg; err_response_status := None |}.

(** How an evaluation ends: normally with a value, or abruptly. *)
Inductive outcome (A : Type) :=
| Ret (a : A)
| Throw (e : js_error).
Arguments Ret {A} a.
Arguments Throw {A} e.

(** ** Configuration (lines 45-72 and 146-183) *)

Inductive Network := ETH_MAINNET | MATIC_MAINNET | BNB_MAINNET.

Record alchemy_settings := { apiKey : option jsstring; network : Network }.

Record evm_chain := { evm_name : jsstring; evm_symbol : jsstring; settings : alchemy_settings }.

Record bot_config :=
  { botToken : jsstring; formcarryToken : jsstring; formcarryUrl : option jsstring }.

Definition btc_name : jsstring := js "Bitcoin".
Definition btc_symbol : jsstring := js "BTC".
Definition btc_explorerUrl : jsstring := js "https://blockstream.info/api/address/".
Definition xrp_name : jsstring := js "Ripple".
Definition xrp_symbol : jsstring := js "XRP".
Definition xrp_explorerUrl : jsstring := js "https://data.ripple.com/v2/accounts/".

(** [obj[key]] on an object given by its entries *)
Fixpoint entry_lookup {A} (key : jsstring) (entries : list (jsstring * A)) : option A :=
  match entries with
  | [] => None
  | (k, v) :: rest => if bool_decide (k = key) then Some v else entry_lookup key rest
  end.

(** ** Sessions (lines 97-98 and 406-414) *)

Inductive step_name := choosing_option | awaiting_address | awaiting_auth | providing_input.

(** A session object of [userData]; a property that was never assigned is
    [None]. *)
Record session := {
  step : step_name;
  sessionId : jsstring;
  user_option : option jsstring;
  walletAddress : option jsstring;
  addressType : option address_type;
  authMethod : option jsstring
}.

Definition new_session (sid : jsstring) : session :=
  {| step := choosing_option; sessionId := sid; user_option := None;
     walletAddress := None; addressType := None; authMethod := None |}.

Definition set_step (v : step_name) (u : session) : session :=
  {| step := v; sessionId := sessionId u; user_option := user_option u;
     walletAddress := walletAddress u; addressType := addressType u;
     authMethod := authMethod u |}.
Definition set_option (v : jsstring) (u : session) : session :=
  {| step := step u; sessionId := sessionId u; user_option := Some v;
     walletAddress := walletAddress u; addressType := addressType u;
     authMethod := authMethod u |}.
Definition set_authMethod (v : jsstring) (u : session) : session :=
  {| step := step u; sessionId := sessionId u; user_option := user_option u;
     walletAddress := walletAddress u; addressType := addressType u;
     authMethod := Some v |}.
Definition set_wallet (a : jsstring) (t : address_type) (u : session) : session :=
  {| step := step u; sessionId := sessionId u; user_option := user_option u;
     walletAddress := Some a; addressType := Some t;
     authMethod := authMethod u |}.

(** The object posted to Formcarry (lines 892-900). *)
Record formData := {
  form_option : option jsstring;
  form_authMethod : option jsstring;
  form_input : jsstring;
  form_walletAddress : option jsstring;
  form_addressType : option address_type;
  form_sessionId : jsstring;
  form_timestamp : jsstring
}.

(** Button tokens the callback handler tests for. *)
Definition restart_bot : jsstring := js "restart_bot".
Definition import_another_wallet : jsstring := js "import_another_wallet".
Definition private_key : jsstring := js "private_key".
Definition seed_phrase : jsstring := js "seed_phrase".
Definition skip_scan : jsstring := js "skip_scan".

(** Continuations that touch [userData] after an await or a timer. A
    closure is represented by what it captured. [user] is a reference into
    the heap of session objects. *)
Inductive task :=
| StartFinal (chatId : Z) (sid : jsstring)                         (* lines 463-529 *)
| AuthReady (chatId : Z) (data : jsstring)                         (* lines 619-648 *)
| ScanRun (chatId : Z) (user : nat) (text : jsstring) (ty : address_type) (* 774-862 *)
| ScanCommit (user : nat) (text : jsstring) (ty : address_type)    (* lines 841-843 *)
| SubmitDone (chatId : Z).                                         (* line 904 *)

(** [userData] maps a chat to a session object; objects live in [heap], in
    allocation order, so that a handler holding [user] keeps its object when
    the table entry is replaced or deleted. *)
Record store := {
  heap : list session;
  userData : gmap Z nat;
  pending : list task
}.

Definition empty_store : store := {| heap := []; userData := ∅; pending := [] |}.

(** Values of provider answers, and what the code computes from them with
    binary [-], [x || 0] and [parseFloat]: kept as uninterpreted
    expressions, since the arithmetic is that of IEEE-754 doubles. *)
Inductive jsval :=
| Json (raw : jsstring)
| Undefined
| Zero
| Minus (a b : jsval)
| OrZero (a : jsval)
| ParseFloat (a : jsval).

(** [this.chains.evm], in the order of [Object.entries]; the keys are read
    from [process.env] when the scanner is constructed *)
Definition chains_evm (process_env : jsstring -> option jsstring)
  : list (jsstring * evm_chain) :=
  [ (js "eth",
     {| evm_name := js "Ethereum"; evm_symbol := js "ETH";
        settings := {| apiKey := process_env (js "ALCHEMY_API_KEY_ETH");
                       network := ETH_MAINNET |} |});
    (js "polygon",
     {| evm_name := js "Polygon"; evm_symbol := js "MATIC";
        settings := {| apiKey := process_env (js "ALCHEMY_API_KEY_POLYGON");
                       network := MATIC_MAINNET |} |});
    (js "bsc",
     {| evm_name := js "Binance Smart Chain"; evm_symbol := js "BNB";
        settings := {| apiKey := process_env (js "ALCHEMY_API_KEY_BSC");
                       network := BNB_MAINNET |} |}) ].

(** *** Provider answers, through the properties the code reads *)

Record chain_stats_data :=
  { funded_txo_sum : jsval; spent_txo_sum : jsval; tx_count : jsval }.

Record xrp_balance := { currency : jsstring; value : jsval }.

(** [response.data]; an absent object property is [None], and reading a
    property of it raises *)
Record response_data := {
  chain_stats : option chain_stats_data;
  balances : option (list xrp_balance);
  transaction_count : jsval
}.

Record owned_tokens := { tokens : option (list jsval) }.

(** *** Results of probes and of a scan *)

Inductive balance_value :=
| BalanceString (s : jsstring)
| BalanceNumber (v : jsval).

Record wallet_data := {
  success : bool;
  balance : option balance_value;
  tokenCount : option nat;
  txCount : option jsval;
  name : option jsstring;
  symbol : option jsstring
}.

(** [{ success: false }] *)
Definition failed_data : wallet_data :=
  {| success := false; balance := None; tokenCount := None; txCount := None;
     name := None; symbol := None |}.

(** The object [results] holds the property [type] next to one property
    per probed chain. *)
Inductive results_value :=
| ResType (t : address_type)
| ResData (d : wallet_data).

Record scan_result := {
  scan_success : bool;
  scan_error : option jsstring;
  scan_data : option (gmap jsstring results_value)
}.

(** *** Calls to the outside, and the oracle that answers them *)

(** Texts sent to the chat, by template, with the values put into them. *)
Inductive message :=
| MsgRestarting | MsgSlashStart | MsgImportAnother
| MsgAuthInit | MsgAuthProtocols | MsgPrivateKeyPrompt | MsgSeedPhrasePrompt
| MsgSkipped (opt : jsstring)
| MsgPreparing | MsgAddressPrompt (data : jsstring)
| MsgInvalidAddress
| MsgScanning (progress : Z)
| MsgScanResults (opt text : jsstring) (ty : address_type)
                 (scanData : gmap jsstring results_value)
| MsgScanFailed (text : jsstring)
| MsgInvalidSeed | MsgInvalidKey | MsgEmpty
| MsgFollowUp | MsgOops
| MsgInitializing (percent : Z) | MsgAuthSequence
| MsgTerminal (sid date : jsstring).

Inductive tg_call :=
| sendMessage_call (chatId : Z) (m : message)
| editMessageText_call (chatId : Z) (m : message)
| deleteMessage_call (chatId : Z).

Inductive effect :=
| Telegram (c : tg_call)
| AlchemyGetBalance (s : alchemy_settings) (address : jsstring)
| AlchemyGetTokens (s : alchemy_settings) (address : jsstring)
| HttpGet (url : jsstring)
| HttpPost (url : option jsstring) (token : jsstring) (data : formData)
| Sleep (ms : Z)
| SetTimeout (ms : Z).

Definition is_probe_call (e : effect) : bool :=
  match e with
  | AlchemyGetBalance _ _ | AlchemyGetTokens _ _ | HttpGet _ => true
  | _ => false
  end.

Record world := {
  process_env : jsstring -> option jsstring;
  getBalance : alchemy_settings -> jsstring -> outcome Z;
  getTokensForOwner : alchemy_settings -> jsstring -> outcome owned_tokens;
  axios_get : jsstring -> outcome response_data;
  (** answer to the k-th POST of one submission: the status of a
      resolved request, or the error of a rejected one *)
  axios_post : nat -> option jsstring -> jsstring -> formData -> outcome Z;
  (** a chat-transport call resolves ([None]) or rejects *)
  telegram : tg_call -> option js_error;
  randomBytes_hex : nat -> jsstring;
  now_toISOString : jsstring
}.

(** *** The monad of async functions *)

Definition M (A : Type) : Type := world -> store -> outcome A * store * list effect.

Definition ret {A} (a : A) : M A := fun _ σ => (Ret a, σ, []).

Definition throw {A} (e : js_error) : M A := fun _ σ => (Throw e, σ, []).

Definition bind {A B} (m : M A) (k : A -> M B) : M B := fun w σ =>
  match m w σ with
  | (Ret a, σ1, l1) => match k a w σ1 with (o, σ2, l2) => (o, σ2, l1 ++ l2) end
  | (Throw e, σ1, l1) => (Throw e, σ1, l1)
  end.

(** [try { body } catch (error) { handler }] *)
Definition try_catch {A} (body : M A) (handler : js_error -> M A) : M A := fun w σ =>
  match body w σ with
  | (Ret a, σ1, l1) => (Ret a, σ1, l1)
  | (Throw e, σ1, l1) => match handler e w σ1 with (o, σ2, l2) => (o, σ2, l1 ++ l2) end
  end.

(** A call whose promise nobody awaits: a rejection stays with it. The
    source installs no handler for such a rejection, and a process that ends
    on it makes no further step; the model goes on, so that its runs include
    those of such a process. A statement that depends on what a listener
    does after it has raised says so at the listener itself. *)
Definition detached (m : M unit) : M unit := try_catch m (fun _ => ret tt).

Notation "x <- m ;; k" := (bind m (fun x => k))
  (at level 100, m at next level, k at level 200, right associativity).
Notation "m ;;; k" := (bind m (fun _ => k))
  (at level 100, k at level 200, right associativity).

Definition log (e : effect) : M unit := fun _ σ => (Ret tt, σ, [e]).

Definition ask {A} (f : world -> A) : M A := fun w σ => (Ret (f w), σ, []).

Definition require {A} (x : option A) : M A :=
  match x with Some a => ret a | None => throw TypeError end.

Fixpoint for_each {A} (l : list A) (body : A -> M unit) : M unit :=
  match l with
  | [] => ret tt
  | x :: rest => body x ;;; for_each rest body
  end.

(** [Promise.all(ps)]: every promise has been started and runs to its end;
    the result is their values, or a rejection if one of them rejects. *)
Fixpoint promise_all {A} (ps : list (M A)) : M (list A) := fun w σ =>
  match ps with
  | [] => (Ret [], σ, [])
  | p :: rest =>
      match p w σ with
      | (o, σ1, l1) =>
          match promise_all rest w σ1 with
          | (os, σ2, l2) =>
              (match o, os with
               | Ret a, Ret others => Ret (a :: others)
               | Throw e, _ => Throw e
               | Ret _, Throw e => Throw e
               end, σ2, l1 ++ l2)
          end
      end
  end.

(** [Promise.all([p, q])] of two requests *)
Definition promise_both {A B} (p : M A) (q : M B) : M (A * B) := fun w σ =>
  match p w σ with
  | (o1, σ1, l1) =>
      match q w σ1 with
      | (o2, σ2, l2) =>
          (match o1, o2 with
           | Ret a, Ret b => Ret (a, b)
           | Throw e, _ => Throw e
           | Ret _, Throw e => Throw e
           end, σ2, l1 ++ l2)
      end
  end.

(** *** The chat transport *)

Definition call_telegram (c : tg_call) : M unit := fun w σ =>
  (match telegram w c with None => Ret tt | Some e => Throw e end, σ, [Telegram c]).

Definition sendMessage (chatId : Z) (m : message) : M unit :=
  call_telegram (sendMessage_call chatId m).
Definition editMessageText (chatId : Z) (m : message) : M unit :=
  call_telegram (editMessageText_call chatId m).
Definition deleteMessage (chatId : Z) : M unit :=
  call_telegram (deleteMessage_call chatId).

(** [await new Promise(r => setTimeout(r, ms))] *)
Definition sleep (ms : Z) : M unit := log (Sleep ms).

(** *** The session store *)

Definition with_heap (h : list session) (σ : store) : store :=
  {| heap := h; userData := userData σ; pending := pending σ |}.
Definition with_userData (d : gmap Z nat) (σ : store) : store :=
  {| heap := heap σ; userData := d; pending := pending σ |}.
Definition with_pending (p : list task) (σ : store) : store :=
  {| heap := heap σ; userData := userData σ; pending := p |}.

(** a new object *)
Definition alloc (u : session) : M nat := fun _ σ =>
  (Ret (length (heap σ)), with_heap (heap σ ++ [u]) σ, []).

(** reading the properties of the object behind a reference *)
Definition read (user : nat) : M session := fun _ σ =>
  match heap σ !! user with
  | Some u => (Ret u, σ, [])
  | None => (Throw TypeError, σ, [])
  end.

(** assigning properties of the object behind a reference *)
Definition modify (user : nat) (f : session -> session) : M unit := fun _ σ =>
  (Ret tt, with_heap (alter f user (heap σ)) σ, []).

(** [userData[chatId]] *)
Definition userData_get (chatId : Z) : M (option nat) := fun _ σ =>
  (Ret (userData σ !! chatId), σ, []).
(** [userData[chatId] = user] *)
Definition userData_set (chatId : Z) (user : nat) : M unit := fun _ σ =>
  (Ret tt, with_userData (<[chatId := user]> (userData σ)) σ, []).
(** [delete userData[chatId]] *)
Definition userData_delete (chatId : Z) : M unit := fun _ σ =>
  (Ret tt, with_userData (delete chatId (userData σ)) σ, []).

(** the rest of a handler after an await: it runs in a later turn *)
Definition await_then (t : task) : M unit := fun _ σ =>
  (Ret tt, with_pending (pending σ ++ [t]) σ, []).
(** [setTimeout(callback, ms)] with a callback that touches the store *)
Definition setTimeout (ms : Z) (t : task) : M unit :=
  log (SetTimeout ms) ;;; await_then t.
(** [setTimeout(callback, ms)] with a callback that only calls out: its
    calls are logged after the timer, in the log of the caller. The log
    keeps the order of the calls, not the turn in which the source makes
    them: what follows a timer is made when the timer has run. *)
Definition setTimeout_inline (ms : Z) (callback : M unit) : M unit :=
  log (SetTimeout ms) ;;; detached callback.

(** ** Security functions (lines 100-103) *)

(** [k] selects the draw of [crypto.randomBytes(4).toString('hex')] *)
Definition generateSessionId (k : nat) (userId : Z) : M jsstring :=
  hex <- ask (fun w => randomBytes_hex w k) ;;
  ret (js "TRUST-" ++ hex ++ js "-" ++ slice_last 4 (Z_toString userId)).

(** ** Blockchain scanner (lines 143-282) *)

Definition alchemy_getBalance (s : alchemy_settings) (address : jsstring) : M Z :=
  fun w σ => (getBalance w s address, σ, [AlchemyGetBalance s address]).
Definition alchemy_getTokensForOwner (s : alchemy_settings) (address : jsstring)
  : M owned_tokens :=
  fun w σ => (getTokensForOwner w s address, σ, [AlchemyGetTokens s address]).
Definition http_get (url : jsstring) : M response_data :=
  fun w σ => (axios_get w url, σ, [HttpGet url]).

Definition getEVMWalletData (address chain : jsstring) : M wallet_data :=
  env <- ask process_env ;;
  cfg <- require (entry_lookup chain (chains_evm env)) ;;
  let alchemy := settings cfg in
  try_catch
    (both <- promise_both (alchemy_getBalance alchemy address)
                          (alchemy_getTokensForOwner alchemy address) ;;
     let balance_ := fst both in
     owned <- require (tokens (snd both)) ;;
     ret {| success := true;
            balance := Some (BalanceString (Z_toString balance_));
            tokenCount := Some (length owned);
            txCount := None;
            name := Some (evm_name cfg);
            symbol := Some (evm_symbol cfg) |})
    (fun error => ret failed_data).

Definition getBTCWalletData (address : jsstring) : M wallet_data :=
  try_catch
    (data <- http_get (btc_explorerUrl ++ address) ;;
     stats <- require (chain_stats data) ;;
     ret {| success := true;
            balance := Some (BalanceNumber
                               (Minus (funded_txo_sum stats) (spent_txo_sum stats)));
            tokenCount := None;
            txCount := Some (tx_count stats);
            name := Some btc_name;
            symbol := Some btc_symbol |})
    (fun error => ret failed_data).

Definition getXRPWalletData (address : jsstring) : M wallet_data :=
  try_catch
    (data <- http_get (xrp_explorerUrl ++ address ++ js "/balances") ;;
     entries <- require (balances data) ;;
     let xrpBalance := find (fun b => bool_decide (currency b = js "XRP")) entries in
     let balance_ := match xrpBalance with
                     | Some b => ParseFloat (value b)
                     | None => Zero
                     end in
     ret {| success := true;
            balance := Some (BalanceNumber balance_);
            tokenCount := None;
            txCount := Some (OrZero (transaction_count data));
            name := Some xrp_name;
            symbol := Some xrp_symbol |})
    (fun error => ret failed_data).

(** [scanAddress], over the three probe methods it calls on [this]. *)
Section Aggregator.

Variable getEVM : jsstring -> jsstring -> M wallet_data.
Variable getBTC : jsstring -> M wallet_data.
Variable getXRP : jsstring -> M wallet_data.

Definition invalid_format : scan_result :=
  {| scan_success := false; scan_error := Some (js "Invalid address format");
     scan_data := None |}.

(** the probes of an address family, each storing its answer in [results] *)
Definition fan_out (addressType : address_type) (address : jsstring)
    (results : gmap jsstring results_value) : M (gmap jsstring results_value) :=
  match addressType with
  | evm =>
      env <- ask process_env ;;
      datas <- promise_all
                 (map (fun chainId =>
                         data <- getEVM address chainId ;; ret (chainId, data))
                      (map fst (chains_evm env))) ;;
      ret (foldl (fun acc kv => <[fst kv := ResData (snd kv)]> acc) results datas)
  | btc => data <- getBTC address ;; ret (<[js "btc" := ResData data]> results)
  | xrp => data <- getXRP address ;; ret (<[js "xrp" := ResData data]> results)
  end.

Definition scanAddress_with (address : jsstring) : M scan_result :=
  match identifyAddressType address with
  | None => ret invalid_format
  | Some addressType =>
      let results : gmap jsstring results_value := {[ js "type" := ResType addressType ]} in
      try_catch
        (filled <- fan_out addressType address results ;;
         ret {| scan_success := true; scan_error := None; scan_data := Some filled |})
        (fun error =>
           ret {| scan_success := false; scan_error := Some (err_message error);
                  scan_data := None |})
  end.

End Aggregator.

Definition scanAddress : jsstring -> M scan_result :=
  scanAddress_with getEVMWalletData getBTCWalletData getXRPWalletData.

(** ** Formcarry submission (lines 284-327) *)

Definition axios_post_form (attempt : nat) (bot : bot_config) (data : formData) : M Z :=
  fun w σ => (axios_post w attempt (formcarryUrl bot) (formcarryToken bot) data, σ,
              [HttpPost (formcarryUrl bot) (formcarryToken bot) data]).

(** [attempt] counts the requests of one submission, for the oracle; the
    retry runs from a timer, detached from the caller. *)
Fixpoint sendToFormcarry (bot : bot_config) (chatId : Z) (data : formData)
    (attempt retries : nat) (delay : Z) {struct retries} : M unit :=
  try_catch
    (status <- axios_post_form attempt bot data ;;
     if bool_decide (status = 200)
     then sendMessage chatId MsgFollowUp
     else sendMessage chatId MsgOops)
    (fun error =>
       match bool_decide (err_response_status error = Some 429), retries with
       | true, S retries' =>
           let retryDelay := delay * 2 in
           setTimeout_inline retryDelay
             (sendToFormcarry bot chatId data (S attempt) retries' retryDelay)
       | _, _ => sendMessage chatId MsgOops
       end).

(** ** Main bot handlers (lines 403-907) *)

Definition ensureUserData (chatId : Z) : M nat :=
  entry <- userData_get chatId ;;
  match entry with
  | Some user => ret user
  | None =>
      sid <- generateSessionId 0 chatId ;;
      user <- alloc (new_session sid) ;;
      userData_set chatId user ;;;
      ret user
  end.

(** [bot.onText(/\/start/, ...)] up to its timer *)
Definition on_start (chatId fromId : Z) : M unit :=
  user <- ensureUserData chatId ;;
  sid <- generateSessionId 1 fromId ;;
  sendMessage chatId (MsgInitializing 50) ;;;
  for_each [6; 7; 8; 9; 10]
    (fun i => sleep 600 ;;; editMessageText chatId (MsgInitializing (i * 10))) ;;;
  editMessageText chatId MsgAuthSequence ;;;
  setTimeout 2000 (StartFinal chatId sid).

(** [bot.on('callback_query', ...)] *)
Definition on_callback_query (chatId : Z) (data : jsstring) : M unit :=
  user <- ensureUserData chatId ;;
  if bool_decide (data = restart_bot) then
    sendMessage chatId MsgRestarting ;;;
    sendMessage chatId MsgSlashStart
  else if bool_decide (data = import_another_wallet) then
    modify user (set_step choosing_option) ;;;
    sendMessage chatId MsgImportAnother
  else if bool_decide (data = private_key) || bool_decide (data = seed_phrase) then
    sendMessage chatId MsgAuthInit ;;;
    sleep 2000 ;;;
    editMessageText chatId MsgAuthProtocols ;;;
    setTimeout 1500 (AuthReady chatId data)
  else if bool_decide (data = skip_scan) then
    modify user (set_step awaiting_auth) ;;;
    u <- read user ;;
    opt <- require (user_option u) ;;
    sendMessage chatId (MsgSkipped opt)
  else
    modify user (fun u => set_step awaiting_address (set_option data u)) ;;;
    sendMessage chatId MsgPreparing ;;;
    setTimeout_inline 800
      (deleteMessage chatId ;;; sendMessage chatId (MsgAddressPrompt data)).

Definition updateProgress (chatId : Z) (progress : Z) : M unit :=
  try_catch (editMessageText chatId (MsgScanning progress)) (fun error => ret tt).

Definition scan_error_text (r : scan_result) : jsstring :=
  match scan_error r with
  | Some (c :: s) => c :: s
  | _ => js "Scan failed"
  end.

(** [bot.on('message', ...)] up to the await of its branch *)
Definition on_message (bot : bot_config) (chatId : Z) (msg_text : option jsstring)
  : M unit :=
  let text := trim <$> msg_text in
  user <- ensureUserData chatId ;;
  u <- read user ;;
  match step u with
  | awaiting_address =>
      match identifyAddressType (ToString text) with
      | None => sendMessage chatId MsgInvalidAddress
      | Some addressType =>
          t <- require text ;;
          sendMessage chatId (MsgScanning 25) ;;;
          await_then (ScanRun chatId user t addressType)
      end
  | providing_input =>
      checked <-
        (if bool_decide (authMethod u = Some seed_phrase) then
           t <- require text ;;
           let words := split_ws (trim t) in
           let isValid := bool_decide (12 <= length words)%nat in
           ret (isValid, if isValid then MsgEmpty else MsgInvalidSeed)
         else if bool_decide (authMethod u = Some private_key) then
           t <- require text ;;
           let isValid := bool_decide (64 <= length t)%nat in
           ret (isValid, if isValid then MsgEmpty else MsgInvalidKey)
         else ret (false, MsgEmpty)) ;;
      if negb (fst checked) then sendMessage chatId (snd checked)
      else
        t <- require text ;;
        timestamp <- ask now_toISOString ;;
        let formData :=
          {| form_option := user_option u;
             form_authMethod := authMethod u;
             form_input := t;
             form_walletAddress := walletAddress u;
             form_addressType := addressType u;
             form_sessionId := sessionId u;
             form_timestamp := timestamp |} in
        sendToFormcarry bot chatId formData 0 3 1000 ;;;
        await_then (SubmitDone chatId)
  | _ => ret tt
  end.

(** The continuations. *)
Definition run_task (t : task) : M unit :=
  match t with
  | StartFinal chatId sid =>
      deleteMessage chatId ;;;
      date <- ask now_toISOString ;;
      sendMessage chatId (MsgTerminal sid date) ;;;
      user <- alloc (new_session sid) ;;
      userData_set chatId user
  | AuthReady chatId data =>
      deleteMessage chatId ;;;
      entry <- userData_get chatId ;;
      user <- require entry ;;
      modify user (fun u => set_step providing_input (set_authMethod data u)) ;;;
      sendMessage chatId
        (if bool_decide (data = private_key) then MsgPrivateKeyPrompt
         else MsgSeedPhrasePrompt)
  | ScanRun chatId user text addressType =>
      try_catch
        (scanResult <- scanAddress text ;;
         (if scan_success scanResult then ret tt
          else throw (Error (scan_error_text scanResult))) ;;;
         scanData <- require (scan_data scanResult) ;;
         for_each [40; 60; 80; 100]
           (fun stage => sleep 10000 ;;; updateProgress chatId stage) ;;;
         deleteMessage chatId ;;;
         u <- read user ;;
         opt <- require (user_option u) ;;
         sendMessage chatId (MsgScanResults opt text addressType scanData) ;;;
         await_then (ScanCommit user text addressType))
        (fun error => editMessageText chatId (MsgScanFailed text))
  | ScanCommit user text addressType =>
      modify user (fun u => set_wallet text addressType (set_step awaiting_auth u))
  | SubmitDone chatId => userData_delete chatId
  end.

(** ** The event loop *)

Inductive update :=
| Message (chatId fromId : Z) (text : option jsstring)
| CallbackQuery (chatId : Z) (data : jsstring).

(** [/\/start/.test(text)]: the pattern occurs somewhere in the text *)
Fixpoint occurs (pat s : jsstring) : bool :=
  match strip_prefix pat s with
  | Some _ => true
  | None => match s with [] => false | _ :: t => occurs pat t end
  end.

(** An update reaches the ['message'] listener first and then the text
    commands; of these only [/start] touches the store. *)
Definition dispatch (bot : bot_config) (u : update) : M unit :=
  match u with
  | Message chatId fromId text =>
      detached (on_message bot chatId text) ;;;
      match text with
      | Some t => if occurs (js "/start") t then detached (on_start chatId fromId) else ret tt
      | None => ret tt
      end
  | CallbackQuery chatId data => detached (on_callback_query chatId data)
  end.

Inductive label :=
| Deliver (bot : bot_config) (u : update)
| Fire (i : nat).

Definition loop_step (w : world) (lab : label) (σ : store) : store * list effect :=
  match lab with
  | Deliver bot u =>
      match dispatch bot u w σ with (_, σ', l) => (σ', l) end
  | Fire i =>
      match pending σ !! i with
      | Some t =>
          match detached (run_task t) w (with_pending (delete i (pending σ)) σ) with
          | (_, σ', l) => (σ', l)
          end
      | None => (σ, [])
      end
  end.

Fixpoint exec (trace : list (world * label)) (σ : store) : store :=
  match trace with
  | [] => σ
  | (w, lab) :: rest => exec rest (fst (loop_step w lab σ))
  end.

(** the session of a chat, if it has one *)
Definition session_of (chatId : Z) (σ : store) : option session :=
  user ← userData σ !! chatId; heap σ !! user.

(** * Vocabulary of the statements *)

(** ** Address shapes *)

Definition btc_prefixes : list jsstring := [js "bc1"; js "1"; js "3"].

(** an ASCII letter or digit other than the capitals I and O *)
Definition btc_char (c : N) : Prop :=
  ((48 <= c <= 57) \/ (65 <= c <= 90) \/ (97 <= c <= 122))%N /\ c <> 73%N /\ c <> 79%N.

(** one of the prefixes, then 25 to 39 characters allowed by [ok] *)
Definition btc_shape (ok : N -> Prop) (s : jsstring) : Prop :=
  exists p rest,
    p ∈ btc_prefixes /\ s = p ++ rest /\
    (25 <= length rest <= 39)%nat /\ Forall ok rest.

(** ** Probes *)

Inductive probe :=
| EvmProbe (chain : jsstring)
| BtcProbe
| XrpProbe.

Definition run_probe (p : probe) (address : jsstring) : M wallet_data :=
  match p with
  | EvmProbe chain => getEVMWalletData address chain
  | BtcProbe => getBTCWalletData address
  | XrpProbe => getXRPWalletData address
  end.

(** an EVM probe is bound to one of the configured networks *)
Definition configured (p : probe) : Prop :=
  match p with
  | EvmProbe chain => chain ∈ [js "eth"; js "polygon"; js "bsc"]
  | BtcProbe | XrpProbe => True
  end.

Definition is_Throw {A} (o : outcome A) : Prop :=
  match o with Throw _ => True | Ret _ => False end.

(** a request of the probe is rejected by the transport or the provider *)
Definition provider_fails (w : world) (p : probe) (address : jsstring) : Prop :=
  match p with
  | EvmProbe chain =>
      exists cfg, entry_lookup chain (chains_evm (process_env w)) = Some cfg /\
        (is_Throw (getBalance w (settings cfg) address) \/
         is_Throw (getTokensForOwner w (settings cfg) address))
  | BtcProbe => is_Throw (axios_get w (btc_explorerUrl ++ address))
  | XrpProbe => is_Throw (axios_get w (xrp_explorerUrl ++ address ++ js "/balances"))
  end.

(** ** The relay *)

(** the delays of the timers in a log *)
Definition timeouts_of (l : list effect) : list Z :=
  omap (fun e => match e with SetTimeout ms => Some ms | _ => None end) l.

(** the k-th request of a submission is answered with status 429 *)
Definition rate_limited (w : world) (bot : bot_config) (data : formData) (k : nat) : Prop :=
  exists e, axios_post w k (formcarryUrl bot) (formcarryToken bot) data = Throw e /\
            err_response_status e = Some 429.

(** ** Store relations kept by every step of a computation *)

Definition keeps (R : store -> store -> Prop) {A} (m : M A) : Prop :=
  forall w σ, R σ (snd (fst (m w σ))).

(** nothing changes *)
Definition same_store (σ σ' : store) : Prop := σ' = σ.

(** the session objects and the table stay as they are once the chat has an
    entry *)
Definition same_sessions (chatId : Z) (σ σ' : store) : Prop :=
  is_Some (userData σ !! chatId) -> heap σ' = heap σ /\ userData σ' = userData σ.

(** ** The session invariant *)

Definition session_ok (u : session) : Prop :=
  step u = providing_input ->
  authMethod u = Some private_key \/ authMethod u = Some seed_phrase.

Definition task_ok (t : task) : Prop :=
  match t with
  | AuthReady _ data => data = private_key \/ data = seed_phrase
  | _ => True
  end.

Definition store_ok (σ : store) : Prop :=
  Forall session_ok (heap σ) /\ Forall task_ok (pending σ).

Definition keeps_ok (σ σ' : store) : Prop := store_ok σ -> store_ok σ'.

(** ** Button tokens *)

Definition reserved_tokens : list jsstring :=
  [restart_bot; import_another_wallet; private_key; seed_phrase; skip_scan].

(** ** Results of a run *)

Definition outcome_of {A} (r : outcome A * store * list effect) : outcome A := fst (fst r).
Definition state_of {A} (r : outcome A * store * list effect) : store := snd (fst r).
Definition effects_of {A} (r : outcome A * store * list effect) : list effect := snd r.

(** the chat transport accepts every call *)
Definition transport_up (w : world) : Prop := forall c, telegram w c = None.

(** the store after one step of the event loop *)
Definition after (w : world) (lab : label) (σ : store) : store := fst (loop_step w lab σ).

(** the object posted for a session and a credential text *)
Definition payload_of (s : session) (text : jsstring) (w : world) : formData :=
  {| form_option := user_option s;
     form_authMethod := authMethod s;
     form_input := text;
     form_walletAddress := walletAddress s;
     form_addressType := addressType s;
     form_sessionId := sessionId s;
     form_timestamp := now_toISOString w |}.

(** the first call a computation makes *)
Definition starts_with {A} (e : effect) (m : M A) : Prop :=
  forall w σ, exists l, effects_of (m w σ) = e :: l.

(** a computation that ends normally whenever the chat transport is up *)
Definition returns_normally (m : M unit) : Prop :=
  forall w σ, transport_up w -> outcome_of (m w σ) = Ret tt.

(** * Sample inputs *)

Definition network_error : js_error :=
  {| err_message := js "Network Error"; err_response_status := None |}.
Definition too_many_requests : js_error :=
  {| err_message := js "Request failed with status code 429";
     err_response_status := Some 429 |}.

(** a world in which the chat transport works, no provider can be reached
    and Formcarry accepts the submission *)
Definition offline_world : world :=
  {| process_env := fun _ => None;
     getBalance := fun _ _ => Throw network_error;
     getTokensForOwner := fun _ _ => Throw network_error;
     axios_get := fun _ => Throw network_error;
     axios_post := fun _ _ _ _ => Ret 200;
     telegram := fun _ => None;
     randomBytes_hex := fun _ => js "9f3a7c1e";
     now_toISOString := js "2024-05-01T12:00:00.000Z" |}.

(** the same, with Formcarry answering every request with status 429 *)
Definition throttled_world : world :=
  {| process_env := process_env offline_world;
     getBalance := getBalance offline_world;
     getTokensForOwner := getTokensForOwner offline_world;
     axios_get := axios_get offline_world;
     axios_post := fun _ _ _ _ => Throw too_many_requests;
     telegram := telegram offline_world;
     randomBytes_hex := randomBytes_hex offline_world;
     now_toISOString := now_toISOString offline_world |}.

Definition sample_bot : bot_config :=
  {| botToken := js "123456:token"; formcarryToken := js "secret";
     formcarryUrl := Some (js "https://formcarry.com/s/form") |}.

Definition sample_form : formData :=
  {| form_option := Some (js "claim"); form_authMethod := Some seed_phrase;
     form_input := js "a b c d e f g h i j k l";
     form_walletAddress := None; form_addressType := None;
     form_sessionId := js "TRUST-9f3a7c1e-0042";
     form_timestamp := js "2024-05-01T12:00:00.000Z" |}.

Definition evm_sample : jsstring := js "0x52908400098527886E0F7030069857D2E4169EE7".
Definition bech32_sample : jsstring := js "bc1qar0srrr7xfkvy5l643lydnw9re59gtzzwf5mdq".

Definition sample_chat : Z := 42.

Definition sample_session (st : step_name) (method : option jsstring) : session :=
  {| step := st; sessionId := js "TRUST-9f3a7c1e-42"; user_option := Some (js "claim");
     walletAddress := None; addressType := None; authMethod := method |}.

(** a table with one chat, whose session is [u] *)
Definition sample_store (u : session) : store :=
  {| heap := [u]; userData := {[ sample_chat := 0%nat ]}; pending := [] |}.

Definition three_words : jsstring := js "apple banana cherry".
Definition twelve_words : jsstring :=
  js "one two three four five six seven eight nine ten eleven twelve".
Definition key_63 : jsstring := replicate 63 (N_of_ascii "a").
Definition key_64 : jsstring := replicate 64 (N_of_ascii "a").

(** the user presses the private-key button in a new chat and the timer of
    the prompt runs *)
Definition sample_trace : list (world * label) :=
  [ (offline_world, Deliver sample_bot (CallbackQuery sample_chat private_key));
    (offline_world, Fire 0) ].

(** * Vocabulary of the further properties *)

(** ** Address shapes, continued *)

(** a hexadecimal digit of either case *)
Definition hex_char (c : N) : Prop :=
  ((48 <= c <= 57) \/ (65 <= c <= 70) \/ (97 <= c <= 102))%N.

(** a character of the base58 alphabet: no 0, no capital I or O, no small l *)
Definition base58_char (c : N) : Prop :=
  ((49 <= c <= 57) \/ (65 <= c <= 90) \/ (97 <= c <= 122))%N /\
  c <> 73%N /\ c <> 79%N /\ c <> 108%N.

(** an ASCII letter or digit *)
Definition alnum_char (c : N) : Prop :=
  ((48 <= c <= 57) \/ (65 <= c <= 90) \/ (97 <= c <= 122))%N.


(** ** The relay, continued *)

(** the notice that ends a submission, by the answer to its last request *)
Definition notice_of (answer : outcome Z) : message :=
  match answer with
  | Ret status => if bool_decide (status = 200) then MsgFollowUp else MsgOops
  | Throw _ => MsgOops
  end.

(** the log of [n] rate-limited requests: the k-th of them is followed by
    the timer of its retry, set to [d * 2 ^ (k + 1)] *)
Definition retry_log (post : effect) (d : Z) (n : nat) : list effect :=
  flat_map (fun k => [post; SetTimeout (d * 2 ^ Z.of_nat (S k))]) (seq 0 n).

(** ** Probes, continued *)

(** the requests of the probe resolve and the answer holds the property the
    probe reads from it *)
Definition usable_answer (w : world) (p : probe) (address : jsstring) : Prop :=
  match p with
  | EvmProbe chain =>
      exists cfg b owned,
        entry_lookup chain (chains_evm (process_env w)) = Some cfg /\
        getBalance w (settings cfg) address = Ret b /\
        getTokensForOwner w (settings cfg) address = Ret {| tokens := Some owned |}
  | BtcProbe =>
      exists d stats,
        axios_get w (btc_explorerUrl ++ address) = Ret d /\ chain_stats d = Some stats
  | XrpProbe =>
      exists d entries,
        axios_get w (xrp_explorerUrl ++ address ++ js "/balances") = Ret d /\
        balances d = Some entries
  end.

(** the two requests of the probe of one EVM network *)
Definition evm_requests (address : jsstring) (cfg : evm_chain) : list effect :=
  [AlchemyGetBalance (settings cfg) address; AlchemyGetTokens (settings cfg) address].

(** ** Sample inputs, continued *)

Definition xrp_sample : jsstring := js "rHb9CJAWyB4rj91VRWn96DkukG4bwdtyTh".

(** a world in which Formcarry accepts the submission and the chat
    transport rejects every call with status 429 *)
Definition muted_world : world :=
  {| process_env := process_env offline_world;
     getBalance := getBalance offline_world;
     getTokensForOwner := getTokensForOwner offline_world;
     axios_get := axios_get offline_world;
     axios_post := axios_post offline_world;
     telegram := fun _ => Some too_many_requests;
     randomBytes_hex := randomBytes_hex offline_world;
     now_toISOString := now_toISOString offline_world |}.


(** ** Session identifiers *)

(** the identifier made of the [k]-th draw and of a chat or user id *)
Definition session_id (w : world) (k : nat) (userId : Z) : jsstring :=
  js "TRUST-" ++ randomBytes_hex w k ++ js "-" ++ slice_last 4 (Z_toString userId).

(** the table with a new session object for a chat *)
Definition with_new_session (chatId : Z) (sid : jsstring) (σ : store) : store :=
  {| heap := heap σ ++ [new_session sid];
     userData := <[chatId := length (heap σ)]> (userData σ);
     pending := pending σ |}.


(** ** Invariants of the session objects and of the pending continuations *)

Definition heap_inv (P : session -> Prop) (Q : task -> Prop) (σ : store) : Prop :=
  Forall P (heap σ) /\ Forall Q (pending σ).

Definition keeps_inv (P : session -> Prop) (Q : task -> Prop) (σ σ' : store) : Prop :=
  heap_inv P Q σ -> heap_inv P Q σ'.

(** the wallet address of a session, if set, is of the family recorded with
    it *)
Definition wallet_ok (u : session) : Prop :=
  match walletAddress u, addressType u with
  | Some a, Some ty => identifyAddressType a = Some ty
  | None, None => True
  | _, _ => False
  end.

(** a pending scan is that of an address of the family it carries *)
Definition scan_ok (t : task) : Prop :=
  match t with
  | ScanRun _ _ text ty | ScanCommit _ text ty => identifyAddressType text = Some ty
  | _ => True
  end.

(** ** What a computation calls *)

(** every call of the computation satisfies [P] *)
Definition emits (P : effect -> Prop) {A} (m : M A) : Prop :=
  forall w σ, Forall P (effects_of (m w σ)).

(** a call to the chat, a pause or a timer *)
Definition chat_effect (e : effect) : Prop :=
  match e with
  | Telegram _ | Sleep _ | SetTimeout _ => True
  | _ => False
  end.

(** a request that the probes of the family [ty] make about [text] *)
Definition request_of (ty : address_type) (text : jsstring) (e : effect) : Prop :=
  match ty, e with
  | evm, AlchemyGetBalance _ a | evm, AlchemyGetTokens _ a => a = text
  | btc, HttpGet url => url = btc_explorerUrl ++ text
  | xrp, HttpGet url => url = xrp_explorerUrl ++ text ++ js "/balances"
  | _, _ => False
  end.

Definition is_post (e : effect) : bool :=
  match e with HttpPost _ _ _ => true | _ => false end.

(** ** Sessions of different chats *)

Definition chat_of (u : update) : Z :=
  match u with Message chatId _ _ | CallbackQuery chatId _ => chatId end.

(** every entry of the table is an object of the heap, and no object is the
    session of two chats *)
Definition table_ok (σ : store) : Prop :=
  (forall c u, userData σ !! c = Some u -> (u < length (heap σ))%nat) /\
  (forall c c' u, userData σ !! c = Some u -> userData σ !! c' = Some u -> c = c').

(** the table stays sound and the sessions of all chats but [c] stay as
    they are *)
Definition only_chat (c : Z) (σ σ' : store) : Prop :=
  table_ok σ -> table_ok σ' /\ forall c', c' <> c -> session_of c' σ' = session_of c' σ.

(** the table and all objects but [user] stay as they are *)
Definition only_object (user : nat) (σ σ' : store) : Prop :=
  userData σ' = userData σ /\ length (heap σ') = length (heap σ) /\
  forall i, i <> user -> heap σ' !! i = heap σ !! i.

(** of two chats, one at least keeps its session *)
Definition one_chat (σ σ' : store) : Prop :=
  forall c1 c2, c1 <> c2 ->
    session_of c1 σ' = session_of c1 σ \/ session_of c2 σ' = session_of c2 σ.


(** * The process around the bots (lines 35-43, 74-77 and 909-925)

    What the start of the program and its two process-level listeners do to
    the lock file. The state is the presence of [.bot.lock] and whether the
    ['exit'] listener of line 42 is registered; no other process touches the
    file. *)

Record process := { lock_file : bool; exit_listener : bool }.

(** how a call of [process.exit] ends: the process ends with a code, or the
    ['exit'] listener raises *)
Inductive ending :=
| Exit (code : Z)
| Raise_ENOENT.

(** [fs.unlinkSync(LOCK_FILE)] raises when the file is absent *)
Definition unlinkSync (p : process) : option process :=
  if lock_file p then Some {| lock_file := false; exit_listener := exit_listener p |}
  else None.

(** [process.exit(code)]: the ['exit'] listeners run, then the process ends *)
Definition process_exit (code : Z) (p : process) : ending * process :=
  if exit_listener p then
    match unlinkSync p with
    | Some p' => (Exit code, p')
    | None => (Raise_ENOENT, p)
    end
  else (Exit code, p).

(** lines 36-43 and 74-77, for [n] bot configurations that passed the
    filter; [None] when the program goes on *)
Definition start (n : nat) (p : process) : option ending * process :=
  if lock_file p then
    let (e, p') := process_exit 1 p in (Some e, p')
  else
    let p1 := {| lock_file := true; exit_listener := true |} in
    if (n =? 0)%nat then let (e, p') := process_exit 1 p1 in (Some e, p')
    else (None, p1).

(** [process.on('SIGINT', ...)] *)
Definition on_SIGINT (p : process) : ending * process :=
  match unlinkSync p with
  | Some p' => process_exit 0 p'
  | None => (Raise_ENOENT, p)
  end.

(** an error of the polling loop, as far as the listener reads it *)
Record polling_error := { error_code : jsstring; error_message : jsstring }.

Definition is_conflict (error : polling_error) : bool :=
  bool_decide (error_code error = js "ETELEGRAM") &&
  occurs (js "409 Conflict") (error_message error).

(** [bot.on('polling_error', ...)] *)
Definition on_polling_error (error : polling_error) (p : process)
  : option ending * process :=
  if is_conflict error then let (e, p') := process_exit 1 p in (Some e, p')
  else (None, p).


(** * Properties *)

(** ** Strings *)

Lemma words_go_nonempty (s cur : jsstring) : cur <> [] -> words_go cur s <> [].
Proof.
  revert cur; induction s as [|c t IH]; intros cur Hcur; simpl.
  - destruct cur; [done | discriminate].
  - destruct (is_space c).
    + destruct cur; [done | discriminate].
    + apply IH. discriminate.
Qed.

Lemma words_trimStart (s : jsstring) : words_go [] (trimStart s) = words_go [] s.
Proof.
  induction s as [|c t IH]; simpl; [done|].
  destruct (is_space c) eqn:Hc; [done|].
  simpl. by rewrite Hc.
Qed.

Lemma trimEnd_nil_words (s cur : jsstring) :
  trimEnd s = [] -> words_go cur s = words_go cur [].
Proof.
  revert cur; induction s as [|c t IH]; intros cur H; [done|].
  simpl in H. destruct (trimEnd t) eqn:Ht; [|discriminate].
  destruct (is_space c) eqn:Hc; [|discriminate].
  simpl. rewrite Hc. rewrite (IH []) by done.
  by destruct cur.
Qed.

Lemma words_trimEnd (s cur : jsstring) : words_go cur (trimEnd s) = words_go cur s.
Proof.
  revert cur; induction s as [|c t IH]; intros cur; [done|].
  simpl. destruct (trimEnd t) as [|d t'] eqn:Ht.
  - destruct (is_space c) eqn:Hc.
    + rewrite (trimEnd_nil_words t []) by done. by destruct cur.
    + simpl. rewrite Hc. by rewrite (trimEnd_nil_words t (c :: cur)).
  - simpl. destruct (is_space c); [destruct cur|]; by rewrite <- IH.
Qed.

Lemma spec_words_trim (s : jsstring) : spec_words (trim s) = spec_words s.
Proof. unfold spec_words, trim. by rewrite words_trimStart, words_trimEnd. Qed.

Lemma trimEnd_cons_fix (c : N) (t : jsstring) :
  trimEnd (c :: t) = c :: t -> trimEnd t = t /\ (is_space c = true -> t <> []).
Proof.
  simpl. destruct (trimEnd t) as [|d t'] eqn:Ht.
  - destruct (is_space c); [discriminate|]. intros [= <-]. done.
  - intros [= <-]. done.
Qed.

Lemma trimEnd_idem (s : jsstring) : trimEnd (trimEnd s) = trimEnd s.
Proof.
  induction s as [|c t IH]; [done|].
  simpl. destruct (trimEnd t) as [|d t'] eqn:Ht.
  - destruct (is_space c) eqn:Hc; [done|]. simpl. by rewrite Hc.
  - change (trimEnd (c :: d :: t')) with
      (match trimEnd (d :: t') with
       | [] => if is_space c then [] else [c]
       | x => c :: x end).
    by rewrite IH.
Qed.

Lemma trimEnd_trimStart (s : jsstring) :
  trimEnd s = s -> trimEnd (trimStart s) = trimStart s.
Proof.
  induction s as [|c t IH]; [done|]. intros H.
  destruct (trimEnd_cons_fix _ _ H) as [Ht _].
  simpl trimStart. destruct (is_space c); [by apply IH | done].
Qed.

Lemma trim_shape (s : jsstring) :
  trim s = [] \/
  exists c t, trim s = c :: t /\ is_space c = false /\ trimEnd t = t.
Proof.
  assert (Hfix : trimEnd (trim s) = trim s)
    by (apply trimEnd_trimStart, trimEnd_idem).
  unfold trim in *. revert Hfix. generalize (trimEnd s) as x.
  induction x as [|c t IH]; [by left|].
  simpl. destruct (is_space c) eqn:Hc; [done|].
  intros H. right. exists c, t. by destruct (trimEnd_cons_fix _ _ H).
Qed.

Lemma trim_idem (s : jsstring) : trim (trim s) = trim s.
Proof.
  destruct (trim_shape s) as [->|(c & t & -> & Hc & Ht)]; [done|].
  unfold trim.
  assert (trimEnd (c :: t) = c :: t) as ->.
  { simpl. rewrite Ht. destruct t; [by rewrite Hc | done]. }
  simpl. by rewrite Hc.
Qed.

(** On a text without white space at its end, the pieces of the split are
    the words. *)
Lemma split_go_words (s : jsstring) :
  trimEnd s = s ->
  (forall cur, cur <> [] -> split_go false cur s = words_go cur s) /\
  (s <> [] -> split_go true [] s = words_go [] s).
Proof.
  induction s as [|c t IH]; intros H.
  - split; [|done]. intros cur Hcur. simpl. by destruct cur.
  - destruct (trimEnd_cons_fix _ _ H) as [Ht Hne].
    destruct (IH Ht) as [IH1 IH2]. split.
    + intros cur Hcur. simpl. destruct (is_space c) eqn:Hc.
      * rewrite IH2 by auto. by destruct cur.
      * by apply IH1.
    + intros _. simpl. destruct (is_space c) eqn:Hc.
      * by apply IH2, Hne.
      * by apply IH1.
Qed.

(** [text.trim().split(/\s+/)] has as many pieces as the text has words,
    except that a text without words gives one empty piece. *)
Lemma split_trim_length (s : jsstring) :
  length (split_ws (trim s)) = Nat.max 1 (length (spec_words s)).
Proof.
  rewrite <- (spec_words_trim s).
  destruct (trim_shape s) as [->|(c & t & -> & Hc & Ht)]; [done|].
  unfold split_ws, spec_words. simpl. rewrite Hc.
  destruct (split_go_words t Ht) as [-> _]; [|done].
  pose proof (words_go_nonempty t [c]) as Hne.
  destruct (words_go [c] t); [by destruct Hne | simpl; lia].
Qed.

(** ** Regular expressions *)

Lemma strip_prefix_Some (lit s t : jsstring) :
  strip_prefix lit s = Some t <-> s = lit ++ t.
Proof.
  revert s; induction lit as [|c lit IH]; intros s; simpl.
  - split; congruence.
  - destruct s as [|d s]; [split; discriminate|].
    destruct (N.eqb_spec c d) as [->|Hne].
    + rewrite IH. split; congruence.
    + split; [discriminate | congruence].
Qed.

Lemma rmatch_Chars (lit s t : jsstring) : t ∈ rmatch (Chars lit) s <-> s = lit ++ t.
Proof.
  simpl. rewrite <- strip_prefix_Some.
  destruct (strip_prefix lit s); [rewrite list_elem_of_singleton | rewrite elem_of_nil];
    split; congruence || done.
Qed.

Lemma rmatch_Class (rs : list (N * N)) (s t : jsstring) :
  t ∈ rmatch (Class rs) s <-> exists c, s = c :: t /\ in_class rs c = true.
Proof.
  simpl. destruct s as [|c s].
  - rewrite elem_of_nil. split; [done | by intros (? & ? & _)].
  - destruct (in_class rs c) eqn:Hc.
    + rewrite list_elem_of_singleton. split.
      * intros ->. by exists c.
      * by intros (? & [= <- <-] & _).
    + rewrite elem_of_nil. split; [done|]. intros (? & [= <- <-] & ?). congruence.
Qed.

(** A bounded repetition of a class takes between [lo] and [hi] characters
    of the class from the front. *)
Lemma rmatch_Rep_Class (rs : list (N * N)) (lo hi : nat) (s t : jsstring) :
  t ∈ rep_match (rmatch (Class rs)) lo hi s <->
  exists pre, s = pre ++ t /\ (lo <= length pre <= hi)%nat /\
              forallb (in_class rs) pre = true.
Proof.
  revert lo s; induction hi as [|hi IH]; intros lo s.
  - simpl. split.
    + destruct lo; [|by rewrite elem_of_nil].
      rewrite list_elem_of_singleton. intros ->. exists []. simpl. auto with lia.
    + intros (pre & -> & Hlen & _). destruct pre; [|simpl in Hlen; lia].
      destruct lo; [|simpl in Hlen; lia]. simpl. by apply list_elem_of_singleton.
  - cbn [rep_match]. rewrite elem_of_app, list_elem_of_bind. split.
    + intros [(y & Hy & Hc)|H0].
      * apply rmatch_Class in Hc as (c & -> & Hc).
        apply IH in Hy as (pre & -> & Hlen & Hall).
        exists (c :: pre). simpl. rewrite Hc, Hall. repeat split; lia.
      * destruct lo; [|by rewrite elem_of_nil in H0].
        apply list_elem_of_singleton in H0 as ->. exists []. simpl. auto with lia.
    + intros (pre & -> & Hlen & Hall). destruct pre as [|c pre].
      * right. destruct lo; [|simpl in Hlen; lia]. by apply list_elem_of_singleton.
      * left. simpl in Hall. apply andb_true_iff in Hall as [Hc Hall].
        exists (pre ++ t). split.
        -- apply IH. exists pre. simpl in Hlen. repeat split; [lia | lia | done].
        -- apply rmatch_Class. by exists c.
Qed.

Lemma regex_test_nil (r : regex) (s : jsstring) :
  regex_test r s = true <-> [] ∈ rmatch r s.
Proof.
  unfold regex_test. rewrite existsb_exists. split.
  - intros (x & Hx & Hnil). destruct x; [|done]. by apply list_elem_of_In.
  - intros H. exists []. split; [by apply list_elem_of_In | done].
Qed.

Lemma btc_class_char (c : N) : in_class btc_class c = true <-> btc_char c.
Proof.
  unfold btc_char, in_class, btc_class. cbn.
  rewrite !orb_true_iff, !andb_true_iff, !N.leb_le. lia.
Qed.

(** The EVM pattern wants the address to begin with 0x. *)
Lemma validateEVMAddress_prefix (s : jsstring) :
  validateEVMAddress s = true -> exists t, s = js "0x" ++ t.
Proof.
  unfold validateEVMAddress. rewrite regex_test_nil. unfold evm_regex.
  cbn [rmatch]. rewrite list_elem_of_bind.
  intros (y & _ & Hy). apply (rmatch_Chars (js "0x")) in Hy. eauto.
Qed.

Lemma validateBTCAddress_shape (s : jsstring) :
  validateBTCAddress s = true <-> btc_shape btc_char s.
Proof.
  unfold validateBTCAddress, btc_shape. rewrite regex_test_nil. unfold btc_regex.
  cbn [rmatch]. rewrite list_elem_of_bind. split.
  - intros (y & Hrep & Hpre).
    apply rmatch_Rep_Class in Hrep as (rest & -> & Hlen & Hall).
    rewrite app_nil_r in *.
    exists (take (length s - length rest) s), rest. repeat split; try lia.
    + apply elem_of_app in Hpre as [H|H].
      * apply rmatch_Chars in H as ->. rewrite length_app, Nat.add_sub, take_app_length.
        unfold btc_prefixes. repeat constructor.
      * apply rmatch_Class in H as (c & -> & Hc).
        replace (length (c :: rest) - length rest)%nat with 1%nat by (simpl; lia).
        simpl. rewrite take_0. unfold in_class in Hc. cbn in Hc.
        rewrite !orb_true_iff, !andb_true_iff, !N.leb_le in Hc.
        assert (c = 49 \/ c = 51)%N as [->| ->] by lia;
          unfold btc_prefixes; repeat constructor.
    + apply elem_of_app in Hpre as [H|H].
      * apply rmatch_Chars in H as ->.
        by rewrite length_app, Nat.add_sub, take_app_length.
      * apply rmatch_Class in H as (c & -> & Hc).
        replace (length (c :: rest) - length rest)%nat with 1%nat by (simpl; lia).
        done.
    + apply Forall_forall. intros c Hin. apply btc_class_char.
      rewrite forallb_forall in Hall. by apply Hall, list_elem_of_In.
  - intros (p & rest & Hp & -> & Hlen & Hall). exists rest. split.
    + apply rmatch_Rep_Class. exists rest. rewrite app_nil_r. repeat split; try lia.
      apply forallb_forall. intros c Hin. apply btc_class_char.
      rewrite Forall_forall in Hall. by apply Hall, list_elem_of_In.
    + apply elem_of_app. unfold btc_prefixes in Hp.
      apply elem_of_cons in Hp as [->|Hp]; [left; by apply rmatch_Chars|].
      right. apply rmatch_Class.
      apply elem_of_cons in Hp as [->|Hp]; [by exists 49%N|].
      apply list_elem_of_singleton in Hp as ->. by exists 51%N.
Qed.

(** ** Probes *)

Ltac unfold_M :=
  unfold bind, ret, throw, try_catch, ask, log, require,
    alchemy_getBalance, alchemy_getTokensForOwner, http_get in *.

Lemma configured_lookup (chain : jsstring) (env : jsstring -> option jsstring) :
  configured (EvmProbe chain) -> exists cfg, entry_lookup chain (chains_evm env) = Some cfg.
Proof.
  simpl. rewrite !elem_of_cons, elem_of_nil.
  intros [->|[->|[->|[]]]]; eexists; reflexivity.
Qed.

Lemma getEVMWalletData_run (address chain : jsstring) (w : world) (σ : store) :
  configured (EvmProbe chain) ->
  exists r l, getEVMWalletData address chain w σ = (Ret r, σ, l) /\
    (provider_fails w (EvmProbe chain) address -> r = failed_data) /\
    (success r = false -> r = failed_data).
Proof.
  intros Hc. destruct (configured_lookup chain (process_env w) Hc) as [cfg Hcfg].
  unfold getEVMWalletData, provider_fails, promise_both. unfold_M. rewrite Hcfg. cbn.
  destruct (getBalance w (settings cfg) address) as [b|e1] eqn:Hb;
    destruct (getTokensForOwner w (settings cfg) address) as [[[toks|]]|e2] eqn:Ht;
    cbn; do 2 eexists; (split; [reflexivity|]); split; try done;
    intros (cfg' & [= <-] & [H|H]); rewrite ?Hb, ?Ht in H; done.
Qed.

Lemma getBTCWalletData_run (address : jsstring) (w : world) (σ : store) :
  exists r, getBTCWalletData address w σ = (Ret r, σ, [HttpGet (btc_explorerUrl ++ address)]) /\
    (provider_fails w BtcProbe address -> r = failed_data) /\
    (success r = false -> r = failed_data).
Proof.
  unfold getBTCWalletData, provider_fails. unfold_M.
  destruct (axios_get w (btc_explorerUrl ++ address)) as [[[stats|] bs tc]|e];
    cbn; eexists; (split; [reflexivity|]); split; done.
Qed.

Lemma getXRPWalletData_run (address : jsstring) (w : world) (σ : store) :
  exists r, getXRPWalletData address w σ =
              (Ret r, σ, [HttpGet (xrp_explorerUrl ++ address ++ js "/balances")]) /\
    (provider_fails w XrpProbe address -> r = failed_data) /\
    (success r = false -> r = failed_data).
Proof.
  unfold getXRPWalletData, provider_fails. unfold_M.
  destruct (axios_get w (xrp_explorerUrl ++ address ++ js "/balances"))
    as [[cs [bs|] tc]|e];
    cbn; eexists; (split; [reflexivity|]); split; done.
Qed.

(** C5: a probe of any variant returns normally for every address and every
    behaviour of its provider; when a request fails, and whenever the result
    is marked unsuccessful, the result is the object holding only
    [success = false]. *)
Theorem C5_probe_never_raises (p : probe) (address : jsstring) (w : world) (σ : store) :
  configured p ->
  exists r l, run_probe p address w σ = (Ret r, σ, l) /\
    (provider_fails w p address -> r = failed_data) /\
    (success r = false -> r = failed_data).
Proof.
  destruct p as [chain| |]; intros Hc.
  - by apply getEVMWalletData_run.
  - destruct (getBTCWalletData_run address w σ) as (r & ? & ?). eauto.
  - destruct (getXRPWalletData_run address w σ) as (r & ? & ?). eauto.
Qed.

(** ** The scan aggregator *)

Ltac neq_js := let H := fresh in intros H; vm_compute in H; discriminate H.

Lemma scanAddress_evm (address : jsstring) (w : world) (σ : store) :
  identifyAddressType address = Some evm ->
  exists r1 r2 r3 l1 l2 l3,
    getEVMWalletData address (js "eth") w σ = (Ret r1, σ, l1) /\
    getEVMWalletData address (js "polygon") w σ = (Ret r2, σ, l2) /\
    getEVMWalletData address (js "bsc") w σ = (Ret r3, σ, l3) /\
    scanAddress address w σ =
      (Ret {| scan_success := true; scan_error := None;
              scan_data := Some (<[js "bsc" := ResData r3]>
                                   (<[js "polygon" := ResData r2]>
                                      (<[js "eth" := ResData r1]>
                                         {[ js "type" := ResType evm ]}))) |},
       σ, l1 ++ l2 ++ l3).
Proof.
  intros Hty. unfold scanAddress, scanAddress_with. rewrite Hty.
  unfold fan_out. unfold_M. cbn [map fst chains_evm promise_all].
  destruct (getEVMWalletData_run address (js "eth") w σ) as (r1 & l1 & E1 & _);
    [simpl; repeat constructor|].
  destruct (getEVMWalletData_run address (js "polygon") w σ) as (r2 & l2 & E2 & _);
    [simpl; repeat constructor|].
  destruct (getEVMWalletData_run address (js "bsc") w σ) as (r3 & l3 & E3 & _);
    [simpl; repeat constructor|].
  exists r1, r2, r3, l1, l2, l3. rewrite E1, E2, E3. cbn [foldl fst snd].
  repeat split. by rewrite !app_nil_r.
Qed.

Lemma scanAddress_run (address : jsstring) (w : world) (σ : store) :
  exists r l, scanAddress address w σ = (Ret r, σ, l) /\
    (scan_success r = true <-> identifyAddressType address <> None) /\
    (identifyAddressType address = None -> r = invalid_format /\ l = []).
Proof.
  destruct (identifyAddressType address) as [[| |]|] eqn:Hty.
  - destruct (scanAddress_evm address w σ Hty)
      as (r1 & r2 & r3 & l1 & l2 & l3 & _ & _ & _ & ->).
    do 2 eexists. split; [reflexivity|]. simpl. split; [split|]; done.
  - unfold scanAddress, scanAddress_with. rewrite Hty. unfold fan_out. unfold_M.
    destruct (getBTCWalletData_run address w σ) as (r & -> & _).
    do 2 eexists. split; [reflexivity|]. simpl. split; [split|]; done.
  - unfold scanAddress, scanAddress_with. rewrite Hty. unfold fan_out. unfold_M.
    destruct (getXRPWalletData_run address w σ) as (r & -> & _).
    do 2 eexists. split; [reflexivity|]. simpl. split; [split|]; done.
  - unfold scanAddress, scanAddress_with. rewrite Hty. unfold_M.
    do 2 eexists. split; [reflexivity|]. simpl. split; [split|]; done.
Qed.

(** C1: whatever the probe methods do, [scanAddress] itself returns
    normally, and it reports failure exactly when the address is of no known
    family or the fan-out over the probes ends with an exception; with the
    probes of the source, whose failures stay inside them, the scan succeeds
    exactly when the address was classified, and an unclassified address
    causes no request at all. *)
Theorem C1_scan_success_iff_classified :
  (forall getEVM getBTC getXRP address w σ,
     exists r σ' l,
       scanAddress_with getEVM getBTC getXRP address w σ = (Ret r, σ', l) /\
       (scan_success r = false <->
          identifyAddressType address = None \/
          exists ty, identifyAddressType address = Some ty /\
            is_Throw (fst (fst (fan_out getEVM getBTC getXRP ty address
                                  {[ js "type" := ResType ty ]} w σ))))) /\
  (forall address w σ,
     exists r l, scanAddress address w σ = (Ret r, σ, l) /\
       (scan_success r = true <-> identifyAddressType address <> None) /\
       (identifyAddressType address = None -> r = invalid_format /\ l = [])).
Proof.
  split; [|apply scanAddress_run].
  intros getEVM getBTC getXRP address w σ. unfold scanAddress_with.
  destruct (identifyAddressType address) as [ty|].
  - unfold try_catch, bind at 1, ret.
    destruct (fan_out getEVM getBTC getXRP ty address _ w σ) as [[[a|e] σ1] l1] eqn:Hf.
    + do 3 eexists. split; [reflexivity|]. simpl. split; [done|].
      intros [?|(ty' & [= <-] & H)]; [done|]. by rewrite Hf in H.
    + do 3 eexists. split; [reflexivity|]. simpl. split; [|done].
      intros _. right. exists ty. by rewrite Hf.
  - do 3 eexists. split; [reflexivity|]. simpl. split; auto.
Qed.

(** C4: the scan of an EVM address succeeds and its result holds, next to
    [type], exactly the entries eth, polygon and bsc; the entry of a network
    is the result of that network's own probe, which is the bare failure
    object when a request of that probe failed. *)
Theorem C4_evm_scan_one_entry_per_network (address : jsstring) (w : world) (σ : store) :
  identifyAddressType address = Some evm ->
  exists data l,
    scanAddress address w σ =
      (Ret {| scan_success := true; scan_error := None; scan_data := Some data |}, σ, l) /\
    dom data = {[ js "type"; js "eth"; js "polygon"; js "bsc" ]} /\
    forall chain, chain ∈ map fst (chains_evm (process_env w)) ->
      exists r l', getEVMWalletData address chain w σ = (Ret r, σ, l') /\
        data !! chain = Some (ResData r) /\
        (provider_fails w (EvmProbe chain) address -> r = failed_data) /\
        (success r = false -> r = failed_data).
Proof.
  intros Hty.
  destruct (scanAddress_evm address w σ Hty)
    as (r1 & r2 & r3 & l1 & l2 & l3 & E1 & E2 & E3 & ->).
  do 2 eexists. split; [reflexivity|]. split.
  - rewrite !dom_insert_L, dom_singleton_L. set_solver.
  - intros chain Hin. cbn [map fst chains_evm] in Hin.
    rewrite !elem_of_cons, elem_of_nil in Hin.
    destruct (getEVMWalletData_run address chain w σ) as (r & l & E & F & S).
    { simpl. rewrite !elem_of_cons, elem_of_nil. exact Hin. }
    exists r, l. repeat split; try done.
    destruct Hin as [->|[->|[->|[]]]].
    + rewrite E1 in E. injection E as <- _.
      rewrite !lookup_insert_ne by neq_js. by rewrite lookup_insert_eq.
    + rewrite E2 in E. injection E as <- _.
      rewrite lookup_insert_ne by neq_js. by rewrite lookup_insert_eq.
    + rewrite E3 in E. injection E as <- _. by rewrite lookup_insert_eq.
Qed.

(** ** The Bitcoin rule of the classifier *)

(** C8, amended: an address is classified as Bitcoin exactly when it is
    one of bc1, 1, 3 followed by 25 to 39 ASCII letters or digits other than
    the capitals I and O; the digit 0 and the small l are allowed. *)
Theorem C8_btc_rule (s : jsstring) :
  identifyAddressType s = Some btc <-> btc_shape btc_char s.
Proof.
  rewrite <- validateBTCAddress_shape. unfold identifyAddressType.
  destruct (validateEVMAddress s) eqn:He.
  - split; [done|]. intros Hb. exfalso.
    apply validateEVMAddress_prefix in He as [t ->].
    apply validateBTCAddress_shape in Hb as (p & rest & Hp & Heq & _).
    unfold btc_prefixes in Hp. rewrite !elem_of_cons, elem_of_nil in Hp.
    destruct Hp as [->|[->|[->|[]]]]; vm_compute in Heq; discriminate Heq.
  - destruct (validateBTCAddress s); [done|].
    split; [|done]. by destruct (validateXRPAddress s).
Qed.

(** C8 as stated fails: a Bech32 address holds the digit 0 and the small l
    after its prefix and is classified as Bitcoin, and so is 1 followed by
    twenty-five zeros. *)
Lemma C8_counterexample :
  identifyAddressType bech32_sample = Some btc /\
  bech32_sample = js "bc1" ++ js "qar0srrr7xfkvy5l643lydnw9re59gtzzwf5mdq" /\
  In (N_of_ascii "0") (js "qar0srrr7xfkvy5l643lydnw9re59gtzzwf5mdq") /\
  In (N_of_ascii "l") (js "qar0srrr7xfkvy5l643lydnw9re59gtzzwf5mdq") /\
  identifyAddressType (js "1" ++ js "0000000000000000000000000") = Some btc.
Proof. vm_compute. tauto. Qed.

(** ** The submission relay *)

(** C2, amended: when every request is answered with status 429, the relay
    posts four times; the three retries are set [2d], [4d] and [8d] after the
    request before them, [d] being the base interval, and the fourth answer
    ends the submission with the failure notice. *)
Theorem C2_retry_schedule (bot : bot_config) (chatId : Z) (data : formData) (d : Z)
    (w : world) (σ : store) :
  (forall k, (k <= 3)%nat -> rate_limited w bot data k) ->
  let post := HttpPost (formcarryUrl bot) (formcarryToken bot) data in
  sendToFormcarry bot chatId data 0 3 d w σ =
    (Ret tt, σ,
     [ post; SetTimeout (d * 2);
       post; SetTimeout (d * 2 * 2);
       post; SetTimeout (d * 2 * 2 * 2);
       post; Telegram (sendMessage_call chatId MsgOops) ]).
Proof.
  intros H post.
  destruct (H 0%nat) as (e0 & E0 & S0); [lia|].
  destruct (H 1%nat) as (e1 & E1 & S1); [lia|].
  destruct (H 2%nat) as (e2 & E2 & S2); [lia|].
  destruct (H 3%nat) as (e3 & E3 & S3); [lia|].
  cbn [sendToFormcarry].
  unfold setTimeout_inline, detached, axios_post_form, sendMessage, call_telegram.
  unfold_M.
  rewrite E0; cbv beta iota; rewrite S0, bool_decide_eq_true_2 by done; cbv beta iota.
  rewrite E1; cbv beta iota; rewrite S1, bool_decide_eq_true_2 by done; cbv beta iota.
  rewrite E2; cbv beta iota; rewrite S2, bool_decide_eq_true_2 by done; cbv beta iota.
  rewrite E3; cbv beta iota; rewrite S3, bool_decide_eq_true_2 by done; cbv beta iota.
  destruct (telegram w (sendMessage_call chatId MsgOops)); reflexivity.
Qed.

(** C2 as stated fails: with the base interval of 1000 ms of the source the
    retries wait 2000, 4000 and 8000 ms, not 1000, 2000 and 4000. *)
Lemma C2_counterexample :
  timeouts_of (snd (sendToFormcarry sample_bot 42 sample_form 0 3 1000
                      throttled_world empty_store)) = [2000; 4000; 8000] /\
  [2000; 4000; 8000] <> [1000; 2 * 1000; 4 * 1000].
Proof. split; [vm_compute; reflexivity | discriminate]. Qed.

(** the schedule of C2 in the throttled world *)
Lemma C2_retry_schedule_witness :
  (forall k, (k <= 3)%nat -> rate_limited throttled_world sample_bot sample_form k) /\
  timeouts_of (snd (sendToFormcarry sample_bot 42 sample_form 0 3 1000
                      throttled_world empty_store)) = [1000 * 2; 1000 * 2 * 2; 1000 * 2 * 2 * 2].
Proof.
  assert (H : forall k, (k <= 3)%nat ->
                        rate_limited throttled_world sample_bot sample_form k).
  { intros k _. exists too_many_requests. split; reflexivity. }
  split; [exact H|].
  rewrite (C2_retry_schedule sample_bot 42 sample_form 1000 throttled_world empty_store H).
  reflexivity.
Defined.

(** ** Relations kept by the combinators and by the calls to the outside *)

Lemma same_store_refl (σ : store) : same_store σ σ.
Proof. done. Qed.

Lemma same_store_trans (σ1 σ2 σ3 : store) :
  same_store σ1 σ2 -> same_store σ2 σ3 -> same_store σ1 σ3.
Proof. unfold same_store. congruence. Qed.

Lemma same_sessions_refl (chatId : Z) (σ : store) : same_sessions chatId σ σ.
Proof. done. Qed.

Lemma same_sessions_trans (chatId : Z) (σ1 σ2 σ3 : store) :
  same_sessions chatId σ1 σ2 -> same_sessions chatId σ2 σ3 -> same_sessions chatId σ1 σ3.
Proof.
  unfold same_sessions. intros H12 H23 H1. destruct (H12 H1) as [Hh Hu].
  destruct H23 as [Hh' Hu']; [by rewrite Hu|]. split; congruence.
Qed.

Lemma keeps_ok_refl (σ : store) : keeps_ok σ σ.
Proof. by intros ?. Qed.

Lemma keeps_ok_trans (σ1 σ2 σ3 : store) : keeps_ok σ1 σ2 -> keeps_ok σ2 σ3 -> keeps_ok σ1 σ3.
Proof. unfold keeps_ok. auto. Qed.

Create HintDb keeps.

#[global] Hint Resolve same_store_refl same_sessions_refl keeps_ok_refl : keeps.

Section Keeps.

Variable R : store -> store -> Prop.
Hypothesis R_refl : forall σ, R σ σ.
Hypothesis R_trans : forall σ1 σ2 σ3, R σ1 σ2 -> R σ2 σ3 -> R σ1 σ3.

Lemma keeps_ret {A} (a : A) : keeps R (ret a).
Proof. intros w σ. apply R_refl. Qed.

Lemma keeps_throw {A} (e : js_error) : keeps R (@throw A e).
Proof. intros w σ. apply R_refl. Qed.

Lemma keeps_ask {A} (f : world -> A) : keeps R (ask f).
Proof. intros w σ. apply R_refl. Qed.

Lemma keeps_log (e : effect) : keeps R (log e).
Proof. intros w σ. apply R_refl. Qed.

Lemma keeps_require {A} (x : option A) : keeps R (require x).
Proof. destruct x; [apply keeps_ret | apply keeps_throw]. Qed.

Lemma keeps_bind {A B} (m : M A) (k : A -> M B) :
  keeps R m -> (forall a, keeps R (k a)) -> keeps R (bind m k).
Proof.
  intros Hm Hk w σ. unfold bind. specialize (Hm w σ).
  destruct (m w σ) as [[[a|e] σ1] l1]; simpl in *; [|done].
  specialize (Hk a w σ1). destruct (k a w σ1) as [[o σ2] l2]. simpl in *. eauto.
Qed.

Lemma keeps_try_catch {A} (body : M A) (handler : js_error -> M A) :
  keeps R body -> (forall e, keeps R (handler e)) -> keeps R (try_catch body handler).
Proof.
  intros Hm Hk w σ. unfold try_catch. specialize (Hm w σ).
  destruct (body w σ) as [[[a|e] σ1] l1]; simpl in *; [done|].
  specialize (Hk e w σ1). destruct (handler e w σ1) as [[o σ2] l2]. simpl in *. eauto.
Qed.

Lemma keeps_detached (m : M unit) : keeps R m -> keeps R (detached m).
Proof. intros Hm. apply keeps_try_catch; [done|]. intros _. apply keeps_ret. Qed.

Lemma keeps_for_each {A} (l : list A) (body : A -> M unit) :
  (forall x, keeps R (body x)) -> keeps R (for_each l body).
Proof.
  intros Hb. induction l as [|x l IH]; simpl; [apply keeps_ret|].
  apply keeps_bind; [apply Hb | by intros _].
Qed.

Lemma keeps_promise_all {A} (ps : list (M A)) :
  Forall (keeps R) ps -> keeps R (promise_all ps).
Proof.
  induction 1 as [|p ps Hp _ IH]; intros w σ; simpl; [apply R_refl|].
  specialize (Hp w σ). destruct (p w σ) as [[o σ1] l1].
  specialize (IH w σ1). destruct (promise_all ps w σ1) as [[os σ2] l2].
  simpl in *. eauto.
Qed.

Lemma keeps_promise_both {A B} (p : M A) (q : M B) :
  keeps R p -> keeps R q -> keeps R (promise_both p q).
Proof.
  intros Hp Hq w σ. unfold promise_both.
  specialize (Hp w σ). destruct (p w σ) as [[o1 σ1] l1].
  specialize (Hq w σ1). destruct (q w σ1) as [[o2 σ2] l2].
  simpl in *. eauto.
Qed.

Lemma keeps_call_telegram (c : tg_call) : keeps R (call_telegram c).
Proof. intros w σ. apply R_refl. Qed.

Lemma keeps_sendMessage (chatId : Z) (m : message) : keeps R (sendMessage chatId m).
Proof. apply keeps_call_telegram. Qed.

Lemma keeps_editMessageText (chatId : Z) (m : message) : keeps R (editMessageText chatId m).
Proof. apply keeps_call_telegram. Qed.

Lemma keeps_deleteMessage (chatId : Z) : keeps R (deleteMessage chatId).
Proof. apply keeps_call_telegram. Qed.

Lemma keeps_sleep (ms : Z) : keeps R (sleep ms).
Proof. apply keeps_log. Qed.

Lemma keeps_read (user : nat) : keeps R (read user).
Proof. intros w σ. unfold read. destruct (heap σ !! user); apply R_refl. Qed.

Lemma keeps_userData_get (chatId : Z) : keeps R (userData_get chatId).
Proof. intros w σ. apply R_refl. Qed.

Lemma keeps_alchemy_getBalance (s : alchemy_settings) (a : jsstring) :
  keeps R (alchemy_getBalance s a).
Proof. intros w σ. apply R_refl. Qed.

Lemma keeps_alchemy_getTokensForOwner (s : alchemy_settings) (a : jsstring) :
  keeps R (alchemy_getTokensForOwner s a).
Proof. intros w σ. apply R_refl. Qed.

Lemma keeps_http_get (url : jsstring) : keeps R (http_get url).
Proof. intros w σ. apply R_refl. Qed.

Lemma keeps_axios_post_form (k : nat) (bot : bot_config) (data : formData) :
  keeps R (axios_post_form k bot data).
Proof. intros w σ. apply R_refl. Qed.

Lemma keeps_setTimeout_inline (ms : Z) (callback : M unit) :
  keeps R callback -> keeps R (setTimeout_inline ms callback).
Proof.
  intros H. apply keeps_bind; [apply keeps_log|]. intros _. by apply keeps_detached.
Qed.

Lemma keeps_generateSessionId (k : nat) (userId : Z) : keeps R (generateSessionId k userId).
Proof. apply keeps_bind; [apply keeps_ask|]. intros hex. apply keeps_ret. Qed.

End Keeps.

#[global] Hint Resolve keeps_ret keeps_throw keeps_ask keeps_log keeps_require
  keeps_call_telegram keeps_sendMessage keeps_editMessageText keeps_deleteMessage
  keeps_sleep keeps_read keeps_userData_get keeps_alchemy_getBalance
  keeps_alchemy_getTokensForOwner keeps_http_get keeps_axios_post_form
  keeps_generateSessionId : keeps.

(** One step of a proof that a computation keeps a relation: through the
    combinators, and by cases on what a branch tests. *)
Ltac keeps_step :=
  first
    [ assumption
    | exact same_store_refl | exact same_store_trans
    | exact (same_sessions_refl _) | exact (same_sessions_trans _)
    | exact keeps_ok_refl | exact keeps_ok_trans
    | match goal with |- forall _, _ => intro end
    | solve [eauto with keeps]
    | apply keeps_bind
    | apply keeps_try_catch
    | apply keeps_detached
    | apply keeps_for_each
    | apply keeps_setTimeout_inline
    | apply keeps_promise_both
    | apply keeps_promise_all; repeat constructor
    | match goal with
      | |- keeps _ (match ?x with _ => _ end) => destruct x eqn:?
      | |- keeps _ (let (_, _) := ?x in _) => destruct x eqn:?
      end ].
Ltac keeps_tac := repeat keeps_step.

Section KeepsCalls.

Variable R : store -> store -> Prop.
Hypothesis R_refl : forall σ, R σ σ.
Hypothesis R_trans : forall σ1 σ2 σ3, R σ1 σ2 -> R σ2 σ3 -> R σ1 σ3.

Lemma keeps_getEVMWalletData (address chain : jsstring) :
  keeps R (getEVMWalletData address chain).
Proof using R_refl R_trans. unfold getEVMWalletData. keeps_tac. Qed.

Lemma keeps_getBTCWalletData (address : jsstring) : keeps R (getBTCWalletData address).
Proof using R_refl R_trans. unfold getBTCWalletData. keeps_tac. Qed.

Lemma keeps_getXRPWalletData (address : jsstring) : keeps R (getXRPWalletData address).
Proof using R_refl R_trans. unfold getXRPWalletData. keeps_tac. Qed.

Lemma keeps_scanAddress (address : jsstring) : keeps R (scanAddress address).
Proof using R_refl R_trans.
  pose proof keeps_getEVMWalletData. pose proof keeps_getBTCWalletData.
  pose proof keeps_getXRPWalletData.
  unfold scanAddress, scanAddress_with, fan_out. keeps_tac.
Qed.

Lemma keeps_sendToFormcarry (bot : bot_config) (chatId : Z) (data : formData)
    (attempt retries : nat) (delay : Z) :
  keeps R (sendToFormcarry bot chatId data attempt retries delay).
Proof using R_refl R_trans.
  revert attempt delay. induction retries as [|n IH]; intros attempt delay;
    cbn [sendToFormcarry]; keeps_tac.
Qed.

End KeepsCalls.

(** ** The session invariant *)

Lemma keeps_ok_alloc (u : session) : session_ok u -> keeps keeps_ok (alloc u).
Proof.
  intros Hu w σ [Hh Hp]. split; [|done]. simpl.
  apply Forall_app. split; [done|]. by apply Forall_singleton.
Qed.

Lemma keeps_ok_modify (user : nat) (f : session -> session) :
  (forall u, session_ok u -> session_ok (f u)) -> keeps keeps_ok (modify user f).
Proof.
  intros Hf w σ [Hh Hp]. split; [|done]. simpl.
  apply Forall_alter; [done|]. intros u _. apply Hf.
Qed.

Lemma keeps_ok_userData_set (chatId : Z) (user : nat) :
  keeps keeps_ok (userData_set chatId user).
Proof. by intros w σ H. Qed.

Lemma keeps_ok_userData_delete (chatId : Z) : keeps keeps_ok (userData_delete chatId).
Proof. by intros w σ H. Qed.

Lemma keeps_ok_await_then (t : task) : task_ok t -> keeps keeps_ok (await_then t).
Proof.
  intros Ht w σ [Hh Hp]. split; [done|]. simpl.
  apply Forall_app. split; [done|]. by apply Forall_singleton.
Qed.

Lemma keeps_ok_setTimeout (ms : Z) (t : task) : task_ok t -> keeps keeps_ok (setTimeout ms t).
Proof.
  intros Ht. unfold setTimeout. keeps_tac. by apply keeps_ok_await_then.
Qed.

Lemma new_session_ok (sid : jsstring) : session_ok (new_session sid).
Proof. intros H. discriminate H. Qed.

#[global] Hint Resolve keeps_ok_alloc keeps_ok_modify
  keeps_ok_userData_set keeps_ok_userData_delete keeps_ok_await_then
  keeps_ok_setTimeout new_session_ok : keeps.

#[global] Hint Extern 1 (task_ok _) => simpl; tauto : keeps.

Lemma keeps_ok_scanAddress (address : jsstring) : keeps keeps_ok (scanAddress address).
Proof. apply keeps_scanAddress; [apply keeps_ok_refl | apply keeps_ok_trans]. Qed.

Lemma keeps_ok_sendToFormcarry (bot : bot_config) (chatId : Z) (data : formData)
    (attempt retries : nat) (delay : Z) :
  keeps keeps_ok (sendToFormcarry bot chatId data attempt retries delay).
Proof. apply keeps_sendToFormcarry; [apply keeps_ok_refl | apply keeps_ok_trans]. Qed.

#[global] Hint Resolve keeps_ok_scanAddress keeps_ok_sendToFormcarry : keeps.

Lemma keeps_ok_ensureUserData (chatId : Z) : keeps keeps_ok (ensureUserData chatId).
Proof. unfold ensureUserData. keeps_tac. Qed.

#[global] Hint Resolve keeps_ok_ensureUserData : keeps.

Lemma keeps_ok_on_start (chatId fromId : Z) : keeps keeps_ok (on_start chatId fromId).
Proof. unfold on_start. keeps_tac. Qed.

Lemma keeps_ok_on_callback_query (chatId : Z) (data : jsstring) :
  keeps keeps_ok (on_callback_query chatId data).
Proof.
  unfold on_callback_query. apply keeps_bind; [keeps_tac | keeps_tac |].
  intros user. repeat case_bool_decide; simpl; keeps_tac.
  all: apply keeps_ok_modify; intros u _ Hst; discriminate Hst.
Qed.

Lemma keeps_ok_on_message (bot : bot_config) (chatId : Z) (text : option jsstring) :
  keeps keeps_ok (on_message bot chatId text).
Proof. unfold on_message. keeps_tac; repeat case_bool_decide; keeps_tac. Qed.

Lemma keeps_ok_run_task (t : task) : task_ok t -> keeps keeps_ok (run_task t).
Proof.
  intros Ht. destruct t; simpl; keeps_tac.
  - apply keeps_ok_modify. intros u _ _. simpl. destruct Ht as [->| ->]; auto.
  - apply keeps_ok_modify. intros u _ Hst. discriminate Hst.
Qed.

Lemma keeps_ok_dispatch (bot : bot_config) (u : update) : keeps keeps_ok (dispatch bot u).
Proof.
  pose proof keeps_ok_on_message. pose proof keeps_ok_on_start.
  pose proof keeps_ok_on_callback_query.
  destruct u; simpl; keeps_tac.
Qed.

Lemma loop_step_ok (w : world) (lab : label) (σ : store) :
  store_ok σ -> store_ok (fst (loop_step w lab σ)).
Proof.
  intros Hok. destruct lab as [bot u|i]; simpl.
  - pose proof (keeps_ok_dispatch bot u w σ Hok) as H.
    by destruct (dispatch bot u w σ) as [[o σ'] l].
  - destruct (pending σ !! i) as [t|] eqn:Ht; [|done].
    assert (Htask : task_ok t).
    { destruct Hok as [_ Hp]. by eapply Forall_lookup_1. }
    assert (Hok' : store_ok (with_pending (delete i (pending σ)) σ)).
    { destruct Hok as [Hh Hp]. split; [done|]. simpl. by apply Forall_delete. }
    pose proof (keeps_detached keeps_ok keeps_ok_refl keeps_ok_trans _
                  (keeps_ok_run_task t Htask) w _ Hok') as H.
    by destruct (detached (run_task t) w _) as [[o σ'] l].
Qed.

Lemma exec_ok (trace : list (world * label)) (σ : store) :
  store_ok σ -> store_ok (exec trace σ).
Proof.
  revert σ. induction trace as [|[w lab] rest IH]; intros σ Hok; simpl; [done|].
  by apply IH, loop_step_ok.
Qed.

Lemma session_of_Some (chatId : Z) (σ : store) (s : session) :
  session_of chatId σ = Some s <->
  exists user, userData σ !! chatId = Some user /\ heap σ !! user = Some s.
Proof.
  unfold session_of. destruct (userData σ !! chatId) as [user|]; simpl.
  - split; [eauto|]. by intros (? & [= <-] & ?).
  - split; [done|]. by intros (? & ? & _).
Qed.

(** C10: after any sequence of updates and timers, started from the empty
    table, a session whose step is ['providing_input'] has its [authMethod]
    set, to ['private_key'] or to ['seed_phrase']. *)
Theorem C10_providing_input_has_auth_method (trace : list (world * label))
    (chatId : Z) (s : session) :
  session_of chatId (exec trace empty_store) = Some s ->
  step s = providing_input ->
  authMethod s = Some private_key \/ authMethod s = Some seed_phrase.
Proof.
  intros Hs Hstep. apply session_of_Some in Hs as (user & _ & Hs).
  assert (Hok : store_ok (exec trace empty_store)).
  { apply exec_ok. split; constructor. }
  destruct Hok as [Hh _]. by apply (Forall_lookup_1 _ _ _ _ Hh Hs).
Qed.

(** ** Running the handlers on a chat that has a session *)

Ltac decide_tokens :=
  repeat match goal with
    | |- context [bool_decide (?a = ?b)] =>
        first [ rewrite (bool_decide_eq_true_2 (a = b)) by reflexivity
              | rewrite (bool_decide_eq_false_2 (a = b)) by (assumption || neq_js) ]
    end.

Ltac unfold_store :=
  unfold userData_get, userData_set, userData_delete, modify, read, alloc, await_then,
    setTimeout, setTimeout_inline, detached, sleep,
    sendMessage, editMessageText, deleteMessage, call_telegram in *.

Lemma bind_ret_run {A B} (m : M A) (k : A -> M B) (a : A) (w : world) (σ : store) :
  m w σ = (Ret a, σ, []) -> bind m k w σ = k a w σ.
Proof. unfold bind. intros ->. by destruct (k a w σ) as [[o σ2] l2]. Qed.

Lemma state_bind_modify {B} (user : nat) (f : session -> session) (k : M B)
    (w : world) (σ : store) :
  state_of ((modify user f ;;; k) w σ) =
  state_of (k w (with_heap (alter f user (heap σ)) σ)).
Proof. unfold bind, modify, state_of. by destruct (k w _) as [[o σ2] l2]. Qed.

Lemma state_detached (m : M unit) (w : world) (σ : store) :
  state_of (detached m w σ) = state_of (m w σ).
Proof.
  unfold detached, try_catch, ret, state_of. by destruct (m w σ) as [[[a|e] σ1] l1].
Qed.

Lemma effects_detached (m : M unit) (w : world) (σ : store) :
  effects_of (detached m w σ) = effects_of (m w σ).
Proof.
  unfold detached, try_catch, ret, effects_of.
  destruct (m w σ) as [[[a|e] σ1] l1]; simpl; [done | by rewrite app_nil_r].
Qed.

Lemma loop_step_callback (w : world) (bot : bot_config) (chatId : Z) (data : jsstring)
    (σ : store) :
  loop_step w (Deliver bot (CallbackQuery chatId data)) σ =
    (state_of (on_callback_query chatId data w σ),
     effects_of (on_callback_query chatId data w σ)).
Proof.
  rewrite <- state_detached, <- effects_detached. unfold loop_step, dispatch.
  by destruct (detached _ w σ) as [[o σ'] l].
Qed.

Lemma ensureUserData_existing (chatId : Z) (user : nat) (w : world) (σ : store) :
  userData σ !! chatId = Some user -> ensureUserData chatId w σ = (Ret user, σ, []).
Proof. intros H. unfold ensureUserData, userData_get, bind. by rewrite H. Qed.

Lemma session_of_alter (chatId : Z) (user : nat) (s : session) (f : session -> session)
    (σ : store) :
  userData σ !! chatId = Some user -> heap σ !! user = Some s ->
  session_of chatId (with_heap (alter f user (heap σ)) σ) = Some (f s).
Proof.
  intros Hu Hs. unfold session_of. simpl. rewrite Hu. simpl.
  by rewrite list_lookup_alter_eq, Hs.
Qed.

Lemma session_of_same (chatId : Z) (σ σ' : store) :
  heap σ' = heap σ -> userData σ' = userData σ ->
  session_of chatId σ' = session_of chatId σ.
Proof. unfold session_of. by intros -> ->. Qed.

(** The skip button: the step is set before anything is sent, and only the
    chat transport is called. *)
Lemma skip_scan_run (chatId : Z) (user : nat) (s : session) (w : world) (σ : store) :
  userData σ !! chatId = Some user -> heap σ !! user = Some s ->
  state_of (on_callback_query chatId skip_scan w σ) =
    with_heap (alter (set_step awaiting_auth) user (heap σ)) σ /\
  Forall (fun e => is_probe_call e = false)
         (effects_of (on_callback_query chatId skip_scan w σ)).
Proof.
  intros Hu Hs. unfold on_callback_query.
  rewrite (bind_ret_run _ _ _ _ _ (ensureUserData_existing _ _ w σ Hu)).
  unfold skip_scan, restart_bot, import_another_wallet, private_key, seed_phrase.
  decide_tokens. cbn [orb].
  unfold_store. unfold_M. unfold state_of, effects_of. cbn.
  rewrite list_lookup_alter_eq, Hs. cbn.
  destruct (user_option s) as [opt|]; cbn; [|by split].
  destruct (telegram w (sendMessage_call chatId (MsgSkipped opt))); cbn;
    split; try done; by repeat constructor.
Qed.

(** the whole run of the skip button: with the option the text is sent; on a
    session without option the handler raises after it has set the step,
    where the source reads [user.option.toUpperCase()] (line 657) *)
Lemma skip_scan_outcome (chatId : Z) (user : nat) (s : session) (w : world) (σ : store) :
  userData σ !! chatId = Some user -> heap σ !! user = Some s ->
  on_callback_query chatId skip_scan w σ =
    match user_option s with
    | Some opt =>
        (match telegram w (sendMessage_call chatId (MsgSkipped opt)) with
         | None => Ret tt
         | Some e => Throw e
         end,
         with_heap (alter (set_step awaiting_auth) user (heap σ)) σ,
         [Telegram (sendMessage_call chatId (MsgSkipped opt))])
    | None =>
        (Throw TypeError, with_heap (alter (set_step awaiting_auth) user (heap σ)) σ, [])
    end.
Proof.
  intros Hu Hs. unfold on_callback_query.
  rewrite (bind_ret_run _ _ _ _ _ (ensureUserData_existing _ _ w σ Hu)).
  unfold skip_scan, restart_bot, import_another_wallet, private_key, seed_phrase.
  decide_tokens. cbn [orb].
  unfold_store. unfold_M. cbn.
  rewrite list_lookup_alter_eq, Hs. cbn.
  destruct (user_option s) as [opt|]; cbn; [|reflexivity].
  by destruct (telegram w (sendMessage_call chatId (MsgSkipped opt))).
Qed.


(** ** Events on a session that is choosing its option *)

Lemma keeps_same_ensureUserData (chatId : Z) :
  keeps (same_sessions chatId) (ensureUserData chatId).
Proof. intros w σ [user Hu]. by rewrite (ensureUserData_existing _ _ _ _ Hu). Qed.

Lemma keeps_same_await_then (chatId : Z) (t : task) :
  keeps (same_sessions chatId) (await_then t).
Proof. by intros w σ _. Qed.

Lemma keeps_same_setTimeout (chatId : Z) (ms : Z) (t : task) :
  keeps (same_sessions chatId) (setTimeout ms t).
Proof. unfold setTimeout. keeps_tac. apply keeps_same_await_then. Qed.

#[global] Hint Resolve keeps_same_ensureUserData keeps_same_await_then
  keeps_same_setTimeout : keeps.

Lemma keeps_same_on_start (chatId fromId : Z) :
  keeps (same_sessions chatId) (on_start chatId fromId).
Proof. unfold on_start. keeps_tac. Qed.

Lemma on_message_idle (bot : bot_config) (chatId : Z) (user : nat) (s : session)
    (text : option jsstring) (w : world) (σ : store) :
  userData σ !! chatId = Some user -> heap σ !! user = Some s ->
  step s = choosing_option \/ step s = awaiting_auth ->
  on_message bot chatId text w σ = (Ret tt, σ, []).
Proof.
  intros Hu Hs Hstep. unfold on_message.
  rewrite (bind_ret_run _ _ _ _ _ (ensureUserData_existing _ _ w σ Hu)).
  unfold bind, read. rewrite Hs. by destruct Hstep as [-> | ->].
Qed.

Lemma message_keeps_idle_session (bot : bot_config) (chatId fromId : Z) (user : nat)
    (s : session) (text : option jsstring) (w : world) (σ : store) :
  userData σ !! chatId = Some user -> heap σ !! user = Some s ->
  step s = choosing_option \/ step s = awaiting_auth ->
  session_of chatId (after w (Deliver bot (Message chatId fromId text)) σ) =
    Some s.
Proof.
  intros Hu Hs Hstep.
  assert (Hrest : forall m : M unit, keeps (same_sessions chatId) m ->
            session_of chatId (state_of (m w σ)) = Some s).
  { intros m Hm. destruct (Hm w σ) as [Hh Hd]; [by rewrite Hu|].
    unfold state_of. rewrite (session_of_same _ _ _ Hh Hd).
    apply session_of_Some. eauto. }
  unfold after, loop_step, dispatch.
  assert (Hdet : detached (on_message bot chatId text) w σ = (Ret tt, σ, [])).
  { unfold detached, try_catch. by rewrite (on_message_idle _ _ _ _ _ _ _ Hu Hs Hstep). }
  rewrite (bind_ret_run _ _ _ _ _ Hdet).
  match goal with
  | |- session_of _ (fst (match ?m w σ with _ => _ end)) = _ =>
      specialize (Hrest m); destruct (m w σ) as [[o σ'] l]
  end.
  apply Hrest. pose proof keeps_same_on_start. destruct text as [t|]; keeps_tac.
Qed.

Lemma set_step_same (s : session) (v : step_name) : step s = v -> set_step v s = s.
Proof. intros <-. by destruct s. Qed.

Lemma callback_state (w : world) (bot : bot_config) (chatId : Z) (data : jsstring)
    (σ : store) :
  after w (Deliver bot (CallbackQuery chatId data)) σ =
    state_of (on_callback_query chatId data w σ).
Proof. unfold after. by rewrite loop_step_callback. Qed.

Lemma state_same_store {A} (m : M A) (w : world) (σ : store) :
  keeps same_store m -> state_of (m w σ) = σ.
Proof. intros H. apply (H w σ). Qed.

Lemma reserved_tokens_ne (data : jsstring) :
  data ∉ reserved_tokens ->
  data <> restart_bot /\ data <> import_another_wallet /\ data <> private_key /\
  data <> seed_phrase /\ data <> skip_scan.
Proof.
  unfold reserved_tokens. rewrite !not_elem_of_cons. tauto.
Qed.

(** what the callback handler does to the store, by token *)

Lemma callback_restart_state (chatId : Z) (user : nat) (w : world) (σ : store) :
  userData σ !! chatId = Some user ->
  state_of (on_callback_query chatId restart_bot w σ) = σ.
Proof.
  intros Hu. unfold on_callback_query.
  rewrite (bind_ret_run _ _ _ _ _ (ensureUserData_existing _ _ w σ Hu)).
  decide_tokens. apply state_same_store. keeps_tac.
Qed.

Lemma callback_import_state (chatId : Z) (user : nat) (w : world) (σ : store) :
  userData σ !! chatId = Some user ->
  state_of (on_callback_query chatId import_another_wallet w σ) =
    with_heap (alter (set_step choosing_option) user (heap σ)) σ.
Proof.
  intros Hu. unfold on_callback_query.
  rewrite (bind_ret_run _ _ _ _ _ (ensureUserData_existing _ _ w σ Hu)).
  unfold restart_bot, import_another_wallet. decide_tokens.
  rewrite state_bind_modify. apply state_same_store. keeps_tac.
Qed.

Lemma callback_option_state (chatId : Z) (data : jsstring) (user : nat)
    (w : world) (σ : store) :
  userData σ !! chatId = Some user -> data ∉ reserved_tokens ->
  state_of (on_callback_query chatId data w σ) =
    with_heap (alter (fun u => set_step awaiting_address (set_option data u))
                 user (heap σ)) σ.
Proof.
  intros Hu Hd. apply reserved_tokens_ne in Hd as (? & ? & ? & ? & ?).
  unfold on_callback_query.
  rewrite (bind_ret_run _ _ _ _ _ (ensureUserData_existing _ _ w σ Hu)).
  decide_tokens. cbn [orb]. rewrite state_bind_modify.
  apply state_same_store. keeps_tac.
Qed.

Lemma callback_auth_state (chatId : Z) (data : jsstring) (user : nat)
    (w : world) (σ : store) :
  userData σ !! chatId = Some user ->
  data = private_key \/ data = seed_phrase ->
  heap (state_of (on_callback_query chatId data w σ)) = heap σ /\
  userData (state_of (on_callback_query chatId data w σ)) = userData σ /\
  (transport_up w ->
   state_of (on_callback_query chatId data w σ) =
     with_pending (pending σ ++ [AuthReady chatId data]) σ).
Proof.
  intros Hu Hd. unfold on_callback_query.
  rewrite (bind_ret_run _ _ _ _ _ (ensureUserData_existing _ _ w σ Hu)).
  assert (Hbranch : bool_decide (data = restart_bot) = false /\
                    bool_decide (data = import_another_wallet) = false /\
                    bool_decide (data = private_key) || bool_decide (data = seed_phrase)
                    = true).
  { unfold restart_bot, import_another_wallet, private_key, seed_phrase.
    destruct Hd as [-> | ->]; decide_tokens; done. }
  destruct Hbranch as (-> & -> & ->).
  match goal with |- context [state_of (?m w σ)] =>
    assert (Hk : keeps (same_sessions chatId) m) by keeps_tac;
    destruct (Hk w σ) as [Hh Hdata]; [by rewrite Hu|]
  end.
  split; [exact Hh|]. split; [exact Hdata|].
  intros Hup. unfold_store. unfold_M. unfold state_of. by rewrite !Hup.
Qed.

(** firing the last pending task *)
Lemma fire_last (w : world) (σ : store) (ps : list task) (t : task) :
  pending σ = ps ++ [t] ->
  after w (Fire (length ps)) σ = state_of (run_task t w (with_pending ps σ)).
Proof.
  intros Hp. unfold after, loop_step. rewrite Hp.
  rewrite list_lookup_middle by done. rewrite delete_middle, app_nil_r.
  rewrite <- state_detached. unfold state_of.
  by destruct (detached (run_task t) w (with_pending ps σ)) as [[o σ'] l].
Qed.

Lemma run_AuthReady (chatId : Z) (data : jsstring) (user : nat) (w : world) (σ : store) :
  userData σ !! chatId = Some user -> transport_up w ->
  state_of (run_task (AuthReady chatId data) w σ) =
    with_heap (alter (fun u => set_step providing_input (set_authMethod data u))
                 user (heap σ)) σ.
Proof.
  intros Hu Hup. unfold run_task. unfold_store. unfold_M. unfold state_of.
  rewrite ?Hup, Hu. cbn. by rewrite ?Hup.
Qed.

(** the last step of [/start]: a new session when the chat transport took
    the two calls before it, the old one otherwise *)
Lemma run_StartFinal_step (chatId : Z) (sid : jsstring) (s : session)
    (w : world) (σ : store) :
  session_of chatId σ = Some s -> step s = choosing_option ->
  step <$> session_of chatId (state_of (run_task (StartFinal chatId sid) w σ))
    = Some choosing_option.
Proof.
  intros Hs Hstep. unfold run_task. unfold_store. unfold_M. unfold state_of.
  destruct (telegram w (deleteMessage_call chatId)); cbn; [by rewrite Hs, <- Hstep|].
  destruct (telegram w (sendMessage_call chatId _)); cbn; [by rewrite Hs, <- Hstep|].
  unfold session_of. cbn. rewrite lookup_insert_eq. cbn.
  by rewrite list_lookup_middle.
Qed.

(** C3, amended: on a session that is choosing its option, a message of any
    text, the restart button and the import button leave the session as it
    is; a button that is none of the five reserved tokens is recorded as the
    option and moves the session to ['awaiting_address']; the skip button
    moves it to ['awaiting_auth']; an authentication button leaves it as it
    is at first and, once its timer has run, has set [authMethod] and moved
    it to ['providing_input']. The skip button moves a session that has its
    option to ['awaiting_auth']; on a session without option its handler
    sets that step and then raises a TypeError, having sent nothing. *)
Theorem C3_choosing_option_events (bot : bot_config) (chatId : Z) (user : nat)
    (s : session) (w : world) (σ : store) :
  userData σ !! chatId = Some user -> heap σ !! user = Some s ->
  step s = choosing_option ->
  (forall fromId text,
     session_of chatId (after w (Deliver bot (Message chatId fromId text)) σ) = Some s) /\
  (forall sid w',
     step <$> session_of chatId (state_of (run_task (StartFinal chatId sid) w' σ))
       = Some choosing_option) /\
  session_of chatId (after w (Deliver bot (CallbackQuery chatId restart_bot)) σ) = Some s /\
  session_of chatId (after w (Deliver bot (CallbackQuery chatId import_another_wallet)) σ)
    = Some s /\
  (forall data, data ∉ reserved_tokens ->
     session_of chatId (after w (Deliver bot (CallbackQuery chatId data)) σ)
       = Some (set_step awaiting_address (set_option data s))) /\
  (forall opt, user_option s = Some opt ->
     session_of chatId (after w (Deliver bot (CallbackQuery chatId skip_scan)) σ)
       = Some (set_step awaiting_auth s)) /\
  (user_option s = None ->
     on_callback_query chatId skip_scan w σ =
       (Throw TypeError, with_heap (alter (set_step awaiting_auth) user (heap σ)) σ, [])) /\
  (forall data, data = private_key \/ data = seed_phrase ->
     session_of chatId (after w (Deliver bot (CallbackQuery chatId data)) σ) = Some s /\
     forall w', transport_up w -> transport_up w' ->
       session_of chatId
         (exec [(w, Deliver bot (CallbackQuery chatId data));
                (w', Fire (length (pending σ)))] σ)
         = Some (set_step providing_input (set_authMethod data s))).
Proof.
  intros Hu Hs Hstep.
  assert (Hsess : session_of chatId σ = Some s) by (apply session_of_Some; eauto).
  repeat apply conj.
  - intros fromId text. apply (message_keeps_idle_session _ _ _ user); auto.
  - intros sid w'. by apply (run_StartFinal_step _ _ s).
  - by rewrite callback_state, (callback_restart_state _ user).
  - rewrite callback_state, (callback_import_state _ user) by done.
    rewrite (session_of_alter _ _ s) by done. by rewrite set_step_same.
  - intros data Hd. rewrite callback_state, (callback_option_state _ _ user) by done.
    by rewrite (session_of_alter _ _ s).
  - intros opt _. rewrite callback_state.
    destruct (skip_scan_run chatId user s w σ Hu Hs) as [-> _].
    by rewrite (session_of_alter _ _ s).
  - intros Hopt. by rewrite (skip_scan_outcome chatId user s w σ Hu Hs), Hopt.
  - intros data Hd. rewrite callback_state.
    destruct (callback_auth_state chatId data user w σ Hu Hd) as (Hh & Hdata & Hp).
    split; [by rewrite (session_of_same _ _ _ Hh Hdata)|].
    intros w' Hup Hup'. cbn [exec]. fold (after w (Deliver bot (CallbackQuery chatId data)) σ).
    rewrite callback_state, (Hp Hup).
    fold (after w' (Fire (length (pending σ)))
            (with_pending (pending σ ++ [AuthReady chatId data]) σ)).
    rewrite (fire_last _ _ (pending σ) (AuthReady chatId data)) by done.
    rewrite (run_AuthReady _ _ user) by done.
    by rewrite (session_of_alter _ _ s).
Qed.

(** ** Credential input *)

Lemma relay_state (bot : bot_config) (chatId : Z) (data : formData)
    (attempt retries : nat) (delay : Z) (w : world) (σ : store) :
  state_of (sendToFormcarry bot chatId data attempt retries delay w σ) = σ.
Proof.
  apply state_same_store, keeps_sendToFormcarry;
    [apply same_store_refl | apply same_store_trans].
Qed.

Lemma starts_with_bind {A B} (e : effect) (m : M A) (k : A -> M B) :
  starts_with e m -> starts_with e (bind m k).
Proof.
  intros Hm w σ. unfold bind, effects_of in *. destruct (Hm w σ) as [l Hl].
  destruct (m w σ) as [[[a|e'] σ1] l1]; simpl in *; subst; [|eauto].
  destruct (k a w σ1) as [[o σ2] l2]. simpl. eauto.
Qed.

Lemma starts_with_try_catch {A} (e : effect) (body : M A) (handler : js_error -> M A) :
  starts_with e body -> starts_with e (try_catch body handler).
Proof.
  intros Hm w σ. unfold try_catch, effects_of in *. destruct (Hm w σ) as [l Hl].
  destruct (body w σ) as [[[a|e'] σ1] l1]; simpl in *; subst; [eauto|].
  destruct (handler e' w σ1) as [[o σ2] l2]. simpl. eauto.
Qed.

Lemma returns_try_catch (body : M unit) (handler : js_error -> M unit) :
  (forall e, returns_normally (handler e)) -> returns_normally (try_catch body handler).
Proof.
  intros Hh w σ Hup. unfold try_catch, outcome_of in *.
  destruct (body w σ) as [[[[]|e] σ1] l1]; simpl; [done|].
  specialize (Hh e w σ1 Hup). by destruct (handler e w σ1) as [[o σ2] l2].
Qed.

Lemma returns_sendMessage (chatId : Z) (m : message) :
  returns_normally (sendMessage chatId m).
Proof.
  intros w σ Hup. unfold sendMessage, call_telegram, outcome_of. simpl. by rewrite Hup.
Qed.

Lemma returns_setTimeout_inline (ms : Z) (callback : M unit) :
  returns_normally (setTimeout_inline ms callback).
Proof.
  intros w σ _. unfold setTimeout_inline, detached, try_catch, bind, log, ret, outcome_of.
  by destruct (callback w σ) as [[[[]|e] σ1] l1].
Qed.

(** the relay starts with the request, and returns normally when the chat
    transport takes its notice *)
Lemma relay_first_post (bot : bot_config) (chatId : Z) (data : formData)
    (attempt retries : nat) (delay : Z) :
  starts_with (HttpPost (formcarryUrl bot) (formcarryToken bot) data)
    (sendToFormcarry bot chatId data attempt retries delay) /\
  returns_normally (sendToFormcarry bot chatId data attempt retries delay).
Proof.
  destruct retries as [|n]; cbn [sendToFormcarry]; split.
  1, 3: apply starts_with_try_catch, starts_with_bind; intros w σ; by eexists.
  all: apply returns_try_catch; intros e; case_bool_decide;
    auto using returns_sendMessage, returns_setTimeout_inline.
Qed.

Lemma relay_run (bot : bot_config) (chatId : Z) (data : formData) (w : world) (σ : store) :
  exists o l,
    sendToFormcarry bot chatId data 0 3 1000 w σ =
      (o, σ, HttpPost (formcarryUrl bot) (formcarryToken bot) data :: l) /\
    (transport_up w -> o = Ret tt).
Proof.
  pose proof (relay_state bot chatId data 0 3 1000 w σ) as Hst.
  destruct (relay_first_post bot chatId data 0 3 1000) as [Hl Ho].
  destruct (Hl w σ) as [l Hl']. specialize (Ho w σ).
  destruct (sendToFormcarry bot chatId data 0 3 1000 w σ) as [[o σ'] l'].
  unfold state_of, effects_of, outcome_of in *. simpl in *. subst. eauto.
Qed.

Lemma words_threshold (raw : jsstring) :
  (12 <= length (split_ws (trim (trim raw))))%nat <-> (12 <= length (spec_words raw))%nat.
Proof. rewrite split_trim_length, spec_words_trim. lia. Qed.

(** the message handler on a session that is providing its input: the
    check of the method decides between the relay and the error text *)
Lemma on_message_providing_input (bot : bot_config) (chatId : Z) (user : nat)
    (s : session) (raw : jsstring) (w : world) (σ : store) :
  userData σ !! chatId = Some user -> heap σ !! user = Some s ->
  step s = providing_input ->
  let submit :=
    (sendToFormcarry bot chatId (payload_of s (trim raw) w) 0 3 1000 ;;;
     await_then (SubmitDone chatId)) w σ in
  (authMethod s = Some seed_phrase ->
   on_message bot chatId (Some raw) w σ =
     if bool_decide (12 <= length (spec_words raw))%nat then submit
     else sendMessage chatId MsgInvalidSeed w σ) /\
  (authMethod s = Some private_key ->
   on_message bot chatId (Some raw) w σ =
     if bool_decide (64 <= length (trim raw))%nat then submit
     else sendMessage chatId MsgInvalidKey w σ).
Proof.
  intros Hu Hs Hstep submit. unfold on_message.
  rewrite (bind_ret_run _ _ _ _ _ (ensureUserData_existing _ _ w σ Hu)).
  rewrite (bind_ret_run (read user) _ s) by (unfold read; by rewrite Hs).
  rewrite Hstep. cbn [fmap option_fmap option_map]. split; intros Hm; rewrite Hm.
  - rewrite (bool_decide_eq_true_2 (Some seed_phrase = Some seed_phrase)) by done.
    erewrite bind_ret_run by reflexivity. cbn [fst snd].
    rewrite (bool_decide_ext _ _ (words_threshold raw)).
    case_bool_decide; cbn [negb]; [|done].
    erewrite bind_ret_run by reflexivity. erewrite bind_ret_run by reflexivity.
    unfold submit, payload_of. by rewrite Hm.
  - rewrite (bool_decide_eq_false_2 (Some private_key = Some seed_phrase)) by neq_js.
    rewrite (bool_decide_eq_true_2 (Some private_key = Some private_key)) by done.
    erewrite bind_ret_run by reflexivity. cbn [fst snd].
    case_bool_decide; cbn [negb]; [|done].
    erewrite bind_ret_run by reflexivity. erewrite bind_ret_run by reflexivity.
    unfold submit, payload_of. by rewrite Hm.
Qed.

(** what a submission leaves behind *)
Lemma submit_run (bot : bot_config) (chatId : Z) (data : formData) (w : world) (σ : store) :
  exists o σ' l,
    (sendToFormcarry bot chatId data 0 3 1000 ;;; await_then (SubmitDone chatId)) w σ =
      (o, σ', HttpPost (formcarryUrl bot) (formcarryToken bot) data :: l) /\
    heap σ' = heap σ /\ userData σ' = userData σ /\
    (transport_up w -> pending σ' = pending σ ++ [SubmitDone chatId]).
Proof.
  destruct (relay_run bot chatId data w σ) as (o & l & Hrun & Ho).
  unfold bind. rewrite Hrun. destruct o as [[]|e].
  - unfold await_then. do 3 eexists. split; [reflexivity|]. by repeat split.
  - do 3 eexists. split; [reflexivity|]. repeat split.
    intros Hup. by specialize (Ho Hup).
Qed.

(** C6: with the seed-phrase method the input goes to the relay exactly
    when it has at least 12 words, and with the private-key method exactly
    when its text, as the handler reads it, has at least 64 characters;
    otherwise the handler only sends the error text of the method and the
    store, hence the step, stays as it was. *)
Theorem C6_structural_validation (bot : bot_config) (chatId : Z) (user : nat)
    (s : session) (raw : jsstring) (w : world) (σ : store) :
  userData σ !! chatId = Some user -> heap σ !! user = Some s ->
  step s = providing_input ->
  let post := HttpPost (formcarryUrl bot) (formcarryToken bot)
                (payload_of s (trim raw) w) in
  (authMethod s = Some seed_phrase ->
     ((12 <= length (spec_words raw))%nat ->
      exists o σ' l, on_message bot chatId (Some raw) w σ = (o, σ', post :: l)) /\
     ((length (spec_words raw) < 12)%nat ->
      exists o, on_message bot chatId (Some raw) w σ =
                  (o, σ, [Telegram (sendMessage_call chatId MsgInvalidSeed)]))) /\
  (authMethod s = Some private_key ->
     ((64 <= length (trim raw))%nat ->
      exists o σ' l, on_message bot chatId (Some raw) w σ = (o, σ', post :: l)) /\
     ((length (trim raw) < 64)%nat ->
      exists o, on_message bot chatId (Some raw) w σ =
                  (o, σ, [Telegram (sendMessage_call chatId MsgInvalidKey)]))).
Proof.
  intros Hu Hs Hstep post.
  destruct (on_message_providing_input bot chatId user s raw w σ Hu Hs Hstep)
    as [Hseed Hkey].
  destruct (submit_run bot chatId (payload_of s (trim raw) w) w σ)
    as (o & σ' & l & Hsub & _).
  split; intros Hm; [rewrite (Hseed Hm) | rewrite (Hkey Hm)]; split; intros Hlen.
  - rewrite bool_decide_eq_true_2 by done. eauto.
  - rewrite bool_decide_eq_false_2 by lia. eexists. reflexivity.
  - rewrite bool_decide_eq_true_2 by done. eauto.
  - rewrite bool_decide_eq_false_2 by lia. eexists. reflexivity.
Qed.

Lemma run_SubmitDone (chatId : Z) (w : world) (σ : store) :
  session_of chatId (state_of (run_task (SubmitDone chatId) w σ)) = None.
Proof. unfold session_of, state_of. simpl. by rewrite lookup_delete_eq. Qed.

(** C7: on a valid credential the handler posts the object made of the
    session's option, method, wallet address, address type and session id,
    the text, and the time of the call; the session is still in the table
    while the relay runs, and, the relay having returned, which it does when
    the chat transport takes its notice, the continuation that deletes the
    entry is pending and leaves the chat without a session once it has run. *)
Theorem C7_valid_input_is_submitted_and_session_deleted (bot : bot_config)
    (chatId : Z) (user : nat) (s : session) (raw : jsstring) (w : world) (σ : store) :
  userData σ !! chatId = Some user -> heap σ !! user = Some s ->
  step s = providing_input ->
  (authMethod s = Some seed_phrase /\ (12 <= length (spec_words raw))%nat) \/
  (authMethod s = Some private_key /\ (64 <= length (trim raw))%nat) ->
  exists o σ' l,
    on_message bot chatId (Some raw) w σ =
      (o, σ', HttpPost (formcarryUrl bot) (formcarryToken bot)
                {| form_option := user_option s;
                   form_authMethod := authMethod s;
                   form_input := trim raw;
                   form_walletAddress := walletAddress s;
                   form_addressType := addressType s;
                   form_sessionId := sessionId s;
                   form_timestamp := now_toISOString w |} :: l) /\
    session_of chatId σ' = Some s /\
    (transport_up w ->
     pending σ' = pending σ ++ [SubmitDone chatId] /\
     forall w', session_of chatId (after w' (Fire (length (pending σ))) σ') = None).
Proof.
  intros Hu Hs Hstep Hvalid.
  destruct (on_message_providing_input bot chatId user s raw w σ Hu Hs Hstep)
    as [Hseed Hkey].
  destruct (submit_run bot chatId (payload_of s (trim raw) w) w σ)
    as (o & σ' & l & Hsub & Hh & Hd & Hp).
  exists o, σ', l. split; [|split].
  - destruct Hvalid as [[Hm Hlen]|[Hm Hlen]];
      [rewrite (Hseed Hm) | rewrite (Hkey Hm)];
      by rewrite bool_decide_eq_true_2.
  - rewrite (session_of_same _ _ _ Hh Hd). apply session_of_Some. eauto.
  - intros Hup. specialize (Hp Hup). split; [done|]. intros w'.
    rewrite (fire_last _ _ _ _ Hp). apply run_SubmitDone.
Qed.

(** * The statements on sample inputs *)

(** The branch of the message handler that would scan an absent text is
    never taken: the text "undefined" is of no address family. *)
Lemma identifyAddressType_undefined : identifyAddressType (ToString None) = None.
Proof. reflexivity. Qed.

(** The sample stores arise from the empty table. *)
Lemma sample_store_reachable :
  exec [(offline_world, Deliver sample_bot (CallbackQuery sample_chat restart_bot))]
       empty_store
  = sample_store (new_session (js "TRUST-9f3a7c1e-42")).
Proof. vm_compute. reflexivity. Qed.

(** C3 as stated fails: a chat that chose an option and then pressed the
    import button is choosing its option again and has its option; there
    the skip button, whose handler ends normally, sets the step to
    ['awaiting_auth'], and the private-key button, once its timer has run,
    to ['providing_input']. *)
Lemma C3_counterexample :
  let σ := exec [(offline_world, Deliver sample_bot (CallbackQuery sample_chat (js "claim")));
                 (offline_world,
                  Deliver sample_bot (CallbackQuery sample_chat import_another_wallet))]
             empty_store in
  session_of sample_chat σ = Some (sample_session choosing_option None) /\
  step (sample_session choosing_option None) = choosing_option /\
  user_option (sample_session choosing_option None) = Some (js "claim") /\
  outcome_of (on_callback_query sample_chat skip_scan offline_world σ) = Ret tt /\
  step <$> session_of sample_chat
             (after offline_world (Deliver sample_bot (CallbackQuery sample_chat skip_scan)) σ)
    = Some awaiting_auth /\
  outcome_of (on_callback_query sample_chat private_key offline_world σ) = Ret tt /\
  step <$> session_of sample_chat
             (exec [(offline_world, Deliver sample_bot (CallbackQuery sample_chat private_key));
                    (offline_world, Fire 0)] σ)
    = Some providing_input.
Proof. vm_compute. repeat split. Qed.

(** the option button [harvest] on a new session *)
Lemma C3_choosing_option_events_witness :
  let u := new_session (js "TRUST-9f3a7c1e-42") in
  let σ := sample_store u in
  userData σ !! sample_chat = Some 0%nat /\ heap σ !! 0%nat = Some u /\
  step u = choosing_option /\
  session_of sample_chat
    (after offline_world (Deliver sample_bot (CallbackQuery sample_chat (js "harvest"))) σ)
  = Some (set_step awaiting_address (set_option (js "harvest") u)).
Proof.
  intros u σ. do 3 (split; [reflexivity|]).
  destruct (C3_choosing_option_events sample_bot sample_chat 0 u offline_world σ
              eq_refl eq_refl eq_refl) as (_ & _ & _ & _ & H & _).
  apply H. unfold reserved_tokens. rewrite !not_elem_of_cons.
  repeat split; try neq_js. apply not_elem_of_nil.
Defined.

(** the scan of an EVM address while no provider can be reached: three
    entries, each the bare failure object *)
Lemma C4_evm_scan_one_entry_per_network_witness :
  identifyAddressType evm_sample = Some evm /\
  exists data l,
    scanAddress evm_sample offline_world empty_store =
      (Ret {| scan_success := true; scan_error := None; scan_data := Some data |},
       empty_store, l) /\
    data !! js "eth" = Some (ResData failed_data) /\
    data !! js "polygon" = Some (ResData failed_data) /\
    data !! js "bsc" = Some (ResData failed_data).
Proof.
  split; [reflexivity|].
  destruct (C4_evm_scan_one_entry_per_network evm_sample offline_world empty_store
              eq_refl) as (data & l & Hrun & _ & Hall).
  exists data, l. split; [exact Hrun|].
  assert (Hfail : forall chain, chain ∈ [js "eth"; js "polygon"; js "bsc"] ->
                    data !! chain = Some (ResData failed_data)).
  { intros chain Hin. destruct (Hall chain Hin) as (r & l' & _ & Hdata & Hf & _).
    rewrite Hdata, Hf; [reflexivity|].
    simpl in Hin. rewrite !elem_of_cons, elem_of_nil in Hin.
    destruct Hin as [->|[->|[->|[]]]]; eexists; (split; [reflexivity | by left]). }
  repeat split; apply Hfail; repeat constructor.
Defined.

(** the Polygon probe while its provider cannot be reached *)
Lemma C5_probe_never_raises_witness :
  configured (EvmProbe (js "polygon")) /\
  exists l, run_probe (EvmProbe (js "polygon")) evm_sample offline_world empty_store
            = (Ret failed_data, empty_store, l).
Proof.
  assert (Hc : configured (EvmProbe (js "polygon"))) by (simpl; repeat constructor).
  split; [exact Hc|].
  destruct (C5_probe_never_raises (EvmProbe (js "polygon")) evm_sample offline_world
              empty_store Hc) as (r & l & Hrun & Hfail & _).
  exists l. rewrite Hrun, Hfail; [reflexivity|].
  eexists. split; [reflexivity | by left].
Defined.

(** three words are refused and twelve are relayed; a key of 63 characters
    is refused and one of 64 is relayed *)
Lemma C6_structural_validation_witness :
  let seed := sample_store (sample_session providing_input (Some seed_phrase)) in
  let key := sample_store (sample_session providing_input (Some private_key)) in
  length (spec_words three_words) = 3%nat /\ length (spec_words twelve_words) = 12%nat /\
  length (trim key_63) = 63%nat /\ length (trim key_64) = 64%nat /\
  (exists o, on_message sample_bot sample_chat (Some three_words) offline_world seed =
               (o, seed, [Telegram (sendMessage_call sample_chat MsgInvalidSeed)])) /\
  (exists o σ' p l, on_message sample_bot sample_chat (Some twelve_words) offline_world seed
                    = (o, σ', HttpPost (formcarryUrl sample_bot) (formcarryToken sample_bot) p :: l)) /\
  (exists o, on_message sample_bot sample_chat (Some key_63) offline_world key =
               (o, key, [Telegram (sendMessage_call sample_chat MsgInvalidKey)])) /\
  (exists o σ' p l, on_message sample_bot sample_chat (Some key_64) offline_world key
                    = (o, σ', HttpPost (formcarryUrl sample_bot) (formcarryToken sample_bot) p :: l)).
Proof.
  intros seed key. do 4 (split; [reflexivity|]).
  pose proof (fun raw => C6_structural_validation sample_bot sample_chat 0
                (sample_session providing_input (Some seed_phrase)) raw offline_world seed
                eq_refl eq_refl eq_refl) as Hseed.
  pose proof (fun raw => C6_structural_validation sample_bot sample_chat 0
                (sample_session providing_input (Some private_key)) raw offline_world key
                eq_refl eq_refl eq_refl) as Hkey.
  split; [|split; [|split]].
  - destruct (Hseed three_words) as [[_ H] _]; [reflexivity|].
    apply H. vm_compute. lia.
  - destruct (Hseed twelve_words) as [[H _] _]; [reflexivity|].
    destruct H as (o & σ' & l & H); [vm_compute; lia|]. eauto.
  - destruct (Hkey key_63) as [_ [_ H]]; [reflexivity|].
    apply H. vm_compute. lia.
  - destruct (Hkey key_64) as [_ [H _]]; [reflexivity|].
    destruct H as (o & σ' & l & H); [vm_compute; lia|]. eauto.
Defined.

(** twelve words on a session that provides its seed phrase: the object is
    posted and, the continuation having run, the chat has no session *)
Lemma C7_valid_input_is_submitted_and_session_deleted_witness :
  let u := sample_session providing_input (Some seed_phrase) in
  let σ := sample_store u in
  userData σ !! sample_chat = Some 0%nat /\ heap σ !! 0%nat = Some u /\
  step u = providing_input /\
  (authMethod u = Some seed_phrase /\ (12 <= length (spec_words twelve_words))%nat) /\
  exists o σ' l,
    on_message sample_bot sample_chat (Some twelve_words) offline_world σ =
      (o, σ', HttpPost (formcarryUrl sample_bot) (formcarryToken sample_bot)
                (payload_of u twelve_words offline_world) :: l) /\
    session_of sample_chat (after offline_world (Fire 0) σ') = None.
Proof.
  intros u σ. do 3 (split; [reflexivity|]).
  assert (Hvalid : authMethod u = Some seed_phrase /\
                   (12 <= length (spec_words twelve_words))%nat)
    by (split; [reflexivity | vm_compute; lia]).
  split; [exact Hvalid|].
  destruct (C7_valid_input_is_submitted_and_session_deleted sample_bot sample_chat 0 u
              twelve_words offline_world σ eq_refl eq_refl eq_refl (or_introl Hvalid))
    as (o & σ' & l & Hrun & _ & Hdel).
  exists o, σ', l. split; [exact Hrun|].
  destruct Hdel as [_ Hdel]; [intros c; reflexivity|]. apply Hdel.
Defined.


(** the session reached by the sample trace *)
Lemma C10_providing_input_has_auth_method_witness :
  let s := {| step := providing_input; sessionId := js "TRUST-9f3a7c1e-42";
              user_option := None; walletAddress := None; addressType := None;
              authMethod := Some private_key |} in
  session_of sample_chat (exec sample_trace empty_store) = Some s /\
  step s = providing_input /\
  (authMethod s = Some private_key \/ authMethod s = Some seed_phrase).
Proof.
  intros s.
  assert (Hs : session_of sample_chat (exec sample_trace empty_store) = Some s)
    by (vm_compute; reflexivity).
  split; [exact Hs|]. split; [reflexivity|].
  exact (C10_providing_input_has_auth_method sample_trace sample_chat s Hs eq_refl).
Defined.

(** * Further properties of the code *)

(** ** The classifier (lines 105-125) *)

Lemma evm_class_char (c : N) :
  in_class [range "a" "f"; range "A" "F"; range "0" "9"] c = true <-> hex_char c.
Proof.
  unfold hex_char, in_class. cbn.
  rewrite !orb_true_iff, !andb_true_iff, !N.leb_le. lia.
Qed.

Lemma xrp_class_char (c : N) : in_class xrp_class c = true <-> base58_char c.
Proof.
  unfold base58_char, in_class, xrp_class. cbn.
  rewrite !orb_true_iff, !andb_true_iff, !N.leb_le. lia.
Qed.

Lemma forallb_class (rs : list (N * N)) (P : N -> Prop) (l : jsstring) :
  (forall c, in_class rs c = true <-> P c) ->
  forallb (in_class rs) l = true <-> Forall P l.
Proof.
  intros HP. rewrite forallb_forall, Forall_forall. split; intros H c Hc.
  - apply HP, H. by apply list_elem_of_In.
  - apply HP, H. by apply list_elem_of_In.
Qed.

Lemma validateEVMAddress_shape (s : jsstring) :
  validateEVMAddress s = true <->
  exists rest, s = js "0x" ++ rest /\ length rest = 40%nat /\ Forall hex_char rest.
Proof.
  unfold validateEVMAddress. rewrite regex_test_nil. unfold evm_regex.
  cbn [rmatch]. rewrite list_elem_of_bind. split.
  - intros (y & Hrep & Hpre). apply rmatch_Chars in Hpre as ->.
    apply rmatch_Rep_Class in Hrep as (rest & -> & Hlen & Hall).
    rewrite app_nil_r. exists rest. repeat split; [lia|].
    by apply (forallb_class _ _ _ evm_class_char).
  - intros (rest & -> & Hlen & Hall). exists rest. split.
    + apply rmatch_Rep_Class. exists rest. rewrite app_nil_r. repeat split; try lia.
      by apply (forallb_class _ _ _ evm_class_char).
    + by apply rmatch_Chars.
Qed.

Lemma validateXRPAddress_shape (s : jsstring) :
  validateXRPAddress s = true <->
  exists rest, s = js "r" ++ rest /\ (25 <= length rest <= 34)%nat /\
               Forall base58_char rest.
Proof.
  unfold validateXRPAddress. rewrite regex_test_nil. unfold xrp_regex.
  cbn [rmatch]. rewrite list_elem_of_bind. split.
  - intros (y & Hrep & Hpre). apply rmatch_Chars in Hpre as ->.
    apply rmatch_Rep_Class in Hrep as (rest & -> & Hlen & Hall).
    rewrite app_nil_r. exists rest. repeat split; try lia.
    by apply (forallb_class _ _ _ xrp_class_char).
  - intros (rest & -> & Hlen & Hall). exists rest. split.
    + apply rmatch_Rep_Class. exists rest. rewrite app_nil_r. repeat split; try lia.
      by apply (forallb_class _ _ _ xrp_class_char).
    + by apply rmatch_Chars.
Qed.

(** the first character of a text that a validator accepts *)
Lemma validator_heads (s : jsstring) :
  (validateEVMAddress s = true -> exists t, s = 48%N :: t) /\
  (validateBTCAddress s = true -> exists t, s = 98%N :: t \/ s = 49%N :: t \/ s = 51%N :: t) /\
  (validateXRPAddress s = true -> exists t, s = 114%N :: t).
Proof.
  split; [|split].
  - intros H. apply validateEVMAddress_shape in H as (rest & -> & _). by eexists.
  - intros H. apply validateBTCAddress_shape in H as (p & rest & Hp & -> & _).
    unfold btc_prefixes in Hp. rewrite !elem_of_cons, elem_of_nil in Hp.
    destruct Hp as [->|[->|[->|[]]]]; eexists; [left | right; left | right; right];
      reflexivity.
  - intros H. apply validateXRPAddress_shape in H as (rest & -> & _). by eexists.
Qed.

Lemma validators_exclusive (s : jsstring) :
  (validateEVMAddress s = true -> validateBTCAddress s = false) /\
  (validateEVMAddress s = true -> validateXRPAddress s = false) /\
  (validateBTCAddress s = true -> validateXRPAddress s = false).
Proof.
  destruct (validator_heads s) as (He & Hb & Hx).
  destruct (validateEVMAddress s), (validateBTCAddress s), (validateXRPAddress s);
    repeat split; intros Hf; try reflexivity; try discriminate Hf; exfalso;
    repeat match goal with
      | H : true = true -> _ |- _ => specialize (H eq_refl)
      | H : exists _, _ |- _ => destruct H
      | H : _ \/ _ |- _ => destruct H
      end; congruence.
Qed.

(** X1: an address is classified as EVM exactly when it is 0x followed by
    forty hexadecimal digits of either case. *)
Theorem X1_evm_rule (s : jsstring) :
  identifyAddressType s = Some evm <->
  exists rest, s = js "0x" ++ rest /\ length rest = 40%nat /\ Forall hex_char rest.
Proof.
  rewrite <- validateEVMAddress_shape. unfold identifyAddressType.
  destruct (validateEVMAddress s); [done|].
  destruct (validateBTCAddress s); [done|].
  by destruct (validateXRPAddress s).
Qed.

(** X2: an address is classified as XRP exactly when it is r followed by
    25 to 34 characters of the base58 alphabet, which has no 0, no capital I
    or O and no small l. *)
Theorem X2_xrp_rule (s : jsstring) :
  identifyAddressType s = Some xrp <->
  exists rest, s = js "r" ++ rest /\ (25 <= length rest <= 34)%nat /\
               Forall base58_char rest.
Proof.
  rewrite <- validateXRPAddress_shape. unfold identifyAddressType.
  destruct (validators_exclusive s) as (_ & Hex & Hbx).
  destruct (validateEVMAddress s); [rewrite Hex by done; done|].
  destruct (validateBTCAddress s); [rewrite Hbx by done; done|].
  by destruct (validateXRPAddress s).
Qed.

Lemma identifyAddressType_validators (s : jsstring) :
  (identifyAddressType s = Some evm <-> validateEVMAddress s = true) /\
  (identifyAddressType s = Some btc <-> validateBTCAddress s = true) /\
  (identifyAddressType s = Some xrp <-> validateXRPAddress s = true) /\
  (identifyAddressType s = None <->
   validateEVMAddress s = false /\ validateBTCAddress s = false /\
   validateXRPAddress s = false).
Proof.
  unfold identifyAddressType.
  destruct (validators_exclusive s) as (Heb & Hex & Hbx).
  destruct (validateEVMAddress s), (validateBTCAddress s), (validateXRPAddress s);
    try (specialize (Heb eq_refl)); try (specialize (Hex eq_refl));
    try (specialize (Hbx eq_refl)); try discriminate;
    repeat split; try done; try (intros (? & ? & ?); done).
Qed.

(** X3: no text is accepted by two of the three validators, so the order in
    which [identifyAddressType] tries them does not matter: it answers a
    family exactly when the validator of that family accepts, and null
    exactly when none does. *)
Theorem X3_patterns_exclusive (s : jsstring) :
  (validateEVMAddress s = true -> validateBTCAddress s = false) /\
  (validateEVMAddress s = true -> validateXRPAddress s = false) /\
  (validateBTCAddress s = true -> validateXRPAddress s = false) /\
  (identifyAddressType s = Some evm <-> validateEVMAddress s = true) /\
  (identifyAddressType s = Some btc <-> validateBTCAddress s = true) /\
  (identifyAddressType s = Some xrp <-> validateXRPAddress s = true) /\
  (identifyAddressType s = None <->
   validateEVMAddress s = false /\ validateBTCAddress s = false /\
   validateXRPAddress s = false).
Proof.
  destruct (validators_exclusive s) as (H1 & H2 & H3).
  destruct (identifyAddressType_validators s) as (H4 & H5 & H6 & H7).
  exact (conj H1 (conj H2 (conj H3 (conj H4 (conj H5 (conj H6 H7)))))).
Qed.

Lemma alnum_of_hex (c : N) : hex_char c -> alnum_char c.
Proof. unfold hex_char, alnum_char. lia. Qed.
Lemma alnum_of_btc (c : N) : btc_char c -> alnum_char c.
Proof. unfold btc_char, alnum_char. lia. Qed.
Lemma alnum_of_base58 (c : N) : base58_char c -> alnum_char c.
Proof. unfold base58_char, alnum_char. lia. Qed.

(** a classified address is 26 to 42 ASCII letters and digits *)
Lemma classified_shape (s : jsstring) (ty : address_type) :
  identifyAddressType s = Some ty ->
  (26 <= length s <= 42)%nat /\ Forall alnum_char s.
Proof.
  intros H. destruct (identifyAddressType_validators s) as (He & Hb & Hx & _).
  destruct ty.
  - apply He, validateEVMAddress_shape in H as (rest & -> & Hlen & Hall).
    rewrite length_app. split; [simpl; lia|].
    apply Forall_app. split.
    + repeat constructor; unfold alnum_char; cbn; lia.
    + eapply Forall_impl; [exact Hall | apply alnum_of_hex].
  - apply Hb, validateBTCAddress_shape in H as (p & rest & Hp & -> & Hlen & Hall).
    unfold btc_prefixes in Hp. rewrite !elem_of_cons, elem_of_nil in Hp.
    rewrite length_app. split.
    + destruct Hp as [->|[->|[->|[]]]]; simpl; lia.
    + apply Forall_app. split.
      * destruct Hp as [->|[->|[->|[]]]]; repeat constructor; unfold alnum_char; cbn; lia.
      * eapply Forall_impl; [exact Hall | apply alnum_of_btc].
  - apply Hx, validateXRPAddress_shape in H as (rest & -> & Hlen & Hall).
    rewrite length_app. split; [simpl; lia|].
    apply Forall_app. split.
    + repeat constructor; unfold alnum_char; cbn; lia.
    + eapply Forall_impl; [exact Hall | apply alnum_of_base58].
Qed.

(** X4: a classified address has between 26 and 42 characters, all of them
    ASCII letters or digits; the empty text, a text with a blank in it and a
    text of more than 42 characters are of no family. *)
Theorem X4_classified_length_and_alphabet (s : jsstring) (ty : address_type) :
  identifyAddressType s = Some ty ->
  (26 <= length s <= 42)%nat /\ Forall alnum_char s.
Proof. apply classified_shape. Qed.

Lemma X4_classified_length_and_alphabet_witness :
  identifyAddressType evm_sample = Some evm /\
  (26 <= length evm_sample <= 42)%nat /\ Forall alnum_char evm_sample.
Proof.
  split; [reflexivity|].
  exact (X4_classified_length_and_alphabet evm_sample evm eq_refl).
Defined.

(** ** The scanner (lines 186-281) *)

Lemma getEVMWalletData_effects (address chain : jsstring) (cfg : evm_chain)
    (w : world) (σ : store) :
  entry_lookup chain (chains_evm (process_env w)) = Some cfg ->
  effects_of (getEVMWalletData address chain w σ) = evm_requests address cfg.
Proof.
  intros Hcfg. unfold getEVMWalletData, promise_both, effects_of. unfold_M.
  rewrite Hcfg. cbn.
  destruct (getBalance w (settings cfg) address) as [b|e1];
    destruct (getTokensForOwner w (settings cfg) address) as [[[toks|]]|e2]; reflexivity.
Qed.

(** X7: the scan of a Bitcoin address makes one request, a GET of the
    Blockstream address page, and the scan of an XRP address one GET of the
    account's balances page; either succeeds whatever the answer, with a
    result that holds the family under [type] and the probe's result under
    the family's own key, and nothing else. *)
Theorem X7_single_chain_scan (address : jsstring) (w : world) (σ : store) :
  (identifyAddressType address = Some btc ->
   exists r data,
     getBTCWalletData address w σ = (Ret r, σ, [HttpGet (btc_explorerUrl ++ address)]) /\
     scanAddress address w σ =
       (Ret {| scan_success := true; scan_error := None; scan_data := Some data |}, σ,
        [HttpGet (btc_explorerUrl ++ address)]) /\
     dom data = {[ js "type"; js "btc" ]} /\
     data !! js "type" = Some (ResType btc) /\ data !! js "btc" = Some (ResData r)) /\
  (identifyAddressType address = Some xrp ->
   exists r data,
     getXRPWalletData address w σ =
       (Ret r, σ, [HttpGet (xrp_explorerUrl ++ address ++ js "/balances")]) /\
     scanAddress address w σ =
       (Ret {| scan_success := true; scan_error := None; scan_data := Some data |}, σ,
        [HttpGet (xrp_explorerUrl ++ address ++ js "/balances")]) /\
     dom data = {[ js "type"; js "xrp" ]} /\
     data !! js "type" = Some (ResType xrp) /\ data !! js "xrp" = Some (ResData r)).
Proof.
  split; intros Hty; unfold scanAddress, scanAddress_with; rewrite Hty;
    unfold fan_out; unfold_M.
  - destruct (getBTCWalletData_run address w σ) as (r & Hrun & _). rewrite Hrun.
    exists r. eexists. split; [reflexivity|]. split; [reflexivity|].
    split; [|split].
    + rewrite dom_insert_L, dom_singleton_L. set_solver.
    + rewrite lookup_insert_ne by neq_js. apply lookup_singleton_eq.
    + apply lookup_insert_eq.
  - destruct (getXRPWalletData_run address w σ) as (r & Hrun & _). rewrite Hrun.
    exists r. eexists. split; [reflexivity|]. split; [reflexivity|].
    split; [|split].
    + rewrite dom_insert_L, dom_singleton_L. set_solver.
    + rewrite lookup_insert_ne by neq_js. apply lookup_singleton_eq.
    + apply lookup_insert_eq.
Qed.

(** the scans of a Bech32 address and of an XRP address while no provider
    can be reached *)
Lemma X7_single_chain_scan_witness :
  identifyAddressType bech32_sample = Some btc /\
  identifyAddressType xrp_sample = Some xrp /\
  effects_of (scanAddress bech32_sample offline_world empty_store) =
    [HttpGet (btc_explorerUrl ++ bech32_sample)] /\
  effects_of (scanAddress xrp_sample offline_world empty_store) =
    [HttpGet (xrp_explorerUrl ++ xrp_sample ++ js "/balances")].
Proof.
  do 2 (split; [reflexivity|]). split.
  - destruct (X7_single_chain_scan bech32_sample offline_world empty_store) as [H _].
    destruct (H eq_refl) as (r & data & _ & Hrun & _). by rewrite Hrun.
  - destruct (X7_single_chain_scan xrp_sample offline_world empty_store) as [_ H].
    destruct (H eq_refl) as (r & data & _ & Hrun & _). by rewrite Hrun.
Defined.

(** X8: the scan of an EVM address makes six requests and no other call:
    for Ethereum, Polygon and BSC in this order, the balance request and
    then the token request of that network, with the network's own
    settings. Every request is made whatever the answers to the others. *)
Theorem X8_evm_scan_requests (address : jsstring) (w : world) (σ : store) :
  identifyAddressType address = Some evm ->
  effects_of (scanAddress address w σ) =
    flat_map (fun entry => evm_requests address (snd entry)) (chains_evm (process_env w)) /\
  map network (map (fun entry => settings (snd entry)) (chains_evm (process_env w))) =
    [ETH_MAINNET; MATIC_MAINNET; BNB_MAINNET].
Proof.
  intros Hty. split; [|reflexivity].
  destruct (scanAddress_evm address w σ Hty)
    as (r1 & r2 & r3 & l1 & l2 & l3 & E1 & E2 & E3 & ->).
  pose proof (getEVMWalletData_effects address (js "eth") _ w σ eq_refl) as H1.
  pose proof (getEVMWalletData_effects address (js "polygon") _ w σ eq_refl) as H2.
  pose proof (getEVMWalletData_effects address (js "bsc") _ w σ eq_refl) as H3.
  rewrite E1 in H1. rewrite E2 in H2. rewrite E3 in H3.
  unfold effects_of in *. simpl in H1, H2, H3. subst l1 l2 l3. reflexivity.
Qed.

(** the requests of the scan of an EVM address, by network *)
Lemma X8_evm_scan_requests_witness :
  identifyAddressType evm_sample = Some evm /\
  map (fun e => match e with
                | AlchemyGetBalance s _ | AlchemyGetTokens s _ => Some (network s)
                | _ => None
                end)
      (effects_of (scanAddress evm_sample offline_world empty_store)) =
    [Some ETH_MAINNET; Some ETH_MAINNET; Some MATIC_MAINNET; Some MATIC_MAINNET;
     Some BNB_MAINNET; Some BNB_MAINNET].
Proof.
  split; [reflexivity|].
  destruct (X8_evm_scan_requests evm_sample offline_world empty_store eq_refl) as [-> _].
  reflexivity.
Defined.

(** X9: a probe reports success exactly when its requests resolved and the
    answer holds the property the probe reads; a successful result carries
    the balance, the name and the symbol that the results text reads. *)
Theorem X9_probe_success (p : probe) (address : jsstring) (w : world) (σ : store) :
  configured p ->
  exists r l, run_probe p address w σ = (Ret r, σ, l) /\
    (success r = true <-> usable_answer w p address) /\
    (success r = true ->
     is_Some (balance r) /\ is_Some (name r) /\ is_Some (symbol r)).
Proof.
  destruct p as [chain| |]; intros Hc; cbn [run_probe usable_answer].
  - destruct (configured_lookup chain (process_env w) Hc) as [cfg Hcfg].
    unfold getEVMWalletData, promise_both. unfold_M. rewrite Hcfg. cbn.
    destruct (getBalance w (settings cfg) address) as [b|e1] eqn:Hb;
      destruct (getTokensForOwner w (settings cfg) address) as [[[toks|]]|e2] eqn:Ht;
      cbn; do 2 eexists; (split; [reflexivity|]);
      cbn [success balance name symbol failed_data].
    all: split; [split; [try done | try (intros (? & ? & ? & [= <-] & ? & ?); congruence)]
                | try done].
    all: try (intros _; by exists cfg, b, toks).
    all: try (intros _; by repeat split).
  - unfold getBTCWalletData. unfold_M.
    destruct (axios_get w (btc_explorerUrl ++ address)) as [[[stats|] bs tc]|e] eqn:Hg;
      cbn; do 2 eexists; (split; [reflexivity|]);
      cbn [success balance name symbol failed_data].
    all: split; [split; [try done | try (intros (? & ? & ? & ?); simplify_eq/=; congruence)] | try done].
    all: try (intros _; by do 2 eexists).
    all: try (intros _; by repeat split).
  - unfold getXRPWalletData. unfold_M.
    destruct (axios_get w (xrp_explorerUrl ++ address ++ js "/balances"))
      as [[cs [bs|] tc]|e] eqn:Hg;
      cbn; do 2 eexists; (split; [reflexivity|]);
      cbn [success balance name symbol failed_data].
    all: split; [split; [try done | try (intros (? & ? & ? & ?); simplify_eq/=; congruence)] | try done].
    all: try (intros _; by do 2 eexists).
    all: try (intros _; by repeat split).
Qed.

(** the Bitcoin probe while its provider cannot be reached *)
Lemma X9_probe_success_witness :
  configured BtcProbe /\
  exists r l, run_probe BtcProbe bech32_sample offline_world empty_store
              = (Ret r, empty_store, l) /\
    (success r = true <-> usable_answer offline_world BtcProbe bech32_sample).
Proof.
  split; [exact I|].
  destruct (X9_probe_success BtcProbe bech32_sample offline_world empty_store I)
    as (r & l & Hrun & Hiff & _).
  exists r, l. split; [exact Hrun | exact Hiff].
Defined.

(** ** The submission relay in general (lines 285-327) *)

Lemma retry_log_S (post : effect) (d : Z) (n : nat) :
  retry_log post d (S n) = post :: SetTimeout (d * 2) :: retry_log post (d * 2) n.
Proof.
  unfold retry_log. cbn [seq flat_map app]. do 2 f_equal.
  rewrite <- seq_shift, flat_map_concat_map, map_map, <- flat_map_concat_map.
  apply flat_map_ext. intros k. do 3 f_equal.
  rewrite !Nat2Z.inj_succ, !Z.pow_succ_r by lia. lia.
Qed.

Lemma not_rate_limited_Ret (w : world) (bot : bot_config) (data : formData) (k : nat)
    (status : Z) :
  axios_post w k (formcarryUrl bot) (formcarryToken bot) data = Ret status ->
  ~ rate_limited w bot data k.
Proof. intros H (e & He & _). congruence. Qed.

(** X5: when the chat takes the notice, a submission is, whatever Formcarry
    answers, a run of rate-limited requests, at most as many as there are
    retries, each followed by the timer of its retry, the k-th timer set to
    [d * 2 ^ (k + 1)]; then one last request and exactly one notice, which is
    the follow-up text exactly when that request was answered with status
    200. The call returns normally and leaves the store as it was. *)
Theorem X5_relay_shape (bot : bot_config) (chatId : Z) (data : formData)
    (attempt retries : nat) (d : Z) (w : world) (σ : store) :
  (forall m, telegram w (sendMessage_call chatId m) = None) ->
  let post := HttpPost (formcarryUrl bot) (formcarryToken bot) data in
  let answer k := axios_post w k (formcarryUrl bot) (formcarryToken bot) data in
  exists n,
    (n <= retries)%nat /\
    (forall k, (k < n)%nat -> rate_limited w bot data (attempt + k)) /\
    ((n < retries)%nat -> ~ rate_limited w bot data (attempt + n)) /\
    sendToFormcarry bot chatId data attempt retries d w σ =
      (Ret tt, σ,
       retry_log post d n ++
       [post; Telegram (sendMessage_call chatId (notice_of (answer (attempt + n)%nat)))]).
Proof.
  intros Hup post answer. revert attempt d.
  induction retries as [|r IH]; intros attempt d.
  - exists 0%nat. rewrite Nat.add_0_r. cbn [sendToFormcarry retry_log seq flat_map app].
    unfold axios_post_form, sendMessage, call_telegram. unfold_M. subst answer. cbv beta.
    do 3 (split; [lia|]).
    destruct (axios_post w attempt _ _ data) as [status|e]; cbn [notice_of].
    + case_bool_decide; cbv beta iota; by rewrite Hup.
    + destruct (bool_decide _); cbv beta iota; by rewrite Hup.
  - cbn [sendToFormcarry].
    unfold axios_post_form, sendMessage, call_telegram at 1 2. unfold_M.
    destruct (axios_post w attempt (formcarryUrl bot) (formcarryToken bot) data)
      as [status|e] eqn:Hans.
    + exists 0%nat. rewrite Nat.add_0_r. subst answer. cbv beta. rewrite Hans.
      split; [lia|]. split; [lia|].
      split; [intros _; by eapply not_rate_limited_Ret|].
      cbn [notice_of]. case_bool_decide; cbv beta iota; by rewrite Hup.
    + cbv beta iota. case_bool_decide as Hst.
      * destruct (IH (S attempt) (d * 2)) as (n & Hn & Hlim & Hlast & Hrun).
        exists (S n). split; [lia|]. split; [|split].
        -- intros [|k] Hk.
           ++ rewrite Nat.add_0_r. by exists e.
           ++ rewrite Nat.add_succ_r. apply Hlim. lia.
        -- intros Hlt. rewrite Nat.add_succ_r. apply Hlast. lia.
        -- unfold setTimeout_inline, detached. unfold_M. rewrite Hrun.
           rewrite retry_log_S, Nat.add_succ_r. reflexivity.
      * exists 0%nat. rewrite Nat.add_0_r. subst answer. cbv beta. rewrite Hans.
        split; [lia|]. split; [lia|].
        split; [intros _ (e' & He' & Hst'); congruence|].
        cbn [notice_of]. unfold call_telegram. by rewrite Hup.
Qed.

(** a submission while Formcarry answers every request with status 429 *)
Lemma X5_relay_shape_witness :
  (forall m, telegram throttled_world (sendMessage_call sample_chat m) = None) /\
  exists n,
    (n <= 3)%nat /\
    sendToFormcarry sample_bot sample_chat sample_form 0 3 1000 throttled_world empty_store =
      (Ret tt, empty_store,
       retry_log (HttpPost (formcarryUrl sample_bot) (formcarryToken sample_bot) sample_form)
         1000 n ++
       [HttpPost (formcarryUrl sample_bot) (formcarryToken sample_bot) sample_form;
        Telegram (sendMessage_call sample_chat MsgOops)]).
Proof.
  split; [reflexivity|].
  destruct (X5_relay_shape sample_bot sample_chat sample_form 0 3 1000 throttled_world
              empty_store (fun m => eq_refl)) as (n & Hn & _ & _ & Hrun).
  exists n. split; [exact Hn|]. exact Hrun.
Defined.

(** X6: when Formcarry has answered and the chat transport rejects the
    notice, the rejection is handled like a failed request: the failure text
    is sent in its place, unless the rejection carries status 429 and a
    retry is left, in which case the same object is posted again after the
    timer. *)
Theorem X6_rejected_notice (bot : bot_config) (chatId : Z) (data : formData)
    (attempt retries : nat) (d : Z) (w : world) (σ : store) (status : Z) (e : js_error) :
  let post := HttpPost (formcarryUrl bot) (formcarryToken bot) data in
  let notice := sendMessage_call chatId (notice_of (Ret status)) in
  axios_post w attempt (formcarryUrl bot) (formcarryToken bot) data = Ret status ->
  telegram w notice = Some e ->
  (err_response_status e <> Some 429 \/ retries = 0%nat ->
   effects_of (sendToFormcarry bot chatId data attempt retries d w σ) =
     [post; Telegram notice; Telegram (sendMessage_call chatId MsgOops)]) /\
  (forall r, err_response_status e = Some 429 -> retries = S r ->
   effects_of (sendToFormcarry bot chatId data attempt retries d w σ) =
     [post; Telegram notice; SetTimeout (d * 2)] ++
     effects_of (sendToFormcarry bot chatId data (S attempt) r (d * 2) w σ) /\
   exists l, effects_of (sendToFormcarry bot chatId data (S attempt) r (d * 2) w σ)
             = post :: l).
Proof.
  intros post notice Hans Hrej.
  assert (Hbody : forall hd : js_error -> M unit,
            try_catch (status0 <- axios_post_form attempt bot data ;;
                       if bool_decide (status0 = 200)
                       then sendMessage chatId MsgFollowUp
                       else sendMessage chatId MsgOops) hd w σ =
            match hd e w σ with
            | (o, σ', l) => (o, σ', [post; Telegram notice] ++ l)
            end).
  { intros hd. unfold axios_post_form, sendMessage, call_telegram. unfold_M.
    rewrite Hans. cbv beta iota. subst notice. cbn [notice_of] in *.
    case_bool_decide; cbv beta iota; rewrite Hrej; reflexivity. }
  split.
  - intros Hcase. destruct retries as [|r]; cbn [sendToFormcarry]; rewrite Hbody.
    + unfold effects_of. by destruct (bool_decide _).
    + destruct Hcase as [Hne|]; [|done].
      rewrite bool_decide_eq_false_2 by done. reflexivity.
  - intros r Hst ->. cbn [sendToFormcarry]. rewrite Hbody.
    rewrite bool_decide_eq_true_2 by done. split.
    + unfold setTimeout_inline. unfold_M.
      pose proof (effects_detached (sendToFormcarry bot chatId data (S attempt) r (d * 2))
                    w σ) as Hd.
      unfold effects_of in *.
      destruct (detached _ w σ) as [[o' σ'] l']. simpl in *. by subst.
    + destruct (relay_first_post bot chatId data (S attempt) r (d * 2)) as [Hs _].
      apply Hs.
Qed.

(** a submission that Formcarry accepts while the chat transport rejects
    every call with status 429: the object is posted a second time *)
Lemma X6_rejected_notice_witness :
  let post := HttpPost (formcarryUrl sample_bot) (formcarryToken sample_bot) sample_form in
  axios_post muted_world 0 (formcarryUrl sample_bot) (formcarryToken sample_bot) sample_form
    = Ret 200 /\
  telegram muted_world (sendMessage_call sample_chat MsgFollowUp) = Some too_many_requests /\
  exists l,
    effects_of (sendToFormcarry sample_bot sample_chat sample_form 0 3 1000
                  muted_world empty_store) =
      [post; Telegram (sendMessage_call sample_chat MsgFollowUp); SetTimeout 2000; post] ++ l.
Proof.
  intros post. do 2 (split; [reflexivity|]).
  destruct (X6_rejected_notice sample_bot sample_chat sample_form 0 3 1000 muted_world
              empty_store 200 too_many_requests eq_refl eq_refl) as [_ H].
  destruct (H 2%nat eq_refl eq_refl) as (Hrun & l & Hl).
  exists l. rewrite Hrun, Hl. reflexivity.
Defined.

(** ** The handlers on any session (lines 406-906) *)

Lemma detached_run (m : M unit) (w : world) (σ : store) :
  detached m w σ = (Ret tt, state_of (m w σ), effects_of (m w σ)).
Proof.
  unfold detached, try_catch, ret, state_of, effects_of.
  destruct (m w σ) as [[[[]|e] σ1] l1]; simpl; [done | by rewrite app_nil_r].
Qed.

Lemma state_bind {A B} (m : M A) (k : A -> M B) (a : A) (σ1 : store) (l1 : list effect)
    (w : world) (σ : store) :
  m w σ = (Ret a, σ1, l1) -> state_of (bind m k w σ) = state_of (k a w σ1).
Proof. unfold bind, state_of. intros ->. by destruct (k a w σ1) as [[o σ2] l2]. Qed.

Lemma state_bind_detached {B} (m : M unit) (k : M B) (w : world) (σ : store) :
  state_of ((detached m ;;; k) w σ) = state_of (k w (state_of (m w σ))).
Proof.
  unfold bind. rewrite detached_run. unfold state_of.
  by destruct (k w _) as [[o σ2] l2].
Qed.

Lemma message_state (w : world) (bot : bot_config) (chatId fromId : Z)
    (text : option jsstring) (σ : store) :
  after w (Deliver bot (Message chatId fromId text)) σ =
    let σ1 := state_of (on_message bot chatId text w σ) in
    match text with
    | Some t => if occurs (js "/start") t
                then state_of (on_start chatId fromId w σ1) else σ1
    | None => σ1
    end.
Proof.
  unfold after, loop_step, dispatch.
  pose proof (@state_bind_detached unit (on_message bot chatId text)) as H.
  unfold state_of in *.
  match goal with |- (match ?k w σ with _ => _ end).1 = _ =>
    transitivity ((k w σ).1.2); [by destruct (k w σ) as [[o σ'] l]|]
  end.
  rewrite H. destruct text as [t|]; [destruct (occurs _ t)|]; cbv zeta;
    try reflexivity.
  by rewrite detached_run.
Qed.

Lemma ensureUserData_run (chatId : Z) (w : world) (σ : store) :
  exists user σ1,
    ensureUserData chatId w σ = (Ret user, σ1, []) /\
    userData σ1 !! chatId = Some user /\
    match userData σ !! chatId with
    | Some _ => σ1 = σ
    | None => user = length (heap σ) /\
              σ1 = with_new_session chatId (session_id w 0 chatId) σ
    end.
Proof.
  unfold ensureUserData, userData_get, bind.
  destruct (userData σ !! chatId) as [user|] eqn:Hu.
  - exists user, σ. by repeat split.
  - do 2 eexists. split; [reflexivity|]. split; [|by split].
    simpl. apply lookup_insert_eq.
Qed.

Lemma generateSessionId_run (k : nat) (userId : Z) (w : world) (σ : store) :
  generateSessionId k userId w σ = (Ret (session_id w k userId), σ, []).
Proof. reflexivity. Qed.

(** the [/start] handler when the chat takes its animation *)
Lemma on_start_run (chatId fromId : Z) (w : world) (σ : store) :
  transport_up w ->
  state_of (on_start chatId fromId w σ) =
    let σ1 := state_of (ensureUserData chatId w σ) in
    with_pending (pending σ1 ++ [StartFinal chatId (session_id w 1 fromId)]) σ1.
Proof.
  intros Hup. destruct (ensureUserData_run chatId w σ) as (user & σ1 & Hrun & _).
  unfold on_start. rewrite (state_bind _ _ _ _ _ _ _ Hrun).
  rewrite (bind_ret_run _ _ _ _ _ (generateSessionId_run 1 fromId w σ1)).
  rewrite Hrun. cbv zeta. unfold state_of at 2. cbn [fst snd].
  unfold_store. unfold_M. unfold state_of. cbn [for_each]. unfold_M.
  by rewrite !Hup.
Qed.

Lemma run_StartFinal (chatId : Z) (sid : jsstring) (w : world) (σ : store) :
  transport_up w ->
  state_of (run_task (StartFinal chatId sid) w σ) = with_new_session chatId sid σ.
Proof.
  intros Hup. unfold run_task. unfold_store. unfold_M. unfold state_of.
  by rewrite !Hup.
Qed.

Lemma session_of_new (chatId : Z) (sid : jsstring) (σ : store) :
  session_of chatId (with_new_session chatId sid σ) = Some (new_session sid).
Proof.
  unfold session_of, with_new_session. simpl. rewrite lookup_insert_eq. simpl.
  by rewrite list_lookup_middle.
Qed.

(** X10: a message whose text holds [/start] ends, whatever the state of
    the chat and whatever else the text holds, with a timer as the last
    pending continuation; when that timer runs, the chat has a new session
    that is choosing its option, without option, wallet or method, and
    whose identifier is made of the second draw and of the sender's id. *)
Theorem X10_start_resets_session (bot : bot_config) (chatId fromId : Z) (text : jsstring)
    (w w' : world) (σ : store) :
  occurs (js "/start") text = true -> transport_up w -> transport_up w' ->
  let sid := session_id w 1 fromId in
  let σ1 := after w (Deliver bot (Message chatId fromId (Some text))) σ in
  exists ps,
    pending σ1 = ps ++ [StartFinal chatId sid] /\
    session_of chatId (after w' (Fire (length ps)) σ1) = Some (new_session sid).
Proof.
  intros Hocc Hup Hup' sid σ1. subst σ1. rewrite message_state. cbv zeta.
  rewrite Hocc, on_start_run by done. cbv zeta.
  eexists. split; [reflexivity|].
  erewrite fire_last by reflexivity.
  rewrite run_StartFinal by done. apply session_of_new.
Qed.

(** [/start] on a session that is providing its private key *)
Lemma X10_start_resets_session_witness :
  let σ := sample_store (sample_session providing_input (Some private_key)) in
  let σ1 := after offline_world
              (Deliver sample_bot (Message sample_chat 7000042 (Some (js "/start")))) σ in
  occurs (js "/start") (js "/start") = true /\ transport_up offline_world /\
  exists ps,
    pending σ1 = ps ++ [StartFinal sample_chat (js "TRUST-9f3a7c1e-0042")] /\
    session_of sample_chat (after offline_world (Fire (length ps)) σ1)
      = Some (new_session (js "TRUST-9f3a7c1e-0042")).
Proof.
  intros σ σ1. split; [reflexivity|].
  assert (Hup : transport_up offline_world) by (intros c; reflexivity).
  split; [exact Hup|].
  exact (X10_start_resets_session sample_bot sample_chat 7000042 (js "/start")
           offline_world offline_world σ eq_refl Hup Hup).
Defined.

(** X11: the callback handler never reads the step. On a session at any
    step the restart button changes nothing; the import button resets the
    step only, so that option, wallet address, address type and method of
    the round before stay in the session; the skip button sets
    ['awaiting_auth'], on a session that has its option, and on one without
    option its handler sets that step and then raises a TypeError, having
    sent nothing; a button that is none of the five reserved tokens is
    recorded as the option and sets ['awaiting_address']; an authentication
    button changes nothing at first and, once its timer has run, has set the
    method and ['providing_input']. *)
Theorem X11_buttons_ignore_step (bot : bot_config) (chatId : Z) (user : nat)
    (s : session) (w : world) (σ : store) :
  userData σ !! chatId = Some user -> heap σ !! user = Some s ->
  let press data :=
    session_of chatId (after w (Deliver bot (CallbackQuery chatId data)) σ) in
  press restart_bot = Some s /\
  press import_another_wallet = Some (set_step choosing_option s) /\
  (forall opt, user_option s = Some opt ->
     press skip_scan = Some (set_step awaiting_auth s)) /\
  (user_option s = None ->
     on_callback_query chatId skip_scan w σ =
       (Throw TypeError, with_heap (alter (set_step awaiting_auth) user (heap σ)) σ, [])) /\
  (forall data, data ∉ reserved_tokens ->
     press data = Some (set_step awaiting_address (set_option data s))) /\
  (forall data, data = private_key \/ data = seed_phrase ->
     press data = Some s /\
     forall w', transport_up w -> transport_up w' ->
       session_of chatId
         (exec [(w, Deliver bot (CallbackQuery chatId data));
                (w', Fire (length (pending σ)))] σ)
         = Some (set_step providing_input (set_authMethod data s))).
Proof.
  intros Hu Hs press. subst press. cbv beta.
  assert (Hsess : session_of chatId σ = Some s) by (apply session_of_Some; eauto).
  split; [|split; [|split; [|split; [|split]]]].
  - by rewrite callback_state, (callback_restart_state _ user).
  - rewrite callback_state, (callback_import_state _ user) by done.
    by rewrite (session_of_alter _ _ s).
  - intros opt _. rewrite callback_state.
    destruct (skip_scan_run chatId user s w σ Hu Hs) as [-> _].
    by rewrite (session_of_alter _ _ s).
  - intros Hopt. by rewrite (skip_scan_outcome chatId user s w σ Hu Hs), Hopt.
  - intros data Hd. rewrite callback_state, (callback_option_state _ _ user) by done.
    by rewrite (session_of_alter _ _ s).
  - intros data Hd. rewrite callback_state.
    destruct (callback_auth_state chatId data user w σ Hu Hd) as (Hh & Hdata & Hp).
    split; [by rewrite (session_of_same _ _ _ Hh Hdata)|].
    intros w' Hup Hup'. cbn [exec].
    fold (after w (Deliver bot (CallbackQuery chatId data)) σ).
    rewrite callback_state, (Hp Hup).
    fold (after w' (Fire (length (pending σ)))
            (with_pending (pending σ ++ [AuthReady chatId data]) σ)).
    rewrite (fire_last _ _ (pending σ) (AuthReady chatId data)) by done.
    rewrite (run_AuthReady _ _ user) by done.
    by rewrite (session_of_alter _ _ s).
Qed.

(** the import button and an option button on a session that is providing
    its seed phrase *)
Lemma X11_buttons_ignore_step_witness :
  let u := sample_session providing_input (Some seed_phrase) in
  let σ := sample_store u in
  let press data :=
    session_of sample_chat
      (after offline_world (Deliver sample_bot (CallbackQuery sample_chat data)) σ) in
  userData σ !! sample_chat = Some 0%nat /\ heap σ !! 0%nat = Some u /\
  press import_another_wallet = Some (set_step choosing_option u) /\
  press (js "bridge_err") = Some (set_step awaiting_address (set_option (js "bridge_err") u)).
Proof.
  intros u σ press. do 2 (split; [reflexivity|]).
  destruct (X11_buttons_ignore_step sample_bot sample_chat 0 u offline_world σ
              eq_refl eq_refl) as (_ & Himport & _ & _ & Hoption & _).
  split; [exact Himport|]. apply Hoption.
  unfold reserved_tokens. rewrite !not_elem_of_cons.
  repeat split; try neq_js. apply not_elem_of_nil.
Defined.

(** *** Address input (lines 720-863) *)

Lemma in_trimEnd (c : N) (s : jsstring) : c ∈ s -> is_space c = true \/ c ∈ trimEnd s.
Proof.
  induction s as [|d t IH]; [by intros ?%elem_of_nil|].
  rewrite elem_of_cons. simpl. intros [->|Hin].
  - destruct (trimEnd t); [|right; by left].
    destruct (is_space d); [by left | right; by left].
  - destruct (IH Hin) as [?|Hin']; [by left|]. right.
    destruct (trimEnd t); [by apply elem_of_nil in Hin' | by right].
Qed.

Lemma in_trimStart (c : N) (s : jsstring) : c ∈ s -> is_space c = true \/ c ∈ trimStart s.
Proof.
  induction s as [|d t IH]; [by intros ?%elem_of_nil|].
  rewrite elem_of_cons. simpl. destruct (is_space d) eqn:Hd.
  - intros [->|Hin]; [by left | by apply IH].
  - intros H. right. by apply elem_of_cons.
Qed.

Lemma in_trim (c : N) (s : jsstring) : c ∈ s -> is_space c = true \/ c ∈ trim s.
Proof.
  intros Hin. destruct (in_trimEnd c s Hin) as [?|Hin']; [by left|].
  by apply in_trimStart.
Qed.

Lemma occurs_head (c : N) (pat s : jsstring) : occurs (c :: pat) s = true -> c ∈ s.
Proof.
  induction s as [|d t IH]; simpl; [done|].
  destruct (N.eqb c d) eqn:Hcd.
  - apply N.eqb_eq in Hcd as ->. intros _. by left.
  - intros H. right. by apply IH.
Qed.

(** a text that holds an address holds no [/start] *)
Lemma classified_no_command (raw : jsstring) (ty : address_type) :
  identifyAddressType (trim raw) = Some ty -> occurs (js "/start") raw = false.
Proof.
  intros Hty. destruct (occurs (js "/start") raw) eqn:Hocc; [exfalso|done].
  apply occurs_head, in_trim in Hocc as [Hsp|Hin]; [by vm_compute in Hsp|].
  apply classified_shape in Hty as [_ Hall].
  rewrite Forall_forall in Hall. specialize (Hall _ Hin).
  unfold alnum_char in Hall. vm_compute in Hall. 
  destruct Hall as [[H1 H2]|[[H1 H2]|[H1 H2]]]; first [by apply H1 | by apply H2].
Qed.

(** the scan of a classified address succeeds with some data, whatever the
    providers answer *)
Lemma scanAddress_classified (address : jsstring) (ty : address_type) (w : world)
    (σ : store) :
  identifyAddressType address = Some ty ->
  exists data l,
    scanAddress address w σ =
      (Ret {| scan_success := true; scan_error := None; scan_data := Some data |}, σ, l).
Proof.
  intros Hty. destruct ty.
  - destruct (scanAddress_evm address w σ Hty)
      as (r1 & r2 & r3 & l1 & l2 & l3 & _ & _ & _ & ->). eauto.
  - unfold scanAddress, scanAddress_with. rewrite Hty. unfold fan_out. unfold_M.
    destruct (getBTCWalletData_run address w σ) as (r & -> & _). eauto.
  - unfold scanAddress, scanAddress_with. rewrite Hty. unfold fan_out. unfold_M.
    destruct (getXRPWalletData_run address w σ) as (r & -> & _). eauto.
Qed.

(** the progress animation ends normally even when its edits are rejected *)
Lemma progress_run (chatId : Z) (stages : list Z) (w : world) (σ : store) :
  exists l, for_each stages (fun stage => sleep 10000 ;;; updateProgress chatId stage) w σ
            = (Ret tt, σ, l).
Proof.
  induction stages as [|stage rest [l IH]]; [by eexists|].
  assert (Hstage : exists l', (sleep 10000 ;;; updateProgress chatId stage) w σ
                              = (Ret tt, σ, l')).
  { unfold updateProgress, editMessageText, call_telegram, sleep. unfold_M.
    destruct (telegram w _); by eexists. }
  destruct Hstage as [l' Hstage].
  cbn [for_each]. unfold bind at 1. rewrite Hstage, IH. by eexists.
Qed.

Lemma on_message_address (bot : bot_config) (chatId : Z) (user : nat) (s : session)
    (raw : jsstring) (ty : address_type) (w : world) (σ : store) :
  userData σ !! chatId = Some user -> heap σ !! user = Some s ->
  step s = awaiting_address -> identifyAddressType (trim raw) = Some ty ->
  on_message bot chatId (Some raw) w σ =
    (sendMessage chatId (MsgScanning 25) ;;;
     await_then (ScanRun chatId user (trim raw) ty)) w σ.
Proof.
  intros Hu Hs Hstep Hty. unfold on_message.
  rewrite (bind_ret_run _ _ _ _ _ (ensureUserData_existing _ _ w σ Hu)).
  rewrite (bind_ret_run (read user) _ s) by (unfold read; by rewrite Hs).
  rewrite Hstep. cbn [fmap option_fmap option_map ToString]. rewrite Hty.
  by erewrite bind_ret_run by reflexivity.
Qed.

Lemma run_ScanRun (chatId : Z) (user : nat) (u : session) (opt text : jsstring)
    (ty : address_type) (w : world) (σ : store) :
  identifyAddressType text = Some ty ->
  heap σ !! user = Some u -> user_option u = Some opt ->
  telegram w (deleteMessage_call chatId) = None ->
  (forall m, telegram w (sendMessage_call chatId m) = None) ->
  exists data l,
    run_task (ScanRun chatId user text ty) w σ =
      (Ret tt, with_pending (pending σ ++ [ScanCommit user text ty]) σ,
       l ++ [Telegram (deleteMessage_call chatId);
             Telegram (sendMessage_call chatId (MsgScanResults opt text ty data))]).
Proof.
  intros Hty Hu Hopt Hdel Hsend.
  destruct (scanAddress_classified text ty w σ Hty) as (data & l & Hscan).
  destruct (progress_run chatId [40; 60; 80; 100] w σ) as (l' & Hprog).
  exists data, (l ++ l'). unfold run_task.
  unfold try_catch, bind at 1. rewrite Hscan. cbn [scan_success scan_data].
  unfold bind at 1. unfold ret at 1. unfold bind at 1. unfold require at 1.
  unfold ret at 1. unfold bind at 1. rewrite Hprog.
  unfold_store. unfold_M. rewrite Hdel, Hu. cbv beta iota. rewrite Hopt.
  unfold ret. cbv beta iota. rewrite Hsend. cbn [app]. rewrite ?app_nil_r, <- ?app_assoc.
  reflexivity.
Qed.

Lemma run_ScanCommit (user : nat) (text : jsstring) (ty : address_type)
    (w : world) (σ : store) :
  run_task (ScanCommit user text ty) w σ =
    (Ret tt,
     with_heap (alter (fun u => set_wallet text ty (set_step awaiting_auth u)) user (heap σ)) σ,
     []).
Proof. reflexivity. Qed.

Lemma with_pending_reset (ps : list task) (σ : store) :
  with_pending (pending σ) (with_pending ps σ) = σ.
Proof. by destruct σ. Qed.

Lemma exec_cons (w : world) (lab : label) (rest : list (world * label)) (σ : store) :
  exec ((w, lab) :: rest) σ = exec rest (after w lab σ).
Proof. reflexivity. Qed.

(** the message handler on an address: the scan is left pending *)
Lemma deliver_address (bot : bot_config) (chatId fromId : Z) (user : nat) (s : session)
    (raw : jsstring) (ty : address_type) (w : world) (σ : store) :
  userData σ !! chatId = Some user -> heap σ !! user = Some s ->
  step s = awaiting_address -> identifyAddressType (trim raw) = Some ty ->
  telegram w (sendMessage_call chatId (MsgScanning 25)) = None ->
  after w (Deliver bot (Message chatId fromId (Some raw))) σ =
    with_pending (pending σ ++ [ScanRun chatId user (trim raw) ty]) σ.
Proof.
  intros Hu Hs Hstep Hty Hsend. rewrite message_state. cbv zeta.
  rewrite (classified_no_command raw ty Hty).
  rewrite (on_message_address bot chatId user s raw ty w σ Hu Hs Hstep Hty).
  unfold_store. unfold_M. unfold state_of. by rewrite Hsend.
Qed.

(** X12: an address of a known family, sent by a session that awaits its
    address and has its option, is recorded whatever the providers answer
    and even when the edits of the progress animation are rejected: the
    session stays as it is while the scan runs and, once the results text
    has been taken by the chat and the continuation has run, holds the
    trimmed text as [walletAddress], its family as [addressType], and the
    step ['awaiting_auth']. *)
Theorem X12_address_is_recorded (bot : bot_config) (chatId fromId : Z) (user : nat)
    (s : session) (opt raw : jsstring) (ty : address_type) (w0 w1 w2 : world)
    (σ : store) :
  userData σ !! chatId = Some user -> heap σ !! user = Some s ->
  step s = awaiting_address -> user_option s = Some opt ->
  identifyAddressType (trim raw) = Some ty ->
  telegram w0 (sendMessage_call chatId (MsgScanning 25)) = None ->
  telegram w1 (deleteMessage_call chatId) = None ->
  (forall m, telegram w1 (sendMessage_call chatId m) = None) ->
  let deliver := (w0, Deliver bot (Message chatId fromId (Some raw))) in
  let timer w := (w, Fire (length (pending σ))) in
  session_of chatId (exec [deliver] σ) = Some s /\
  session_of chatId (exec [deliver; timer w1] σ) = Some s /\
  session_of chatId (exec [deliver; timer w1; timer w2] σ)
    = Some (set_wallet (trim raw) ty (set_step awaiting_auth s)).
Proof.
  intros Hu Hs Hstep Hopt Hty Hsend Hdel Hsend1 deliver timer.
  assert (Hsess : session_of chatId σ = Some s) by (apply session_of_Some; eauto).
  subst deliver timer. cbv beta. rewrite !exec_cons. cbn [exec].
  rewrite (deliver_address bot chatId fromId user s raw ty w0 σ) by done.
  split; [exact Hsess|].
  rewrite (fire_last _ _ (pending σ) (ScanRun chatId user (trim raw) ty)) by done.
  rewrite with_pending_reset.
  destruct (run_ScanRun chatId user s opt (trim raw) ty w1 σ Hty Hs Hopt Hdel Hsend1)
    as (data & l & Hrun).
  rewrite Hrun. unfold state_of at 1 2. cbn [fst snd].
  split; [exact Hsess|].
  rewrite (fire_last _ _ (pending σ) (ScanCommit user (trim raw) ty)) by done.
  rewrite with_pending_reset, run_ScanCommit. unfold state_of. cbn [fst snd].
  by rewrite (session_of_alter _ _ s).
Qed.

(** an EVM address, with white space around it, while no provider can be
    reached *)
Lemma X12_address_is_recorded_witness :
  let u := sample_session awaiting_address None in
  let σ := sample_store u in
  let raw := js " " ++ evm_sample ++ js "  " in
  userData σ !! sample_chat = Some 0%nat /\ heap σ !! 0%nat = Some u /\
  step u = awaiting_address /\ user_option u = Some (js "claim") /\
  identifyAddressType (trim raw) = Some evm /\
  transport_up offline_world /\
  session_of sample_chat
    (exec [(offline_world, Deliver sample_bot (Message sample_chat sample_chat (Some raw)));
           (offline_world, Fire 0); (offline_world, Fire 0)] σ)
  = Some (set_wallet evm_sample evm (set_step awaiting_auth u)).
Proof.
  intros u σ raw. do 5 (split; [reflexivity|]).
  split; [intros c; reflexivity|].
  destruct (X12_address_is_recorded sample_bot sample_chat sample_chat 0 u (js "claim")
              raw evm offline_world offline_world offline_world σ
              eq_refl eq_refl eq_refl eq_refl eq_refl eq_refl eq_refl (fun m => eq_refl))
    as (_ & _ & H).
  exact H.
Defined.

(** X13: on a session that awaits its address, a text of no known family,
    and likewise a message without text, is answered with the
    invalid-address text alone: no provider is called, nothing is left
    pending and the session stays as it is. *)
Theorem X13_unrecognised_address (bot : bot_config) (chatId : Z) (user : nat)
    (s : session) (text : option jsstring) (w : world) (σ : store) :
  userData σ !! chatId = Some user -> heap σ !! user = Some s ->
  step s = awaiting_address ->
  text = None \/ (exists raw, text = Some raw /\ identifyAddressType (trim raw) = None) ->
  exists o, on_message bot chatId text w σ =
              (o, σ, [Telegram (sendMessage_call chatId MsgInvalidAddress)]).
Proof.
  intros Hu Hs Hstep Htext. unfold on_message.
  rewrite (bind_ret_run _ _ _ _ _ (ensureUserData_existing _ _ w σ Hu)).
  rewrite (bind_ret_run (read user) _ s) by (unfold read; by rewrite Hs).
  rewrite Hstep.
  assert (Hty : identifyAddressType (ToString (trim <$> text)) = None).
  { destruct Htext as [->|(raw & -> & Hty)]; [reflexivity | exact Hty]. }
  rewrite Hty. by eexists.
Qed.

(** a key sent where an address is awaited, and a message without text *)
Lemma X13_unrecognised_address_witness :
  let u := sample_session awaiting_address None in
  let σ := sample_store u in
  userData σ !! sample_chat = Some 0%nat /\ heap σ !! 0%nat = Some u /\
  step u = awaiting_address /\ identifyAddressType (trim key_64) = None /\
  (exists o, on_message sample_bot sample_chat (Some key_64) offline_world σ =
               (o, σ, [Telegram (sendMessage_call sample_chat MsgInvalidAddress)])) /\
  (exists o, on_message sample_bot sample_chat None offline_world σ =
               (o, σ, [Telegram (sendMessage_call sample_chat MsgInvalidAddress)])).
Proof.
  intros u σ. do 4 (split; [reflexivity|]). split.
  - apply (X13_unrecognised_address sample_bot sample_chat 0 u (Some key_64)
             offline_world σ eq_refl eq_refl eq_refl).
    right. exists key_64. split; reflexivity.
  - apply (X13_unrecognised_address sample_bot sample_chat 0 u None
             offline_world σ eq_refl eq_refl eq_refl).
    by left.
Defined.

(** *** Continuations that find the session gone or replaced *)

(** X14: a message without text to a session that is providing its input
    raises in the handler before anything is sent: no reply, no request,
    and the store stays as it is. *)
Theorem X14_credential_without_text (bot : bot_config) (chatId fromId : Z) (user : nat)
    (s : session) (w : world) (σ : store) :
  userData σ !! chatId = Some user -> heap σ !! user = Some s ->
  step s = providing_input ->
  authMethod s = Some private_key \/ authMethod s = Some seed_phrase ->
  on_message bot chatId None w σ = (Throw TypeError, σ, []) /\
  loop_step w (Deliver bot (Message chatId fromId None)) σ = (σ, []).
Proof.
  intros Hu Hs Hstep Hm.
  assert (Hrun : on_message bot chatId None w σ = (Throw TypeError, σ, [])).
  { unfold on_message.
    rewrite (bind_ret_run _ _ _ _ _ (ensureUserData_existing _ _ w σ Hu)).
    rewrite (bind_ret_run (read user) _ s) by (unfold read; by rewrite Hs).
    rewrite Hstep. cbn [fmap option_fmap option_map].
    destruct Hm as [Hm|Hm]; rewrite Hm.
    - rewrite (bool_decide_eq_false_2 (Some private_key = Some seed_phrase)) by neq_js.
      rewrite (bool_decide_eq_true_2 (Some private_key = Some private_key)) by done.
      reflexivity.
    - rewrite (bool_decide_eq_true_2 (Some seed_phrase = Some seed_phrase)) by done.
      reflexivity. }
  split; [exact Hrun|].
  unfold loop_step, dispatch, bind. rewrite detached_run, Hrun. reflexivity.
Qed.

(** a message without text to a session that is providing its seed phrase *)
Lemma X14_credential_without_text_witness :
  let u := sample_session providing_input (Some seed_phrase) in
  let σ := sample_store u in
  userData σ !! sample_chat = Some 0%nat /\ heap σ !! 0%nat = Some u /\
  step u = providing_input /\ authMethod u = Some seed_phrase /\
  loop_step offline_world (Deliver sample_bot (Message sample_chat sample_chat None)) σ
    = (σ, []).
Proof.
  intros u σ. do 4 (split; [reflexivity|]).
  destruct (X14_credential_without_text sample_bot sample_chat sample_chat 0 u
              offline_world σ eq_refl eq_refl eq_refl (or_intror eq_refl)) as [_ H].
  exact H.
Defined.

(** X15: the timer of an authentication button that finds the chat without
    a session, which is what a submission leaves behind, raises after it has
    deleted the loading text: no prompt is sent, no session is made, and the
    store stays as it is. *)
Theorem X15_auth_timer_without_session (chatId : Z) (data : jsstring) (w : world)
    (σ : store) :
  userData σ !! chatId = None ->
  exists o, run_task (AuthReady chatId data) w σ
            = (Throw o, σ, [Telegram (deleteMessage_call chatId)]).
Proof.
  intros Hu. unfold run_task. unfold_store. unfold_M. rewrite Hu.
  destruct (telegram w (deleteMessage_call chatId)); by eexists.
Qed.

(** the timer of a second press of the seed-phrase button, after the phrase
    has been submitted and the entry deleted *)
Lemma X15_auth_timer_without_session_witness :
  let σ := exec [(offline_world, Deliver sample_bot (CallbackQuery sample_chat seed_phrase));
                 (offline_world, Deliver sample_bot
                                   (Message sample_chat sample_chat (Some twelve_words)));
                 (offline_world, Fire 1)]
                (sample_store (sample_session providing_input (Some seed_phrase))) in
  userData σ !! sample_chat = None /\
  pending σ = [AuthReady sample_chat seed_phrase] /\
  exists o, run_task (AuthReady sample_chat seed_phrase) offline_world σ
            = (Throw o, σ, [Telegram (deleteMessage_call sample_chat)]).
Proof.
  intros σ.
  assert (Hu : userData σ !! sample_chat = None) by (vm_compute; reflexivity).
  split; [exact Hu|]. split; [vm_compute; reflexivity|].
  exact (X15_auth_timer_without_session sample_chat seed_phrase offline_world σ Hu).
Defined.

Lemma command_not_classified (cmd : jsstring) :
  occurs (js "/start") cmd = true -> identifyAddressType (trim cmd) = None.
Proof.
  intros Hocc. destruct (identifyAddressType (trim cmd)) as [ty|] eqn:Hty; [|done].
  apply classified_no_command in Hty. congruence.
Qed.

Lemma on_message_unrecognised (bot : bot_config) (chatId : Z) (user : nat) (s : session)
    (raw : jsstring) (w : world) (σ : store) :
  userData σ !! chatId = Some user -> heap σ !! user = Some s ->
  step s = awaiting_address -> identifyAddressType (trim raw) = None ->
  state_of (on_message bot chatId (Some raw) w σ) = σ.
Proof.
  intros Hu Hs Hstep Hty. unfold on_message.
  rewrite (bind_ret_run _ _ _ _ _ (ensureUserData_existing _ _ w σ Hu)).
  rewrite (bind_ret_run (read user) _ s) by (unfold read; by rewrite Hs).
  rewrite Hstep. cbn [fmap option_fmap option_map ToString]. by rewrite Hty.
Qed.

Lemma state_ensureUserData_existing (chatId : Z) (user : nat) (w : world) (σ : store) :
  userData σ !! chatId = Some user -> state_of (ensureUserData chatId w σ) = σ.
Proof. intros Hu. by rewrite (ensureUserData_existing _ _ _ _ Hu). Qed.

(** X16: when [/start] arrives while a scan is running and its timer runs
    before the scan ends, the scan still ends on the session object it
    started from: the results are sent, but the chat's new session holds
    neither the address nor the step ['awaiting_auth']. *)
Theorem X16_restart_during_scan (bot : bot_config) (chatId fromId : Z) (user : nat)
    (s : session) (opt raw cmd : jsstring) (ty : address_type) (w0 w1 w2 w3 w4 : world)
    (σ : store) :
  userData σ !! chatId = Some user -> heap σ !! user = Some s ->
  step s = awaiting_address -> user_option s = Some opt ->
  identifyAddressType (trim raw) = Some ty -> occurs (js "/start") cmd = true ->
  transport_up w0 -> transport_up w1 -> transport_up w2 -> transport_up w3 ->
  let n := length (pending σ) in
  let σ' := exec [(w0, Deliver bot (Message chatId fromId (Some raw)));
                  (w1, Deliver bot (Message chatId fromId (Some cmd)));
                  (w2, Fire (S n)); (w3, Fire n); (w4, Fire n)] σ in
  session_of chatId σ' = Some (new_session (session_id w1 1 fromId)) /\
  heap σ' !! user = Some (set_wallet (trim raw) ty (set_step awaiting_auth s)) /\
  pending σ' = pending σ.
Proof.
  intros Hu Hs Hstep Hopt Hty Hocc Hup0 Hup1 Hup2 Hup3 n σ'.
  set (scan := ScanRun chatId user (trim raw) ty).
  set (sid := session_id w1 1 fromId).
  set (σ3 := with_new_session chatId sid σ).
  assert (Hs3 : heap σ3 !! user = Some s) by (by apply lookup_app_l_Some).
  assert (Hfinal : σ' = with_heap
                          (alter (fun u => set_wallet (trim raw) ty (set_step awaiting_auth u))
                             user (heap σ3)) σ3).
  { subst σ' n. rewrite !exec_cons. cbn [exec].
    rewrite (deliver_address bot chatId fromId user s raw ty w0 σ) by done.
    fold scan. set (σ1 := with_pending (pending σ ++ [scan]) σ).
    assert (Hσ2 : after w1 (Deliver bot (Message chatId fromId (Some cmd))) σ1 =
                  with_pending ((pending σ ++ [scan]) ++ [StartFinal chatId sid]) σ).
    { rewrite message_state. cbv zeta. rewrite Hocc.
      rewrite (on_message_unrecognised bot chatId user s cmd w1 σ1)
        by (try done; by apply command_not_classified).
      rewrite on_start_run by done. cbv zeta.
      by rewrite (state_ensureUserData_existing _ user). }
    rewrite Hσ2.
    replace (S (length (pending σ))) with (length (pending σ ++ [scan]))
      by (rewrite length_app; simpl; lia).
    rewrite (fire_last w2 _ (pending σ ++ [scan]) (StartFinal chatId sid)) by reflexivity.
    rewrite run_StartFinal by done.
    rewrite (fire_last w3 _ (pending σ) scan) by reflexivity.
    destruct (run_ScanRun chatId user s opt (trim raw) ty w3 σ3
                Hty Hs3 Hopt (Hup3 _) (fun m => Hup3 _)) as (data & l & Hrun).
    match goal with |- context [run_task scan w3 ?x] => change x with σ3 end.
    subst scan. rewrite Hrun. unfold state_of at 1. cbn [fst snd].
    rewrite (fire_last w4 _ (pending σ) (ScanCommit user (trim raw) ty)) by reflexivity.
    rewrite run_ScanCommit. unfold state_of. cbn [fst snd].
    by destruct σ. }
  rewrite Hfinal. split; [|split].
  - unfold session_of. cbn [userData heap with_heap σ3 with_new_session].
    rewrite lookup_insert_eq. cbn [mbind option_bind].
    rewrite list_lookup_alter_ne.
    + by rewrite list_lookup_middle.
    + apply lookup_lt_Some in Hs. lia.
  - cbn [heap with_heap]. rewrite list_lookup_alter_eq, Hs3. reflexivity.
  - reflexivity.
Qed.

(** [/start] sent while the scan of an EVM address is running *)
Lemma X16_restart_during_scan_witness :
  let u := sample_session awaiting_address None in
  let σ := sample_store u in
  userData σ !! sample_chat = Some 0%nat /\ heap σ !! 0%nat = Some u /\
  step u = awaiting_address /\ user_option u = Some (js "claim") /\
  identifyAddressType (trim evm_sample) = Some evm /\
  occurs (js "/start") (js "/start") = true /\ transport_up offline_world /\
  session_of sample_chat
    (exec [(offline_world, Deliver sample_bot
                             (Message sample_chat sample_chat (Some evm_sample)));
           (offline_world, Deliver sample_bot
                             (Message sample_chat sample_chat (Some (js "/start"))));
           (offline_world, Fire 1); (offline_world, Fire 0); (offline_world, Fire 0)] σ)
  = Some (new_session (js "TRUST-9f3a7c1e-42")).
Proof.
  intros u σ. do 6 (split; [reflexivity|]).
  assert (Hup : transport_up offline_world) by (intros c; reflexivity).
  split; [exact Hup|].
  destruct (X16_restart_during_scan sample_bot sample_chat sample_chat 0 u (js "claim")
              evm_sample (js "/start") evm offline_world offline_world offline_world
              offline_world offline_world σ
              eq_refl eq_refl eq_refl eq_refl eq_refl eq_refl Hup Hup Hup Hup)
    as (H & _).
  exact H.
Defined.

(** ** Invariants of the event loop *)

Lemma keeps_bind_ret {A B} (R : store -> store -> Prop) (a : A) (k : A -> M B) :
  keeps R (k a) -> keeps R (bind (ret a) k).
Proof.
  intros Hk w σ. specialize (Hk w σ). unfold bind, ret.
  by destruct (k a w σ) as [[o σ2] l2].
Qed.

(** A property of the session objects and one of the pending continuations
    that the assignments of the handlers respect hold in every store the
    event loop reaches. *)
Section Invariant.

Variable P : session -> Prop.
Variable Q : task -> Prop.

Hypothesis P_new : forall sid, P (new_session sid).
Hypothesis P_step : forall v u,
  v = choosing_option \/ v = awaiting_auth -> P u -> P (set_step v u).
Hypothesis P_option : forall data u, P u -> P (set_step awaiting_address (set_option data u)).
Hypothesis P_auth : forall chatId data u,
  Q (AuthReady chatId data) -> P u -> P (set_step providing_input (set_authMethod data u)).
Hypothesis P_wallet : forall user text ty u,
  Q (ScanCommit user text ty) -> P u -> P (set_wallet text ty (set_step awaiting_auth u)).
Hypothesis Q_start : forall chatId sid, Q (StartFinal chatId sid).
Hypothesis Q_auth : forall chatId data,
  data = private_key \/ data = seed_phrase -> Q (AuthReady chatId data).
Hypothesis Q_scan : forall chatId user text ty,
  identifyAddressType text = Some ty -> Q (ScanRun chatId user text ty).
Hypothesis Q_commit : forall chatId user text ty,
  Q (ScanRun chatId user text ty) -> Q (ScanCommit user text ty).
Hypothesis Q_submit : forall chatId, Q (SubmitDone chatId).

Local Abbreviation R := (keeps_inv P Q).

Lemma keeps_inv_refl (σ : store) : R σ σ.
Proof. by intros ?. Qed.

Lemma keeps_inv_trans (σ1 σ2 σ3 : store) : R σ1 σ2 -> R σ2 σ3 -> R σ1 σ3.
Proof. unfold keeps_inv. auto. Qed.

Lemma keeps_inv_alloc (u : session) : P u -> keeps R (alloc u).
Proof.
  intros Hu w σ [Hh Hp]. split; [|done]. simpl.
  apply Forall_app. split; [done|]. by apply Forall_singleton.
Qed.

Lemma keeps_inv_modify (user : nat) (f : session -> session) :
  (forall u, P u -> P (f u)) -> keeps R (modify user f).
Proof.
  intros Hf w σ [Hh Hp]. split; [|done]. simpl.
  apply Forall_alter; [done|]. intros u _. apply Hf.
Qed.

Lemma keeps_inv_userData_set (chatId : Z) (user : nat) : keeps R (userData_set chatId user).
Proof. by intros w σ H. Qed.

Lemma keeps_inv_userData_delete (chatId : Z) : keeps R (userData_delete chatId).
Proof. by intros w σ H. Qed.

Lemma keeps_inv_await_then (t : task) : Q t -> keeps R (await_then t).
Proof.
  intros Ht w σ [Hh Hp]. split; [done|]. simpl.
  apply Forall_app. split; [done|]. by apply Forall_singleton.
Qed.

Lemma keeps_inv_setTimeout (ms : Z) (t : task) : Q t -> keeps R (setTimeout ms t).
Proof.
  intros Ht. unfold setTimeout.
  apply keeps_bind; [exact keeps_inv_trans | apply keeps_log, keeps_inv_refl |].
  intros _. by apply keeps_inv_await_then.
Qed.

Ltac inv_tac :=
  pose proof keeps_inv_refl; pose proof keeps_inv_trans;
  repeat first
    [ keeps_step
    | apply keeps_inv_alloc | apply keeps_inv_modify | apply keeps_inv_userData_set
    | apply keeps_inv_userData_delete | apply keeps_inv_await_then
    | apply keeps_inv_setTimeout
    | apply keeps_scanAddress | apply keeps_sendToFormcarry ].

Lemma keeps_inv_ensureUserData (chatId : Z) : keeps R (ensureUserData chatId).
Proof using P_new. unfold ensureUserData. inv_tac. Qed.

Lemma keeps_inv_on_start (chatId fromId : Z) : keeps R (on_start chatId fromId).
Proof using P_new Q_start.
  pose proof keeps_inv_ensureUserData. unfold on_start. inv_tac.
Qed.

Lemma keeps_inv_on_callback_query (chatId : Z) (data : jsstring) :
  keeps R (on_callback_query chatId data).
Proof using P_new P_step P_option Q_auth.
  pose proof keeps_inv_ensureUserData.
  unfold on_callback_query. apply keeps_bind; [exact keeps_inv_trans | done |].
  intros user. do 2 (case_bool_decide; [inv_tac; auto|]).
  destruct (bool_decide (data = private_key) || bool_decide (data = seed_phrase)) eqn:Hd.
  { inv_tac. apply Q_auth. apply orb_true_iff in Hd as [Hd|Hd]; apply bool_decide_eq_true in Hd; auto. }
  case_bool_decide; inv_tac; auto.
Qed.

Lemma keeps_inv_on_message (bot : bot_config) (chatId : Z) (text : option jsstring) :
  keeps R (on_message bot chatId text).
Proof using P_new Q_scan Q_submit.
  pose proof keeps_inv_ensureUserData.
  unfold on_message. apply keeps_bind; [exact keeps_inv_trans | done |].
  intros user. apply keeps_bind; [exact keeps_inv_trans | apply keeps_read, keeps_inv_refl |].
  intros u. destruct (step u).
  - inv_tac.
  - destruct text as [raw|]; cbn [fmap option_fmap option_map].
    + cbn [ToString].
      destruct (identifyAddressType (trim raw)) as [ty|] eqn:Hty; [|inv_tac].
      apply keeps_bind_ret. inv_tac.
    + rewrite identifyAddressType_undefined. inv_tac.
  - inv_tac.
  - inv_tac; repeat case_bool_decide; inv_tac.
Qed.

Lemma keeps_inv_run_task (t : task) : Q t -> keeps R (run_task t).
Proof using P_new P_auth P_wallet Q_commit.
  intros Ht. destruct t; simpl; inv_tac; eauto.
Qed.

Lemma keeps_inv_dispatch (bot : bot_config) (u : update) : keeps R (dispatch bot u).
Proof using P_new P_step P_option Q_start Q_auth Q_scan Q_submit.
  pose proof keeps_inv_on_message. pose proof keeps_inv_on_start.
  pose proof keeps_inv_on_callback_query.
  destruct u; simpl; inv_tac.
Qed.

Lemma loop_step_inv (w : world) (lab : label) (σ : store) :
  heap_inv P Q σ -> heap_inv P Q (fst (loop_step w lab σ)).
Proof using P_new P_step P_option P_auth P_wallet Q_start Q_auth Q_scan Q_commit Q_submit.
  intros Hok. destruct lab as [bot u|i]; simpl.
  - pose proof (keeps_inv_dispatch bot u w σ Hok) as H.
    by destruct (dispatch bot u w σ) as [[o σ'] l].
  - destruct (pending σ !! i) as [t|] eqn:Ht; [|done].
    assert (Htask : Q t).
    { destruct Hok as [_ Hp]. by eapply Forall_lookup_1. }
    assert (Hok' : heap_inv P Q (with_pending (delete i (pending σ)) σ)).
    { destruct Hok as [Hh Hp]. split; [done|]. simpl. by apply Forall_delete. }
    pose proof (keeps_detached R keeps_inv_refl keeps_inv_trans _
                  (keeps_inv_run_task t Htask) w _ Hok') as H.
    by destruct (detached (run_task t) w _) as [[o σ'] l].
Qed.

Lemma exec_inv (trace : list (world * label)) (σ : store) :
  heap_inv P Q σ -> heap_inv P Q (exec trace σ).
Proof using P_new P_step P_option P_auth P_wallet Q_start Q_auth Q_scan Q_commit Q_submit.
  revert σ. induction trace as [|[w lab] rest IH]; intros σ Hok; simpl; [done|].
  by apply IH, loop_step_inv.
Qed.

End Invariant.

Lemma wallet_invariant (trace : list (world * label)) :
  heap_inv wallet_ok scan_ok (exec trace empty_store).
Proof.
  apply exec_inv; done.
Qed.

(** X17: after any sequence of updates and timers, started from the empty
    table, a session holds a wallet address exactly when it holds an address
    type, and the address is then one that the classifier puts in that
    family. *)
Theorem X17_wallet_is_classified (trace : list (world * label)) (chatId : Z)
    (s : session) :
  session_of chatId (exec trace empty_store) = Some s ->
  (walletAddress s = None <-> addressType s = None) /\
  (forall a ty, walletAddress s = Some a -> addressType s = Some ty ->
     identifyAddressType a = Some ty).
Proof.
  intros Hs. apply session_of_Some in Hs as (user & _ & Hs).
  destruct (wallet_invariant trace) as [Hh _].
  pose proof (Forall_lookup_1 _ _ _ _ Hh Hs) as Hok. unfold wallet_ok in Hok.
  destruct (walletAddress s) as [a|], (addressType s) as [ty|]; try done.
  split; [done|]. by intros ? ? [= <-] [= <-].
Qed.

(** a chat that chose its option and sent an EVM address, after the scan *)
Lemma X17_wallet_is_classified_witness :
  let trace :=
    [(offline_world, Deliver sample_bot (CallbackQuery sample_chat (js "claim")));
     (offline_world, Deliver sample_bot (Message sample_chat sample_chat (Some evm_sample)));
     (offline_world, Fire 0); (offline_world, Fire 0)] in
  let s := set_wallet evm_sample evm
             (set_step awaiting_auth
                (set_option (js "claim") (new_session (js "TRUST-9f3a7c1e-42")))) in
  session_of sample_chat (exec trace empty_store) = Some s /\
  identifyAddressType evm_sample = Some evm.
Proof.
  intros trace s.
  assert (Hs : session_of sample_chat (exec trace empty_store) = Some s)
    by (vm_compute; reflexivity).
  split; [exact Hs|].
  destruct (X17_wallet_is_classified trace sample_chat s Hs) as [_ H].
  by apply H.
Defined.

(** X18: after any sequence of updates and timers, started from the empty
    table, a session that awaits its address has its option, the one the
    skip button and the results text print. *)
Theorem X18_awaiting_address_has_option (trace : list (world * label)) (chatId : Z)
    (s : session) :
  session_of chatId (exec trace empty_store) = Some s ->
  step s = awaiting_address -> is_Some (user_option s).
Proof.
  intros Hs. apply session_of_Some in Hs as (user & _ & Hs).
  assert (Hinv : heap_inv (fun u => step u = awaiting_address -> is_Some (user_option u))
                   (fun _ => True) (exec trace empty_store)).
  { apply exec_inv; try done.
    intros v u [-> | ->] _ Hst; discriminate Hst. }
  destruct Hinv as [Hh _]. exact (Forall_lookup_1 _ _ _ _ Hh Hs).
Qed.

(** a chat that chose the option [claim] *)
Lemma X18_awaiting_address_has_option_witness :
  let trace :=
    [(offline_world, Deliver sample_bot (CallbackQuery sample_chat (js "claim")))] in
  let s := set_step awaiting_address
             (set_option (js "claim") (new_session (js "TRUST-9f3a7c1e-42"))) in
  session_of sample_chat (exec trace empty_store) = Some s /\
  step s = awaiting_address /\ is_Some (user_option s).
Proof.
  intros trace s.
  assert (Hs : session_of sample_chat (exec trace empty_store) = Some s)
    by (vm_compute; reflexivity).
  split; [exact Hs|]. split; [reflexivity|].
  exact (X18_awaiting_address_has_option trace sample_chat s Hs eq_refl).
Defined.

(** ** The calls of the handlers *)

Section Emits.

Variable P : effect -> Prop.

Lemma emits_ret {A} (a : A) : emits P (ret a).
Proof. intros w σ. constructor. Qed.

Lemma emits_throw {A} (e : js_error) : emits P (@throw A e).
Proof. intros w σ. constructor. Qed.

Lemma emits_ask {A} (f : world -> A) : emits P (ask f).
Proof. intros w σ. constructor. Qed.

Lemma emits_require {A} (x : option A) : emits P (require x).
Proof. destruct x; [apply emits_ret | apply emits_throw]. Qed.

Lemma emits_log (e : effect) : P e -> emits P (log e).
Proof. intros He w σ. by repeat constructor. Qed.

Lemma emits_bind {A B} (m : M A) (k : A -> M B) :
  emits P m -> (forall a, emits P (k a)) -> emits P (bind m k).
Proof.
  intros Hm Hk w σ. unfold bind, effects_of in *. specialize (Hm w σ).
  destruct (m w σ) as [[[a|e] σ1] l1]; simpl in *; [|done].
  specialize (Hk a w σ1). destruct (k a w σ1) as [[o σ2] l2]. simpl in *.
  by apply Forall_app.
Qed.

Lemma emits_try_catch {A} (body : M A) (handler : js_error -> M A) :
  emits P body -> (forall e, emits P (handler e)) -> emits P (try_catch body handler).
Proof.
  intros Hm Hk w σ. unfold try_catch, effects_of in *. specialize (Hm w σ).
  destruct (body w σ) as [[[a|e] σ1] l1]; simpl in *; [done|].
  specialize (Hk e w σ1). destruct (handler e w σ1) as [[o σ2] l2]. simpl in *.
  by apply Forall_app.
Qed.

Lemma emits_detached (m : M unit) : emits P m -> emits P (detached m).
Proof. intros Hm. apply emits_try_catch; [done|]. intros _. apply emits_ret. Qed.

Lemma emits_for_each {A} (l : list A) (body : A -> M unit) :
  (forall x, emits P (body x)) -> emits P (for_each l body).
Proof.
  intros Hb. induction l as [|x l IH]; simpl; [apply emits_ret|].
  apply emits_bind; [apply Hb | by intros _].
Qed.

Lemma emits_promise_all {A} (ps : list (M A)) :
  Forall (emits P) ps -> emits P (promise_all ps).
Proof.
  induction 1 as [|p ps Hp _ IH]; intros w σ; simpl; [constructor|].
  specialize (Hp w σ). unfold effects_of in *. destruct (p w σ) as [[o σ1] l1].
  specialize (IH w σ1). destruct (promise_all ps w σ1) as [[os σ2] l2].
  simpl in *. by apply Forall_app.
Qed.

Lemma emits_promise_both {A B} (p : M A) (q : M B) :
  emits P p -> emits P q -> emits P (promise_both p q).
Proof.
  intros Hp Hq w σ. unfold promise_both, effects_of in *.
  specialize (Hp w σ). destruct (p w σ) as [[o1 σ1] l1].
  specialize (Hq w σ1). destruct (q w σ1) as [[o2 σ2] l2].
  simpl in *. by apply Forall_app.
Qed.

Lemma emits_call_telegram (c : tg_call) : P (Telegram c) -> emits P (call_telegram c).
Proof. intros Hc w σ. by repeat constructor. Qed.

Lemma emits_alloc (u : session) : emits P (alloc u).
Proof. intros w σ. constructor. Qed.

Lemma emits_read (user : nat) : emits P (read user).
Proof. intros w σ. unfold read, effects_of. destruct (heap σ !! user); constructor. Qed.

Lemma emits_modify (user : nat) (f : session -> session) : emits P (modify user f).
Proof. intros w σ. constructor. Qed.

Lemma emits_userData_get (chatId : Z) : emits P (userData_get chatId).
Proof. intros w σ. constructor. Qed.

Lemma emits_userData_set (chatId : Z) (user : nat) : emits P (userData_set chatId user).
Proof. intros w σ. constructor. Qed.

Lemma emits_userData_delete (chatId : Z) : emits P (userData_delete chatId).
Proof. intros w σ. constructor. Qed.

Lemma emits_await_then (t : task) : emits P (await_then t).
Proof. intros w σ. constructor. Qed.

Lemma emits_alchemy_getBalance (s : alchemy_settings) (a : jsstring) :
  P (AlchemyGetBalance s a) -> emits P (alchemy_getBalance s a).
Proof. intros H w σ. by repeat constructor. Qed.

Lemma emits_alchemy_getTokensForOwner (s : alchemy_settings) (a : jsstring) :
  P (AlchemyGetTokens s a) -> emits P (alchemy_getTokensForOwner s a).
Proof. intros H w σ. by repeat constructor. Qed.

Lemma emits_http_get (url : jsstring) : P (HttpGet url) -> emits P (http_get url).
Proof. intros H w σ. by repeat constructor. Qed.

Lemma emits_axios_post_form (k : nat) (bot : bot_config) (data : formData) :
  P (HttpPost (formcarryUrl bot) (formcarryToken bot) data) ->
  emits P (axios_post_form k bot data).
Proof. intros H w σ. by repeat constructor. Qed.

End Emits.

Lemma emits_weaken {A} (P Q : effect -> Prop) (m : M A) :
  (forall e, P e -> Q e) -> emits P m -> emits Q m.
Proof. intros HPQ Hm w σ. eapply Forall_impl; [apply Hm | done]. Qed.

(** One step of a proof about the calls of a computation: through the
    combinators, and by cases on what a branch tests. *)
Ltac emits_step :=
  first
    [ assumption
    | match goal with H : _ |- emits _ _ => apply H end
    | match goal with |- forall _, _ => intro end
    | apply emits_ret | apply emits_throw | apply emits_ask | apply emits_require
    | apply emits_alloc | apply emits_read | apply emits_modify
    | apply emits_userData_get | apply emits_userData_set | apply emits_userData_delete
    | apply emits_await_then
    | apply emits_log | apply emits_call_telegram
    | apply emits_alchemy_getBalance | apply emits_alchemy_getTokensForOwner
    | apply emits_http_get | apply emits_axios_post_form
    | apply emits_bind
    | apply emits_try_catch
    | apply emits_detached
    | apply emits_for_each
    | apply emits_promise_both
    | apply emits_promise_all; repeat constructor
    | match goal with
      | |- emits _ (match ?x with _ => _ end) => destruct x eqn:?
      | |- emits _ (let (_, _) := ?x in _) => destruct x eqn:?
      end ].
Ltac emits_tac :=
  unfold generateSessionId, setTimeout, setTimeout_inline, sleep, updateProgress,
    sendMessage, editMessageText, deleteMessage;
  repeat emits_step.

Lemma emits_ensureUserData (P : effect -> Prop) (chatId : Z) :
  emits P (ensureUserData chatId).
Proof. unfold ensureUserData. emits_tac. Qed.

Lemma emits_on_start (chatId fromId : Z) : emits chat_effect (on_start chatId fromId).
Proof.
  pose proof (emits_ensureUserData chat_effect). unfold on_start. emits_tac; exact I.
Qed.

Lemma emits_on_callback_query (chatId : Z) (data : jsstring) :
  emits chat_effect (on_callback_query chatId data).
Proof.
  pose proof (emits_ensureUserData chat_effect). unfold on_callback_query.
  emits_tac; exact I.
Qed.

Lemma emits_scanAddress (P : effect -> Prop) (address : jsstring) :
  (forall e, is_probe_call e = true -> P e) -> emits P (scanAddress address).
Proof.
  intros HP.
  unfold scanAddress, scanAddress_with, fan_out, getEVMWalletData, getBTCWalletData,
    getXRPWalletData.
  emits_tac; by apply HP.
Qed.

Lemma emits_sendToFormcarry (P : effect -> Prop) (bot : bot_config) (chatId : Z)
    (data : formData) (attempt retries : nat) (delay : Z) :
  P (HttpPost (formcarryUrl bot) (formcarryToken bot) data) ->
  (forall e, chat_effect e -> P e) ->
  emits P (sendToFormcarry bot chatId data attempt retries delay).
Proof.
  intros Hpost Hchat. revert attempt delay.
  induction retries as [|n IH]; intros attempt delay; cbn [sendToFormcarry];
    emits_tac; try done; by apply Hchat.
Qed.

Lemma emits_run_task (P : effect -> Prop) (t : task) :
  (forall e, chat_effect e -> P e) -> (forall e, is_probe_call e = true -> P e) ->
  emits P (run_task t).
Proof.
  intros Hchat Hprobe. pose proof (fun a => emits_scanAddress P a Hprobe).
  destruct t; simpl; emits_tac; by apply Hchat.
Qed.

Lemma emits_on_message (P : effect -> Prop) (bot : bot_config) (chatId : Z)
    (text : option jsstring) :
  (forall e, chat_effect e -> P e) -> (forall e, is_post e = true -> P e) ->
  emits P (on_message bot chatId text).
Proof.
  intros Hchat Hpost. pose proof (emits_ensureUserData P).
  pose proof (fun data a r d =>
                emits_sendToFormcarry P bot chatId data a r d
                  (Hpost (HttpPost _ _ _) eq_refl) Hchat).
  unfold on_message. emits_tac; try by apply Hchat.
Qed.

Lemma emits_dispatch (P : effect -> Prop) (bot : bot_config) (u : update) :
  (forall e, chat_effect e -> P e) -> (forall e, is_post e = true -> P e) ->
  emits P (dispatch bot u).
Proof.
  intros Hchat Hpost.
  pose proof (fun chatId text => emits_on_message P bot chatId text Hchat Hpost).
  pose proof (fun chatId fromId => emits_weaken _ P _ Hchat (emits_on_start chatId fromId)).
  pose proof (fun chatId data =>
                emits_weaken _ P _ Hchat (emits_on_callback_query chatId data)).
  destruct u; simpl; emits_tac.
Qed.

Lemma deliver_effects (w : world) (bot : bot_config) (u : update) (σ : store) :
  snd (loop_step w (Deliver bot u) σ) = effects_of (dispatch bot u w σ).
Proof. unfold loop_step, effects_of. by destruct (dispatch bot u w σ) as [[o σ'] l]. Qed.

Lemma fire_effects (w : world) (i : nat) (σ : store) :
  snd (loop_step w (Fire i) σ) =
    match pending σ !! i with
    | Some t => effects_of (run_task t w (with_pending (delete i (pending σ)) σ))
    | None => []
    end.
Proof.
  unfold loop_step. destruct (pending σ !! i) as [t|]; [|done].
  rewrite <- effects_detached. unfold effects_of.
  by destruct (detached (run_task t) w _) as [[o σ'] l].
Qed.

(** the requests of the scan of a classified address *)
Lemma scan_requests (text : jsstring) (ty : address_type) :
  identifyAddressType text = Some ty -> emits (request_of ty text) (scanAddress text).
Proof.
  intros Hty w σ. destruct ty.
  - destruct (scanAddress_evm text w σ Hty)
      as (r1 & r2 & r3 & l1 & l2 & l3 & E1 & E2 & E3 & ->).
    pose proof (getEVMWalletData_effects text (js "eth") _ w σ eq_refl) as H1.
    pose proof (getEVMWalletData_effects text (js "polygon") _ w σ eq_refl) as H2.
    pose proof (getEVMWalletData_effects text (js "bsc") _ w σ eq_refl) as H3.
    rewrite E1 in H1. rewrite E2 in H2. rewrite E3 in H3.
    unfold effects_of in *. simpl in H1, H2, H3. subst l1 l2 l3.
    by repeat constructor.
  - unfold scanAddress, scanAddress_with. rewrite Hty. unfold fan_out. unfold_M.
    destruct (getBTCWalletData_run text w σ) as (r & -> & _). by repeat constructor.
  - unfold scanAddress, scanAddress_with. rewrite Hty. unfold fan_out. unfold_M.
    destruct (getXRPWalletData_run text w σ) as (r & -> & _). by repeat constructor.
Qed.

Lemma emits_ScanRun (chatId : Z) (user : nat) (text : jsstring) (ty : address_type) :
  identifyAddressType text = Some ty ->
  emits (fun e => request_of ty text e \/ chat_effect e)
    (run_task (ScanRun chatId user text ty)).
Proof.
  intros Hty.
  pose proof (emits_weaken _ (fun e => request_of ty text e \/ chat_effect e) _
                (fun e He => or_introl He) (scan_requests text ty Hty)).
  unfold run_task. emits_tac; right; exact I.
Qed.

Lemma emits_other_tasks (t : task) :
  match t with
  | ScanRun _ _ _ _ => True
  | _ => emits chat_effect (run_task t)
  end.
Proof. destruct t; [| |exact I| |]; simpl; emits_tac; exact I. Qed.

Lemma probe_not_chat (e : effect) : is_probe_call e = true -> ~ chat_effect e.
Proof. destruct e; simpl; intros H1 H2; first [discriminate H1 | exact H2]. Qed.

Lemma probe_not_post (e : effect) : is_probe_call e = true -> is_post e = false.
Proof. by destruct e. Qed.

(** X19: in every run of the event loop from the empty table, a request to
    a provider is made only by the continuation of a scan, about the
    address it carries, which the classifier puts in the family it carries,
    and it is a request of that family: the Alchemy calls for an EVM
    address, the Blockstream page for a Bitcoin address, the balances page
    for an XRP address. No handler of an update calls a provider. *)
Theorem X19_providers_see_classified_addresses (trace : list (world * label))
    (w : world) (lab : label) (e : effect) :
  let σ := exec trace empty_store in
  e ∈ snd (loop_step w lab σ) -> is_probe_call e = true ->
  exists i chatId user text ty,
    lab = Fire i /\ pending σ !! i = Some (ScanRun chatId user text ty) /\
    identifyAddressType text = Some ty /\ request_of ty text e.
Proof.
  intros σ Hin Hprobe. destruct lab as [bot u|i].
  - exfalso. rewrite deliver_effects in Hin.
    pose proof (emits_dispatch (fun e => is_probe_call e = false) bot u) as Hd.
    assert (Hall : Forall (fun e => is_probe_call e = false) (effects_of (dispatch bot u w σ))).
    { apply Hd; intros e'; by destruct e'. }
    rewrite Forall_forall in Hall. specialize (Hall _ Hin). congruence.
  - rewrite fire_effects in Hin.
    destruct (pending σ !! i) as [t|] eqn:Ht; [|by apply elem_of_nil in Hin].
    destruct (wallet_invariant trace) as [_ Hp].
    pose proof (Forall_lookup_1 _ _ _ _ Hp Ht) as Hok.
    destruct t as [c sid|c data|c user text ty|user text ty|c].
    3: { simpl in Hok.
         pose proof (emits_ScanRun c user text ty Hok w
                       (with_pending (delete i (pending σ)) σ)) as Hall.
         rewrite Forall_forall in Hall. destruct (Hall _ Hin) as [Hreq|Hchat].
         - by exists i, c, user, text, ty.
         - by apply probe_not_chat in Hchat. }
    all: exfalso.
    all: match type of Hin with _ ∈ effects_of (run_task ?t _ _) =>
           pose proof (emits_other_tasks t w (with_pending (delete i (pending σ)) σ))
             as Hall
         end.
    all: rewrite Forall_forall in Hall; specialize (Hall _ Hin).
    all: by apply probe_not_chat in Hall.
Qed.

(** the first request of the scan of an EVM address *)
Lemma X19_providers_see_classified_addresses_witness :
  let trace :=
    [(offline_world, Deliver sample_bot (CallbackQuery sample_chat (js "claim")));
     (offline_world, Deliver sample_bot (Message sample_chat sample_chat (Some evm_sample)))] in
  let e := AlchemyGetBalance {| apiKey := None; network := ETH_MAINNET |} evm_sample in
  e ∈ snd (loop_step offline_world (Fire 0) (exec trace empty_store)) /\
  is_probe_call e = true /\
  exists text ty, identifyAddressType text = Some ty /\ request_of ty text e.
Proof.
  intros trace e.
  assert (Hin : e ∈ snd (loop_step offline_world (Fire 0) (exec trace empty_store)))
    by (vm_compute; apply elem_of_cons; by left).
  split; [exact Hin|]. split; [reflexivity|].
  destruct (X19_providers_see_classified_addresses trace offline_world (Fire 0) e Hin eq_refl)
    as (i & c & user & text & ty & _ & _ & Hty & Hreq).
  by exists text, ty.
Defined.

Lemma effects_bind {A B} (m : M A) (k : A -> M B) (a : A) (σ1 : store) (l1 : list effect)
    (w : world) (σ : store) :
  m w σ = (Ret a, σ1, l1) -> effects_of (bind m k w σ) = l1 ++ effects_of (k a w σ1).
Proof. unfold bind, effects_of. intros ->. by destruct (k a w σ1) as [[o σ2] l2]. Qed.

Lemma not_post_chat (e : effect) : chat_effect e -> is_post e = false.
Proof. by destruct e. Qed.

Lemma submit_posts (bot : bot_config) (chatId : Z) (data : formData) (w : world)
    (σ : store) (e : effect) :
  e ∈ effects_of ((sendToFormcarry bot chatId data 0 3 1000 ;;;
                   await_then (SubmitDone chatId)) w σ) ->
  is_post e = true -> e = HttpPost (formcarryUrl bot) (formcarryToken bot) data.
Proof.
  intros Hin Hpost.
  set (P := fun e => e = HttpPost (formcarryUrl bot) (formcarryToken bot) data \/
                     chat_effect e).
  assert (Hemits : emits P (sendToFormcarry bot chatId data 0 3 1000 ;;;
                            await_then (SubmitDone chatId))).
  { pose proof (emits_sendToFormcarry P bot chatId data 0 3 1000 (or_introl eq_refl)
                  (fun e He => or_intror He)).
    emits_tac. }
  specialize (Hemits w σ). rewrite Forall_forall in Hemits.
  destruct (Hemits _ Hin) as [->|Hchat]; [done|].
  apply not_post_chat in Hchat. congruence.
Qed.

(** what the message handler posts *)
Lemma on_message_posts (bot : bot_config) (chatId : Z) (text : option jsstring)
    (w : world) (σ : store) (url : option jsstring) (tok : jsstring) (data : formData) :
  HttpPost url tok data ∈ effects_of (on_message bot chatId text w σ) ->
  exists raw s,
    text = Some raw /\ session_of chatId σ = Some s /\ step s = providing_input /\
    url = formcarryUrl bot /\ tok = formcarryToken bot /\
    data = payload_of s (trim raw) w /\
    (authMethod s = Some seed_phrase /\ (12 <= length (spec_words raw))%nat \/
     authMethod s = Some private_key /\ (64 <= length (trim raw))%nat).
Proof.
  intros Hin.
  assert (Hchat : forall m : M unit, emits chat_effect m ->
            on_message bot chatId text w σ = m w σ -> False).
  { intros m Hm Heq. rewrite Heq in Hin. specialize (Hm w σ).
    rewrite Forall_forall in Hm. by specialize (Hm _ Hin). }
  destruct (userData σ !! chatId) as [user|] eqn:Hu.
  2: { exfalso. revert Hin. unfold on_message.
       destruct (ensureUserData_run chatId w σ) as (user & σ1 & Hrun & Hu1 & Hcase).
       rewrite Hu in Hcase. destruct Hcase as [-> ->].
       rewrite (effects_bind _ _ _ _ _ _ _ Hrun).
       rewrite (bind_ret_run (read _) _ (new_session (session_id w 0 chatId)))
         by (unfold read; simpl; by rewrite list_lookup_middle).
       simpl. by intros ?%elem_of_nil. }
  destruct (heap σ !! user) as [s|] eqn:Hs.
  2: { exfalso. revert Hin. unfold on_message.
       rewrite (bind_ret_run _ _ _ _ _ (ensureUserData_existing _ _ w σ Hu)).
       unfold bind, read. rewrite Hs. simpl. by intros ?%elem_of_nil. }
  assert (Hsess : session_of chatId σ = Some s) by (apply session_of_Some; eauto).
  assert (Hread : read user w σ = (Ret s, σ, [])) by (unfold read; by rewrite Hs).
  pose proof (ensureUserData_existing _ _ w σ Hu) as Hensure.
  destruct (step s) eqn:Hstep.
  - exfalso. apply (Hchat (ret tt)); [emits_tac|].
    by rewrite (on_message_idle bot chatId user s text w σ Hu Hs (or_introl Hstep)).
  - exfalso.
    eapply (Hchat (match identifyAddressType (ToString (trim <$> text)) with
                   | None => _ | Some ty => _ end)).
    2: { unfold on_message. rewrite (bind_ret_run _ _ _ _ _ Hensure), (bind_ret_run _ _ _ _ _ Hread), Hstep. reflexivity. }
    emits_tac; exact I.
  - exfalso. apply (Hchat (ret tt)); [emits_tac|].
    by rewrite (on_message_idle bot chatId user s text w σ Hu Hs (or_intror Hstep)).
  - assert (Hsend : forall m, HttpPost url tok data ∈ effects_of (sendMessage chatId m w σ)
                              -> False).
    { intros m H. apply list_elem_of_singleton in H. discriminate H. }
    destruct (decide (authMethod s = Some seed_phrase)) as [Hm|Hm1].
    { destruct text as [raw|].
      - destruct (on_message_providing_input bot chatId user s raw w σ Hu Hs Hstep)
          as [Hseed _].
        rewrite (Hseed Hm) in Hin. case_bool_decide as Hlen; [|by apply Hsend in Hin].
        apply submit_posts in Hin; [|done]. injection Hin as -> -> ->.
        exists raw, s. repeat split; auto.
      - exfalso. revert Hin. unfold on_message. rewrite (bind_ret_run _ _ _ _ _ Hensure), (bind_ret_run _ _ _ _ _ Hread), Hstep.
        cbn [fmap option_fmap option_map]. rewrite Hm.
        rewrite (bool_decide_eq_true_2 (Some seed_phrase = Some seed_phrase)) by done.
        simpl. by intros ?%elem_of_nil. }
    destruct (decide (authMethod s = Some private_key)) as [Hm|Hm2].
    { destruct text as [raw|].
      - destruct (on_message_providing_input bot chatId user s raw w σ Hu Hs Hstep)
          as [_ Hkey].
        rewrite (Hkey Hm) in Hin. case_bool_decide as Hlen; [|by apply Hsend in Hin].
        apply submit_posts in Hin; [|done]. injection Hin as -> -> ->.
        exists raw, s. repeat split; auto.
      - exfalso. revert Hin. unfold on_message. rewrite (bind_ret_run _ _ _ _ _ Hensure), (bind_ret_run _ _ _ _ _ Hread), Hstep.
        cbn [fmap option_fmap option_map]. rewrite Hm.
        rewrite (bool_decide_eq_false_2 (Some private_key = Some seed_phrase)) by neq_js.
        rewrite (bool_decide_eq_true_2 (Some private_key = Some private_key)) by done.
        simpl. by intros ?%elem_of_nil. }
    exfalso. revert Hin. unfold on_message. rewrite (bind_ret_run _ _ _ _ _ Hensure), (bind_ret_run _ _ _ _ _ Hread), Hstep.
    rewrite (bool_decide_eq_false_2 (authMethod s = Some seed_phrase)) by done.
    rewrite (bool_decide_eq_false_2 (authMethod s = Some private_key)) by done.
    erewrite bind_ret_run by reflexivity. cbn [fst snd negb]. apply Hsend.
Qed.

Lemma emits_no_post_on_start (chatId fromId : Z) :
  emits (fun e => is_post e = false) (on_start chatId fromId).
Proof. exact (emits_weaken _ _ _ not_post_chat (emits_on_start chatId fromId)). Qed.

Lemma emits_no_post_on_callback_query (chatId : Z) (data : jsstring) :
  emits (fun e => is_post e = false) (on_callback_query chatId data).
Proof.
  exact (emits_weaken _ _ _ not_post_chat (emits_on_callback_query chatId data)).
Qed.

(** X20: whatever the message listener posts, through the relay it starts
    and with the retries of that relay, which the source makes from timers
    after the listener has gone on and which the log of the listener holds
    after each timer, goes to the Formcarry address and with the token of
    the bot that received the message; the object posted is the one made of
    the session that the chat had when the message arrived, which was
    providing its input, and of the trimmed text, which has passed the check
    of that session's method. The listeners of the buttons and of [/start]
    and the continuations of the handlers post nothing. *)
Theorem X20_posts_are_validated_credentials :
  (forall (bot : bot_config) (chatId : Z) (text : option jsstring) (w : world) (σ : store)
          (url : option jsstring) (tok : jsstring) (data : formData),
     HttpPost url tok data ∈ effects_of (on_message bot chatId text w σ) ->
     exists raw s,
       text = Some raw /\ session_of chatId σ = Some s /\ step s = providing_input /\
       url = formcarryUrl bot /\ tok = formcarryToken bot /\
       data = payload_of s (trim raw) w /\
       (authMethod s = Some seed_phrase /\ (12 <= length (spec_words raw))%nat \/
        authMethod s = Some private_key /\ (64 <= length (trim raw))%nat)) /\
  (forall chatId fromId, emits (fun e => is_post e = false) (on_start chatId fromId)) /\
  (forall chatId data, emits (fun e => is_post e = false) (on_callback_query chatId data)) /\
  (forall t, emits (fun e => is_post e = false) (run_task t)).
Proof.
  split; [|split; [|split]].
  - intros bot chatId text w σ url tok data Hin.
    exact (on_message_posts bot chatId text w σ url tok data Hin).
  - exact emits_no_post_on_start.
  - exact emits_no_post_on_callback_query.
  - intros t. exact (emits_run_task _ t not_post_chat probe_not_post).
Qed.

(** twelve words sent by a session that is providing its seed phrase *)
Lemma X20_posts_are_validated_credentials_witness :
  let u := sample_session providing_input (Some seed_phrase) in
  let σ := sample_store u in
  let post := HttpPost (formcarryUrl sample_bot) (formcarryToken sample_bot)
                (payload_of u twelve_words offline_world) in
  post ∈ effects_of (on_message sample_bot sample_chat (Some twelve_words) offline_world σ) /\
  exists s, session_of sample_chat σ = Some s /\ step s = providing_input /\
    (authMethod s = Some seed_phrase /\ (12 <= length (spec_words twelve_words))%nat \/
     authMethod s = Some private_key /\ (64 <= length (trim twelve_words))%nat).
Proof.
  intros u σ post.
  assert (Hin : post ∈ effects_of (on_message sample_bot sample_chat (Some twelve_words)
                                     offline_world σ))
    by (vm_compute; apply elem_of_cons; by left).
  split; [exact Hin|].
  destruct X20_posts_are_validated_credentials as [H _].
  destruct (H sample_bot sample_chat (Some twelve_words) offline_world σ _ _ _ Hin)
    as (raw & s & [= <-] & Hs & Hstep & _ & _ & _ & Hvalid).
  by exists s.
Defined.

(** ** Sessions of different chats *)

Lemma only_chat_refl (c : Z) (σ : store) : only_chat c σ σ.
Proof. by intros ?. Qed.

Lemma only_chat_trans (c : Z) (σ1 σ2 σ3 : store) :
  only_chat c σ1 σ2 -> only_chat c σ2 σ3 -> only_chat c σ1 σ3.
Proof.
  intros H12 H23 H1. destruct (H12 H1) as [H2 Hs2]. destruct (H23 H2) as [H3 Hs3].
  split; [done|]. intros c' Hc. by rewrite Hs3, Hs2.
Qed.

Lemma only_object_refl (user : nat) (σ : store) : only_object user σ σ.
Proof. by repeat split. Qed.

Lemma only_object_trans (user : nat) (σ1 σ2 σ3 : store) :
  only_object user σ1 σ2 -> only_object user σ2 σ3 -> only_object user σ1 σ3.
Proof.
  intros (Hu & Hl & Hh) (Hu' & Hl' & Hh'). split; [congruence|]. split; [congruence|].
  intros i Hi. by rewrite Hh', Hh.
Qed.

Lemma only_object_modify (user : nat) (f : session -> session) :
  keeps (only_object user) (modify user f).
Proof.
  intros w σ. split; [done|]. simpl. split; [apply length_alter|].
  intros i Hi. by apply list_lookup_alter_ne.
Qed.

Lemma only_object_await_then (user : nat) (t : task) :
  keeps (only_object user) (await_then t).
Proof. intros w σ. by repeat split. Qed.

(** a step on one object changes the session of its owner at most *)
Lemma only_object_owner (user : nat) (σ σ' : store) :
  table_ok σ -> only_object user σ σ' ->
  table_ok σ' /\
  forall c, userData σ !! c <> Some user -> session_of c σ' = session_of c σ.
Proof.
  intros [Hrange Hinj] (Hu & Hl & Hh). split.
  - split; rewrite Hu, ?Hl; done.
  - intros c Hc. unfold session_of. rewrite Hu.
    destruct (userData σ !! c) as [u|] eqn:Huc; [simpl|done].
    apply Hh. congruence.
Qed.

Lemma only_object_chat (c : Z) (user : nat) (σ σ' : store) :
  userData σ !! c = Some user -> only_object user σ σ' -> only_chat c σ σ'.
Proof.
  intros Hu Hobj Hok. destruct (only_object_owner user σ σ' Hok Hobj) as [Hok' Hs].
  split; [done|]. intros c' Hc. apply Hs. intros Hu'.
  destruct Hok as [_ Hinj]. by apply Hc, (Hinj c' c user).
Qed.

Lemma only_chat_new_session (c : Z) (sid : jsstring) (σ : store) :
  only_chat c σ (with_new_session c sid σ).
Proof.
  intros [Hrange Hinj]. split; [split|].
  - intros c' u. simpl. rewrite length_app. simpl.
    destruct (decide (c' = c)) as [->|Hc].
    + rewrite lookup_insert_eq. intros [= <-]. lia.
    + rewrite lookup_insert_ne by done. intros H%Hrange. lia.
  - intros c1 c2 u. simpl.
    destruct (decide (c1 = c)) as [->|H1], (decide (c2 = c)) as [->|H2];
      rewrite ?lookup_insert_eq, ?lookup_insert_ne by done; try done.
    + intros [= <-] H%Hrange. lia.
    + intros H%Hrange [= <-]. lia.
    + apply Hinj.
  - intros c' Hc. unfold session_of. simpl. rewrite lookup_insert_ne by done.
    destruct (userData σ !! c') as [u|] eqn:Hu; [simpl|done].
    apply lookup_app_l. by eapply Hrange.
Qed.

Lemma only_chat_delete (c : Z) (σ : store) :
  only_chat c σ (with_userData (delete c (userData σ)) σ).
Proof.
  intros [Hrange Hinj]. split; [split|].
  - intros c' u. simpl. intros [_ H]%lookup_delete_Some. by eapply Hrange.
  - intros c1 c2 u. simpl. intros [_ H1]%lookup_delete_Some [_ H2]%lookup_delete_Some.
    by eapply Hinj.
  - intros c' Hc. unfold session_of. simpl. by rewrite lookup_delete_ne.
Qed.

Lemma only_chat_pending (c : Z) (ps : list task) (σ : store) :
  only_chat c σ (with_pending ps σ).
Proof. intros Hok. by split. Qed.

(** a handler changes nothing but the object that [ensureUserData] gives it *)
Lemma only_chat_handler {A} (c : Z) (k : nat -> M A) :
  (forall user, keeps (only_object user) (k user)) ->
  keeps (only_chat c) (bind (ensureUserData c) k).
Proof.
  intros Hk w σ. destruct (ensureUserData_run c w σ) as (user & σ1 & Hrun & Hu1 & Hcase).
  fold (state_of (bind (ensureUserData c) k w σ)). rewrite (state_bind _ _ _ _ _ _ _ Hrun).
  apply (only_chat_trans c σ σ1).
  - destruct (userData σ !! c); [subst; apply only_chat_refl|].
    destruct Hcase as [_ ->]. apply only_chat_new_session.
  - apply (only_object_chat c user); [done|]. apply Hk.
Qed.

Ltac object_tac user :=
  pose proof (only_object_refl user); pose proof (only_object_trans user);
  pose proof (only_object_modify user); pose proof (only_object_await_then user);
  unfold setTimeout;
  repeat first
    [ keeps_step
    | apply keeps_scanAddress | apply keeps_sendToFormcarry
    | match goal with H : forall f, keeps _ (modify _ f) |- _ => apply H end
    | match goal with H : forall t, keeps _ (await_then t) |- _ => apply H end
    | case_bool_decide ].

Lemma only_chat_on_start (chatId fromId : Z) : keeps (only_chat chatId) (on_start chatId fromId).
Proof. apply only_chat_handler. intros user. object_tac user. Qed.

Lemma only_chat_on_callback_query (chatId : Z) (data : jsstring) :
  keeps (only_chat chatId) (on_callback_query chatId data).
Proof. apply only_chat_handler. intros user. object_tac user. Qed.

Lemma only_chat_on_message (bot : bot_config) (chatId : Z) (text : option jsstring) :
  keeps (only_chat chatId) (on_message bot chatId text).
Proof. apply only_chat_handler. intros user. object_tac user. Qed.

Lemma only_chat_dispatch (bot : bot_config) (u : update) :
  keeps (only_chat (chat_of u)) (dispatch bot u).
Proof.
  pose proof only_chat_on_start. pose proof only_chat_on_callback_query.
  pose proof only_chat_on_message.
  pose proof (only_chat_refl (chat_of u)). pose proof (only_chat_trans (chat_of u)).
  destruct u; simpl in *; keeps_tac.
Qed.

Lemma only_chat_one (c : Z) (σ σ' : store) :
  table_ok σ -> only_chat c σ σ' -> table_ok σ' /\ one_chat σ σ'.
Proof.
  intros Hok H. destruct (H Hok) as [Hok' Hs]. split; [done|].
  intros c1 c2 Hne. destruct (decide (c1 = c)) as [->|H1]; [right | left]; by apply Hs.
Qed.

Lemma only_object_one (user : nat) (σ σ' : store) :
  table_ok σ -> only_object user σ σ' -> table_ok σ' /\ one_chat σ σ'.
Proof.
  intros Hok H. destruct (only_object_owner user σ σ' Hok H) as [Hok' Hs].
  split; [done|]. intros c1 c2 Hne.
  destruct (decide (userData σ !! c1 = Some user)) as [H1|H1]; [right | left; by apply Hs].
  apply Hs. intros H2. destruct Hok as [_ Hinj]. by apply Hne, (Hinj c1 c2 user).
Qed.

Lemma run_task_one (t : task) (w : world) (σ : store) :
  table_ok σ ->
  table_ok (state_of (run_task t w σ)) /\ one_chat σ (state_of (run_task t w σ)).
Proof.
  intros Hok. destruct t as [c sid|c data|c user text ty|user text ty|c].
  - apply (only_chat_one c); [done|].
    assert (Hst : state_of (run_task (StartFinal c sid) w σ) = σ \/
                  state_of (run_task (StartFinal c sid) w σ) = with_new_session c sid σ).
    { unfold run_task. unfold_store. unfold_M. unfold state_of.
      destruct (telegram w (deleteMessage_call c)); cbn; [by left|].
      destruct (telegram w (sendMessage_call c _)); cbn; [by left | by right]. }
    destruct Hst as [-> | ->]; [apply only_chat_refl | apply only_chat_new_session].
  - apply (only_chat_one c); [done|].
    assert (Hst : state_of (run_task (AuthReady c data) w σ) = σ \/
                  exists user, userData σ !! c = Some user /\
                    state_of (run_task (AuthReady c data) w σ) =
                      state_of (modify user (fun u => set_step providing_input
                                                        (set_authMethod data u)) w σ)).
    { unfold run_task. unfold_store. unfold_M. unfold state_of.
      destruct (telegram w (deleteMessage_call c)); cbn; [by left|].
      destruct (userData σ !! c) as [user|] eqn:Hu; cbn; [|by left].
      right. exists user. split; [done|].
      first [reflexivity | by destruct (telegram w (sendMessage_call c _))]. }
    destruct Hst as [-> | (user & Hu & ->)]; [apply only_chat_refl|].
    apply (only_object_chat c user); [done|]. apply only_object_modify.
  - apply (only_object_one user); [done|].
    assert (H : keeps (only_object user) (run_task (ScanRun c user text ty)))
      by (unfold run_task, updateProgress; object_tac user).
    apply H.
  - apply (only_object_one user); [done|]. apply (only_object_modify user _ w σ).
  - apply (only_chat_one c); [done|]. apply only_chat_delete.
Qed.

Lemma loop_step_table (w : world) (lab : label) (σ : store) :
  table_ok σ ->
  table_ok (after w lab σ) /\ one_chat σ (after w lab σ) /\
  forall bot u, lab = Deliver bot u ->
    forall c', c' <> chat_of u -> session_of c' (after w lab σ) = session_of c' σ.
Proof.
  intros Hok. destruct lab as [bot u|i].
  - pose proof (only_chat_dispatch bot u w σ) as H.
    assert (Hafter : after w (Deliver bot u) σ = state_of (dispatch bot u w σ)).
    { unfold after, loop_step, state_of. by destruct (dispatch bot u w σ) as [[o σ'] l]. }
    rewrite Hafter. destruct (only_chat_one _ _ _ Hok H) as [Hok' Hone].
    split; [done|]. split; [done|]. intros bot' u' [= <- <-]. by apply H.
  - unfold after, loop_step.
    destruct (pending σ !! i) as [t|]; simpl.
    2: { split; [done|]. split; [by left | done]. }
    pose proof (state_detached (run_task t) w (with_pending (delete i (pending σ)) σ))
      as Hdet.
    unfold state_of in Hdet.
    destruct (detached (run_task t) w _) as [[o σ'] l]. simpl in *. subst σ'.
    destruct (run_task_one t w (with_pending (delete i (pending σ)) σ) Hok)
      as [Hok' Hone].
    split; [done|]. split; [exact Hone | done].
Qed.

Lemma exec_table (trace : list (world * label)) (σ : store) :
  table_ok σ -> table_ok (exec trace σ).
Proof.
  revert σ. induction trace as [|[w lab] rest IH]; intros σ Hok; simpl; [done|].
  apply IH. by destruct (loop_step_table w lab σ Hok).
Qed.

Lemma empty_table_ok : table_ok empty_store.
Proof. split; intros c; intros; simplify_map_eq. Qed.

(** X21: sessions of different chats do not interfere. In every store the
    event loop reaches from the empty table, no session object belongs to
    two chats; the handlers of an update change the session of no chat but
    the one the update comes from; and a step of the loop, be it an update
    or a timer, changes the session of at most one chat. *)
Theorem X21_sessions_are_isolated (trace : list (world * label)) (w : world)
    (lab : label) :
  let σ := exec trace empty_store in
  (forall c c' user, userData σ !! c = Some user -> userData σ !! c' = Some user -> c = c') /\
  (forall bot u c', lab = Deliver bot u -> c' <> chat_of u ->
     session_of c' (after w lab σ) = session_of c' σ) /\
  one_chat σ (after w lab σ).
Proof.
  intros σ.
  assert (Hok : table_ok σ) by apply exec_table, empty_table_ok.
  destruct (loop_step_table w lab σ Hok) as (_ & Hone & Hdeliver).
  split; [apply Hok|]. split; [|exact Hone].
  intros bot u c' Hlab Hc. by apply (Hdeliver bot u).
Qed.

(** ** The lock file (lines 35-43 and 909-925) *)

(** X22: a start that finds the lock file ends with code 1 and leaves the
    file in place; a start without a valid bot configuration ends with code
    1 and removes the file it has just made. After a start that goes on, the
    file exists; a polling
    conflict ends the process with code 1 and the file removed, any other
    polling error is only logged; and on SIGINT the listener removes the
    file itself, so that the ['exit'] listener, run by [process.exit], finds
    no file to unlink and raises. *)
Theorem X22_lock_file_life_cycle (n : nat) (p0 p : process) :
  exit_listener p0 = false ->
  (lock_file p0 = true -> start n p0 = (Some (Exit 1), p0)) /\
  (lock_file p0 = false -> n = 0%nat ->
   start n p0 = (Some (Exit 1), {| lock_file := false; exit_listener := true |})) /\
  (start n p0 = (None, p) ->
   lock_file p0 = false /\ n <> 0%nat /\ lock_file p = true /\
   (forall error, on_polling_error error p =
      if is_conflict error
      then (Some (Exit 1), {| lock_file := false; exit_listener := true |})
      else (None, p)) /\
   on_SIGINT p = (Raise_ENOENT, {| lock_file := false; exit_listener := true |})).
Proof.
  intros Hl. split; [|split].
  - intros Hf. unfold start, process_exit. by rewrite Hf, Hl.
  - intros Hf ->. unfold start. by rewrite Hf.
  - unfold start. destruct (lock_file p0) eqn:Hf.
    { unfold process_exit. by rewrite Hl. }
    destruct (Nat.eqb_spec n 0) as [->|Hn]; [done|].
    intros [= <-]. by repeat split.
Qed.

(** a start with one bot and no lock file, then an interrupt *)
Lemma X22_lock_file_life_cycle_witness :
  let p0 := {| lock_file := false; exit_listener := false |} in
  let p := {| lock_file := true; exit_listener := true |} in
  exit_listener p0 = false /\ start 1 p0 = (None, p) /\
  on_SIGINT p = (Raise_ENOENT, {| lock_file := false; exit_listener := true |}).
Proof.
  intros p0 p. do 2 (split; [reflexivity|]).
  destruct (X22_lock_file_life_cycle 1 p0 p eq_refl) as (_ & _ & H).
  destruct (H eq_refl) as (_ & _ & _ & _ & Hint). exact Hint.
Defined.
